(** * Plasmic CLI: source reconciliation and import rewriting

    A shallow embedding of [plasmic-cli/src/index.ts]: the sync pass
    ([syncProjects]), the stand-alone [fixImports] command, the path
    reconciler ([findSrcDirPath], [fixComponentPaths],
    [fixProjectFilePaths]) and the import rewriter
    ([fixAllImportStatements]).

    Effects are explicit.  A computation is a function from the program
    state to an outcome and a new state.  The state holds the file tree,
    the in-memory [config.components] and [config.projects] arrays, and
    the trace of calls that [index.ts] made on its collaborators
    ([console], [fs], [writeFileContent], [updateConfig]).  An outcome is
    a normal return, a [process.exit], or a thrown exception.

    The last part, [Loader], embeds the command-line helpers of the
    loader: how it runs the CLI, and how it finds the pages of a
    configuration. *)

From Stdlib Require Import ZArith Ascii String.
From stdpp Require Import gmap strings list fin_maps sorting.

Local Open Scope string_scope.
Local Open Scope list_scope.

(** ** Data model *)

(** [ComponentConfig], as built at index.ts:294-302. *)
Module ComponentConfig.
Record ImportSpec := { modulePath : string }.
Record t := {
  id : string;
  name : string;
  type : string;
  projectId : string;
  renderModuleFilePath : string;
  importSpec : ImportSpec;
  cssFilePath : string
}.

Definition set_renderModuleFilePath (p : string) (c : t) : t :=
  {| id := id c; name := name c; type := type c; projectId := projectId c;
     renderModuleFilePath := p; importSpec := importSpec c;
     cssFilePath := cssFilePath c |}.

Definition set_cssFilePath (p : string) (c : t) : t :=
  {| id := id c; name := name c; type := type c; projectId := projectId c;
     renderModuleFilePath := renderModuleFilePath c;
     importSpec := importSpec c; cssFilePath := p |}.

Definition set_modulePath (p : string) (c : t) : t :=
  {| id := id c; name := name c; type := type c; projectId := projectId c;
     renderModuleFilePath := renderModuleFilePath c;
     importSpec := {| modulePath := p |}; cssFilePath := cssFilePath c |}.
End ComponentConfig.

(** [ProjectConfig], as built at index.ts:346-351. *)
Module ProjectConfig.
Record t := {
  projectId : string;
  contextFilePath : string;
  fontsFilePath : string;
  contextTypeName : string
}.

Definition set_contextFilePath (p : string) (c : t) : t :=
  {| projectId := projectId c; contextFilePath := p;
     fontsFilePath := fontsFilePath c; contextTypeName := contextTypeName c |}.

Definition set_fontsFilePath (p : string) (c : t) : t :=
  {| projectId := projectId c; contextFilePath := contextFilePath c;
     fontsFilePath := p; contextTypeName := contextTypeName c |}.
End ProjectConfig.

(** The fields of a [ComponentBundle] read at index.ts:277-286. *)
Module ComponentBundle.
Record t := {
  renderModule : string;
  skeletonModule : string;
  cssRules : string;
  renderModuleFileName : string;
  skeletonModuleFileName : string;
  cssFileName : string;
  componentName : string;
  id : string
}.
End ComponentBundle.

(** The fields of [projectBundle.projectConfig] read at index.ts:333-351. *)
Module ProjectMetaBundle.
Record t := {
  projectId : string;
  contextFileName : string;
  contextModule : string;
  fontsFileName : string;
  fontsModule : string;
  contextTypeName : string
}.
End ProjectMetaBundle.

Module ProjectBundle.
Record t := {
  results : list ComponentBundle.t;
  projectConfig : ProjectMetaBundle.t
}.
End ProjectBundle.

(** [SyncArgs], index.ts:230-234. *)
Module SyncArgs.
Record t := {
  projects : list string;
  components : list string;
  includeNew : bool
}.
End SyncArgs.

(** What [getContext] hands to the commands: the root directory, the
    [srcDir] setting of the configuration and the remote API.  The
    mutable arrays [config.components] and [config.projects] live in the
    program state below. *)
Module PlasmicContext.
Record t := {
  rootDir : string;
  config_srcDir : string;
  api_projectComponents : string → ProjectBundle.t
}.
End PlasmicContext.

(** ** Effects *)

(** The calls [index.ts] makes on the outside world, in program order. *)
Inductive event :=
  | ConsoleLog (msg : string)
  | ConsoleWarn (msg : string)
  | ConsoleError (msg : string)
  | ExistsSync (path : string)
  | ReadFileSync (path : string)
  | WriteFileContent (path content : string) (force : bool)
  | UpdateConfig (components : list ComponentConfig.t)
                 (projects : option (list ProjectConfig.t)).

Record State := {
  fs : gmap string string;
  components : list ComponentConfig.t;
  projects : list ProjectConfig.t;
  trace : list event
}.

Inductive outcome (A : Type) :=
  | Done (a : A)
  | Exit (code : Z)
  | Throw (err : string).
Arguments Done {A} a.
Arguments Exit {A} code.
Arguments Throw {A} err.

Definition M (A : Type) : Type := State → outcome A * State.

Definition ret {A} (a : A) : M A := λ s, (Done a, s).

Definition bind {A B} (m : M A) (k : A → M B) : M B := λ s,
  match m s with
  | (Done a, s') => k a s'
  | (Exit c, s') => (Exit c, s')
  | (Throw e, s') => (Throw e, s')
  end.

Declare Scope prog_scope.
Delimit Scope prog_scope with prog.
Notation "'let*' x := m 'in' k" := (bind m (λ x, k))
  (at level 10, x name, m at level 99, k at level 200) : prog_scope.
Notation "m ;; k" := (bind m (λ _, k))
  (at level 100, right associativity) : prog_scope.
Local Open Scope prog_scope.

Definition emit (e : event) : M unit := λ s,
  (Done (),
   {| fs := fs s; components := components s; projects := projects s;
      trace := trace s ++ [e] |}).

Definition process_exit {A} (code : Z) : M A := λ s, (Exit code, s).
Definition throw {A} (err : string) : M A := λ s, (Throw err, s).

Definition console_log (msg : string) : M unit := emit (ConsoleLog msg).
Definition console_warn (msg : string) : M unit := emit (ConsoleWarn msg).
Definition console_error (msg : string) : M unit := emit (ConsoleError msg).

(** [fs.existsSync]. *)
Definition fs_existsSync (p : string) : M bool := λ s,
  bind (emit (ExistsSync p)) (λ _ s', (Done (bool_decide (is_Some (fs s !! p))), s')) s.

(** [fs.readFileSync(p).toString()]; a missing file raises [ENOENT]. *)
Definition fs_readFileSync (p : string) : M string := λ s,
  bind (emit (ReadFileSync p))
       (λ _ s', match fs s !! p with
                | Some content => (Done content, s')
                | None => (Throw "ENOENT", s')
                end) s.

Definition get_components : M (list ComponentConfig.t) := λ s, (Done (components s), s).
Definition get_projects : M (list ProjectConfig.t) := λ s, (Done (projects s), s).

Definition set_fs (f : gmap string string) : M unit := λ s,
  (Done (),
   {| fs := f; components := components s; projects := projects s;
      trace := trace s |}).

Definition set_components (cs : list ComponentConfig.t) : M unit := λ s,
  (Done (),
   {| fs := fs s; components := cs; projects := projects s; trace := trace s |}).

Definition set_projects (ps : list ProjectConfig.t) : M unit := λ s,
  (Done (),
   {| fs := fs s; components := components s; projects := ps; trace := trace s |}).

(** Entries of [config.components] and [config.projects] are objects that
    the code reaches through several references ([allCompConfigs[id]],
    the loop variable, the result of [find]).  Entries are never removed
    or reordered, so a reference is the position of the object in its
    array; reading through a dangling reference is a [TypeError]. *)
Definition read_component (i : nat) : M ComponentConfig.t := λ s,
  match components s !! i with
  | Some c => (Done c, s)
  | None => (Throw "TypeError", s)
  end.

Definition update_component (i : nat) (f : ComponentConfig.t → ComponentConfig.t)
    : M unit := λ s,
  match components s !! i with
  | Some c => set_components (<[i := f c]> (components s)) s
  | None => (Throw "TypeError", s)
  end.

Definition read_project (i : nat) : M ProjectConfig.t := λ s,
  match projects s !! i with
  | Some c => (Done c, s)
  | None => (Throw "TypeError", s)
  end.

Definition update_project (i : nat) (f : ProjectConfig.t → ProjectConfig.t)
    : M unit := λ s,
  match projects s !! i with
  | Some c => set_projects (<[i := f c]> (projects s)) s
  | None => (Throw "TypeError", s)
  end.

(** [for (const x of l) body(x)]. *)
Fixpoint forM_ {A} (l : list A) (body : A → M unit) : M unit :=
  match l with
  | [] => ret ()
  | x :: l' => body x ;; forM_ l' body
  end.

(** A loop that also threads a local variable of the enclosing function. *)
Fixpoint foldM {A B} (l : list A) (body : B → A → M B) (b : B) : M B :=
  match l with
  | [] => ret b
  | x :: l' => let* b' := body b x in foldM l' body b'
  end.

(** ** Plain objects

    [L.groupBy] and [L.keyBy] return plain objects.  A property that is
    looked up in a plain object, by [key in o] or by [o[key]], and that
    is not a property of the object itself is looked up in
    [Object.prototype]. *)
Module JsObject.

(** What the program reads of an inherited value: its [length], which a
    function has and [Object.prototype] has not, and the text that a
    template literal makes of it.  Its property [0] and its properties
    of the names of a configuration entry are undefined. *)
Record inheritedValue := {
  length_of : option nat;
  shown : string
}.

Definition nativeFunction (name : string) (arity : nat) : inheritedValue :=
  {| length_of := Some arity;
     shown := "function " +:+ name +:+ "() { [native code] }" |}.

(** The properties of [Object.prototype]; the value of [__proto__] in a
    plain object is [Object.prototype] itself. *)
Definition prototype : list (string * inheritedValue) :=
  [("constructor", nativeFunction "Object" 1);
   ("__defineGetter__", nativeFunction "__defineGetter__" 2);
   ("__defineSetter__", nativeFunction "__defineSetter__" 2);
   ("hasOwnProperty", nativeFunction "hasOwnProperty" 1);
   ("__lookupGetter__", nativeFunction "__lookupGetter__" 1);
   ("__lookupSetter__", nativeFunction "__lookupSetter__" 1);
   ("isPrototypeOf", nativeFunction "isPrototypeOf" 1);
   ("propertyIsEnumerable", nativeFunction "propertyIsEnumerable" 1);
   ("toString", nativeFunction "toString" 0);
   ("valueOf", nativeFunction "valueOf" 0);
   ("__proto__", {| length_of := None; shown := "[object Object]" |});
   ("toLocaleString", nativeFunction "toLocaleString" 0)].

(** The value that a plain object inherits under [key], if any. *)
Definition inherited (key : string) : option inheritedValue :=
  (list_to_map prototype : gmap string inheritedValue) !! key.

End JsObject.

(** ** Lodash helpers *)

(** [L.groupBy(l, f)]: the values of a key keep the order of [l]. *)
Definition groupBy {A} (f : A → string) (l : list A) : gmap string (list A) :=
  foldl (λ (m : gmap string (list A)) x,
           <[f x := (default [] (m !! f x) ++ [x])%list]> m) ∅ l.

(** [L.keyBy(l, f)]: a later element replaces an earlier one of the same key. *)
Definition keyBy {A} (f : A → string) (l : list A) : gmap string A :=
  foldl (λ (m : gmap string A) x, <[f x := x]> m) ∅ l.

(** [L.keyBy] on an array of objects, each object given by its position. *)
Definition keyByRef {A} (f : A → string) (l : list A) : gmap string nat :=
  foldl (λ (m : gmap string nat) ix, <[f ix.2 := ix.1]> m) ∅
        (imap (λ i x, (i, x)) l).

(** Modelled from the spec: [writeFileContent] of [file-utils.ts], which is
    not among the sources.  Section 4.1: "If [force] is false and a file
    already exists at [path], the write is skipped ... If [force] is true,
    content is unconditionally overwritten." *)
Definition writeFileContent (path content : string) (force : bool) : M unit :=
  emit (WriteFileContent path content force) ;;
  λ s, if negb force && bool_decide (is_Some (fs s !! path))
       then (Done (), s)
       else set_fs (<[path := content]> (fs s)) s.

(** A tab character, for the [\t] of the warning messages. *)
Definition tab : string := String (Ascii.ascii_of_nat 9) "".

(** [a !== b] on strings. *)
Definition strictNe (a b : string) : bool := negb (String.eqb a b).

(** The text of the warning printed at index.ts:396, 408, 420, 437 and 448. *)
Definition movedMessage (from to : string) : string :=
  tab +:+ "Detected file moved from " +:+ from +:+ " to " +:+ to.

(** ** An instance of the environment

    Node's [path] functions on POSIX paths and a reading of the glob
    pattern of [buildBaseNameToFiles], to run the program on concrete
    file trees. *)
Module Posix.

(** The pieces of a path between its slashes. *)
Fixpoint split (p : string) : list string :=
  match p with
  | EmptyString => [""]
  | String c r =>
    if Ascii.eqb c "/"%char then "" :: split r
    else match split r with
         | [] => [String c ""]
         | x :: xs => String c x :: xs
         end
  end.

Definition isAbsolute (p : string) : bool :=
  match p with String c _ => Ascii.eqb c "/"%char | EmptyString => false end.

Definition hasTrailingSlash (p : string) : bool :=
  match last (split p) with Some "" => negb (String.eqb p "") | _ => false end.

(** [normalizeString]: drops empty and [.] pieces and resolves [..]. *)
Definition normalizeStep (allowAboveRoot : bool) (stack : list string)
    (piece : string) : list string :=
  if String.eqb piece "" || String.eqb piece "." then stack
  else if String.eqb piece ".." then
    match stack with
    | top :: rest =>
      if String.eqb top ".."
      then (if allowAboveRoot then ".." :: stack else stack)
      else rest
    | [] => if allowAboveRoot then [".."] else []
    end
  else piece :: stack.

Definition normalizePieces (allowAboveRoot : bool) (pieces : list string)
    : list string :=
  rev (foldl (normalizeStep allowAboveRoot) [] pieces).

(** [path.normalize]. *)
Definition normalize (p : string) : string :=
  if String.eqb p "" then "."
  else
    let body := String.concat "/" (normalizePieces (negb (isAbsolute p)) (split p)) in
    if String.eqb body "" then
      (if isAbsolute p then "/" else if hasTrailingSlash p then "./" else ".")
    else
      (if isAbsolute p then "/" else "") +:+ body +:+
      (if hasTrailingSlash p then "/" else "").

(** [path.join] of two arguments. *)
Definition join (a b : string) : string :=
  if String.eqb a "" then normalize b
  else if String.eqb b "" then normalize a
  else normalize (a +:+ "/" +:+ b).

(** [path.basename] without the extension argument. *)
Definition basename (p : string) : string :=
  default "" (last (filter (λ x, x ≠ "") (split p))).

(** The working directory that [path.relative] resolves against. *)
Definition cwd : string := "/work".

(** [path.resolve] of one argument, as the list of its pieces. *)
Definition resolvePieces (p : string) : list string :=
  if isAbsolute p then normalizePieces false (split p)
  else normalizePieces false (split (cwd +:+ "/" +:+ p)).

Fixpoint stripCommon (a b : list string) : list string * list string :=
  match a, b with
  | x :: a', y :: b' => if String.eqb x y then stripCommon a' b' else (a, b)
  | _, _ => (a, b)
  end.

(** [path.relative]. *)
Definition relative (from to : string) : string :=
  let (up, down) := stripCommon (resolvePieces from) (resolvePieces to) in
  String.concat "/" (replicate (length up) ".." ++ down).

Fixpoint stripPrefix (p s : string) : option string :=
  match p, s with
  | EmptyString, _ => Some s
  | String c p', String d s' =>
    if Ascii.eqb c d then stripPrefix p' s' else None
  | String _ _, EmptyString => None
  end.

(** What follows the last dot of a name. *)
Fixpoint afterLastDot (name : string) : option string :=
  match name with
  | EmptyString => None
  | String c r =>
    match afterLastDot r with
    | Some ext => Some ext
    | None => if Ascii.eqb c "."%char then Some r else None
    end
  end.

(** [+(ts|css|tsx)]: one or more of the three in a row. *)
Fixpoint extensions (fuel : nat) (ext : string) : bool :=
  match fuel with
  | O => false
  | S fuel =>
    existsb (λ e, match stripPrefix e ext with
                  | Some EmptyString => true
                  | Some rest => extensions fuel rest
                  | None => false
                  end)
            ["ts"; "css"; "tsx"]
  end.

Definition startsWithDot (piece : string) : bool :=
  match piece with
  | String c _ => Ascii.eqb c "."%char
  | EmptyString => false
  end.

(** Does [f] match [`${srcDir}/**/*.+(ts|css|tsx)`] without matching the
    ignored [`${srcDir}/**/node_modules/**/*`]?  Neither [**] nor [*]
    matches a piece that starts with a dot. *)
Definition globMatches (srcDir f : string) : bool :=
  let root := split srcDir in
  let pieces := split f in
  let below := drop (length root) pieces in
  bool_decide (take (length root) pieces = root)
  && bool_decide (below ≠ [])
  && bool_decide ("" ∉ below)
  && forallb (λ piece, negb (startsWithDot piece)) below
  && match afterLastDot (default "" (last below)) with
     | Some ext => extensions (String.length ext) ext
     | None => false
     end
  && negb (bool_decide ("node_modules" ∈ removelast below)).

(** [glob.sync] on a tree of plain files: the matching files.  glob
    lists them in the order of [localeCompare]; the model lists them in
    the order of their character codes, which is another order where
    case or punctuation decides.  An index keeps the files of one bare
    name in the order of the list. *)
Definition glob_sync (srcDir : string) (tree : gmap string string) : list string :=
  merge_sort String.le (filter (λ f, globMatches srcDir f = true) (map fst (map_to_list tree))).

(** Modelled from the spec: [isLocalModulePath] of [code-utils.ts], which
    is not among the sources.  Section 4.3: a cross-reference target that
    "is itself a path into the tracked source tree (as opposed to an
    external package reference)".  Here: the last piece of the path has
    an extension. *)
Definition isLocalModulePath (modulePath : string) : bool :=
  existsb (λ c, Ascii.eqb c "."%char)
          (drop 1 (list_ascii_of_string (basename modulePath))).

(** Modelled from the spec: [replaceImports] of [code-utils.ts], which is
    not among the sources.  Section 4.4: it "replaces the reference's path
    portion with the path computed from the current, reconciled table
    entry".  Here: the rewriter on files whose references are all up to
    date, which it returns as they are. *)
Definition replaceImports (prevContent srcDirFilePath : string)
    (allCompConfigs : gmap string ComponentConfig.t)
    (allProjectConfigs : gmap string ProjectConfig.t) : string :=
  prevContent.

End Posix.

(** ** A project to run the program on

    One remote project [p1] with one component, [Button], synced into
    [/work/app/src]. *)
Module Example.

Definition srcDir : string := "/work/app/src".

Definition buttonBundle : ComponentBundle.t :=
  {| ComponentBundle.renderModule := "// render module of Button";
     ComponentBundle.skeletonModule := "// skeleton of Button";
     ComponentBundle.cssRules := ".Button { }";
     ComponentBundle.renderModuleFileName := "PlasmicButton.tsx";
     ComponentBundle.skeletonModuleFileName := "Button.tsx";
     ComponentBundle.cssFileName := "PlasmicButton.css";
     ComponentBundle.componentName := "Button";
     ComponentBundle.id := "c1" |}.

Definition projectBundle : ProjectBundle.t :=
  {| ProjectBundle.results := [buttonBundle];
     ProjectBundle.projectConfig :=
       {| ProjectMetaBundle.projectId := "p1";
          ProjectMetaBundle.contextFileName := "PlasmicContext.tsx";
          ProjectMetaBundle.contextModule := "// context of p1";
          ProjectMetaBundle.fontsFileName := "PlasmicFonts.css";
          ProjectMetaBundle.fontsModule := "/* fonts of p1 */";
          ProjectMetaBundle.contextTypeName := "PlasmicContext" |} |}.

Definition context : PlasmicContext.t :=
  {| PlasmicContext.rootDir := "/work/app";
     PlasmicContext.config_srcDir := "src";
     PlasmicContext.api_projectComponents := λ _, projectBundle |}.

(** [plasmic sync --projects p1]. *)
Definition opts : SyncArgs.t :=
  {| SyncArgs.projects := ["p1"];
     SyncArgs.components := [];
     SyncArgs.includeNew := false |}.

(** Before the first sync: no file, nothing tracked. *)
Definition fresh : State :=
  {| fs := ∅; components := []; projects := []; trace := [] |}.

(** The entry of [Button] as the first sync records it. *)
Definition button : ComponentConfig.t :=
  {| ComponentConfig.id := "c1";
     ComponentConfig.name := "Button";
     ComponentConfig.type := "managed";
     ComponentConfig.projectId := "p1";
     ComponentConfig.renderModuleFilePath := "PlasmicButton.tsx";
     ComponentConfig.importSpec := {| ComponentConfig.modulePath := "Button.tsx" |};
     ComponentConfig.cssFilePath := "PlasmicButton.css" |}.

Definition project : ProjectConfig.t :=
  {| ProjectConfig.projectId := "p1";
     ProjectConfig.contextFilePath := "PlasmicContext.tsx";
     ProjectConfig.fontsFilePath := "PlasmicFonts.css";
     ProjectConfig.contextTypeName := "PlasmicContext" |}.

(** The developer has moved the render module into [components/]. *)
Definition movedTree : gmap string string :=
  list_to_map
    [("/work/app/src/components/PlasmicButton.tsx", "// render module, edited");
     ("/work/app/src/PlasmicButton.css", ".Button { }");
     ("/work/app/src/Button.tsx", "// skeleton, edited by the developer");
     ("/work/app/src/PlasmicContext.tsx", "// context of p1");
     ("/work/app/src/PlasmicFonts.css", "/* fonts of p1 */")].

Definition moved : State :=
  {| fs := movedTree; components := [button]; projects := [project];
     trace := [] |}.

(** Two files called [Card.tsx], and an entry that declares a third
    location at which there is none. *)
Definition card : ComponentConfig.t :=
  {| ComponentConfig.id := "c2";
     ComponentConfig.name := "Card";
     ComponentConfig.type := "managed";
     ComponentConfig.projectId := "p1";
     ComponentConfig.renderModuleFilePath := "old/Card.tsx";
     ComponentConfig.importSpec := {| ComponentConfig.modulePath := "@acme/card" |};
     ComponentConfig.cssFilePath := "Card.css" |}.

Definition ambiguousTree : gmap string string :=
  list_to_map
    [("/work/app/src/a/Card.tsx", "// one");
     ("/work/app/src/b/Card.tsx", "// another");
     ("/work/app/src/Card.css", ".Card { }")].

Definition ambiguous : State :=
  {| fs := ambiguousTree; components := [card]; projects := []; trace := [] |}.

(** The developer has moved the context file of the project into [ctx/];
    the files of [Button] are where they are declared. *)
Definition contextMovedTree : gmap string string :=
  list_to_map
    [("/work/app/src/PlasmicButton.tsx", "// render module of Button");
     ("/work/app/src/PlasmicButton.css", ".Button { }");
     ("/work/app/src/Button.tsx", "// skeleton of Button");
     ("/work/app/src/ctx/PlasmicContext.tsx", "// context of p1");
     ("/work/app/src/PlasmicFonts.css", "/* fonts of p1 */")].

Definition contextMoved : State :=
  {| fs := contextMovedTree; components := [button]; projects := [project];
     trace := [] |}.

(** [plasmic sync] without [--components] and without [--include-new]. *)
Definition plainOpts : SyncArgs.t :=
  {| SyncArgs.projects := [];
     SyncArgs.components := [];
     SyncArgs.includeNew := false |}.

(** A second project, which has no component yet. *)
Definition secondBundle : ProjectBundle.t :=
  {| ProjectBundle.results := [];
     ProjectBundle.projectConfig :=
       {| ProjectMetaBundle.projectId := "p2";
          ProjectMetaBundle.contextFileName := "PlasmicContext2.tsx";
          ProjectMetaBundle.contextModule := "// context of p2";
          ProjectMetaBundle.fontsFileName := "PlasmicFonts2.css";
          ProjectMetaBundle.fontsModule := "/* fonts of p2 */";
          ProjectMetaBundle.contextTypeName := "PlasmicContext2" |} |}.

Definition secondProject : ProjectConfig.t :=
  {| ProjectConfig.projectId := "p2";
     ProjectConfig.contextFilePath := "PlasmicContext2.tsx";
     ProjectConfig.fontsFilePath := "PlasmicFonts2.css";
     ProjectConfig.contextTypeName := "PlasmicContext2" |}.

(** A server that knows both projects. *)
Definition twoProjects : PlasmicContext.t :=
  {| PlasmicContext.rootDir := "/work/app";
     PlasmicContext.config_srcDir := "src";
     PlasmicContext.api_projectComponents :=
       λ projectId,
         if String.eqb projectId "p2" then secondBundle else projectBundle |}.

(** [plasmic sync --projects p2]. *)
Definition secondOpts : SyncArgs.t :=
  {| SyncArgs.projects := ["p2"];
     SyncArgs.components := [];
     SyncArgs.includeNew := false |}.

(** What the server sends for [Card]. *)
Definition cardBundle : ComponentBundle.t :=
  {| ComponentBundle.renderModule := "// render module of Card";
     ComponentBundle.skeletonModule := "// skeleton of Card";
     ComponentBundle.cssRules := ".Card { }";
     ComponentBundle.renderModuleFileName := "PlasmicCard.tsx";
     ComponentBundle.skeletonModuleFileName := "Card.tsx";
     ComponentBundle.cssFileName := "PlasmicCard.css";
     ComponentBundle.componentName := "Card";
     ComponentBundle.id := "c2" |}.

End Example.

(** ** Vocabulary of the statements *)

(** The state after one more call on the outside world. *)
Definition log (e : event) (s : State) : State :=
  {| fs := fs s; components := components s; projects := projects s;
     trace := trace s ++ [e] |}.

(** [needle] occurs in [text]. *)
Definition occurs_in (needle text : string) : Prop :=
  ∃ before after, text = before +:+ needle +:+ after.

(** The warning that the callers of [findSrcDirPath] print when the path
    they get back differs from the one they passed. *)
Definition moveWarning (declared resolved : string) : list event :=
  if strictNe resolved declared
  then [ConsoleWarn (movedMessage declared resolved)]
  else [].

Definition isConsoleError (e : event) : Prop :=
  match e with ConsoleError _ => True | _ => False end.

(** The events that a run adds to the trace. *)
Definition emitted {A} (m : M A) (s : State) (evs : list event) : Prop :=
  trace (m s).2 = trace s ++ evs.

Definition errorFree (evs : list event) : Prop :=
  Forall (λ e, ¬ isConsoleError e) evs.

(** A computation halts on error when [console.error] is only ever
    followed by [process.exit(1)], and [process.exit] only ever follows
    [console.error]. *)
Definition haltsOnError {A} (m : M A) : Prop :=
  ∀ s, ∃ evs,
    emitted m s evs ∧
    match (m s).1 with
    | Exit code =>
      code = 1%Z ∧ ∃ before msg, evs = before ++ [ConsoleError msg] ∧ errorFree before
    | _ => errorFree evs
    end.

(** A computation that adds only events of one kind to the trace. *)
Definition emitsOnly {A} (E : event → Prop) (m : M A) : Prop :=
  ∀ s, ∃ evs, emitted m s evs ∧ Forall E evs.

(** A computation that leaves a part of the state as it is. *)
Definition preserves {A B} (f : State → B) (m : M A) : Prop :=
  ∀ s, f (m s).2 = f s.

(** The file tree after a create-only write. *)
Definition createOnly (path content : string) (tree : gmap string string)
    : gmap string string :=
  if bool_decide (is_Some (tree !! path)) then tree else <[path := content]> tree.

(** The entry that the first sync of a bundle appends to
    [config.components] (index.ts:294-302). *)
Definition newComponentConfig (projectId : string) (bundle : ComponentBundle.t)
    : ComponentConfig.t :=
  {| ComponentConfig.id := ComponentBundle.id bundle;
     ComponentConfig.name := ComponentBundle.componentName bundle;
     ComponentConfig.type := "managed";
     ComponentConfig.projectId := projectId;
     ComponentConfig.renderModuleFilePath :=
       ComponentBundle.renderModuleFileName bundle;
     ComponentConfig.importSpec :=
       {| ComponentConfig.modulePath :=
            ComponentBundle.skeletonModuleFileName bundle |};
     ComponentConfig.cssFilePath := ComponentBundle.cssFileName bundle |}.

(** The events of the sync step of a bundle whose component is tracked:
    every write is a force write of the bundle's render module or of its
    css rules. *)
Definition existingSyncEvent (bundle : ComponentBundle.t) (e : event) : Prop :=
  match e with
  | WriteFileContent _ content force =>
    force = true
    ∧ (content = ComponentBundle.renderModule bundle
       ∨ content = ComponentBundle.cssRules bundle)
  | ReadFileSync _ | UpdateConfig _ _ => False
  | _ => True
  end.


(** The file that an event reads for import rewriting, and the file that
    an event writes. *)
Definition readPath (e : event) : option string :=
  match e with ReadFileSync p => Some p | _ => None end.

Definition writePath (e : event) : option string :=
  match e with WriteFileContent p _ _ => Some p | _ => None end.

(** A computation that rewrites the files [paths]: it neither creates nor
    removes a file; it returns, or it raises [ENOENT]; it returns exactly
    when every file of [paths] exists; and when it returns it has read
    and has written the files of [paths], each in this order. *)
Definition rewritesFiles (paths : list string) (m : M unit) : Prop :=
  ∀ s,
    dom (fs (m s).2) = dom (fs s)
    ∧ ((m s).1 = Done () ∨ (m s).1 = Throw "ENOENT")
    ∧ ((m s).1 = Done () ↔ ∀ p, p ∈ paths → p ∈ dom (fs s))
    ∧ ∃ evs, emitted m s evs
             ∧ ((m s).1 = Done () →
                omap readPath evs = paths ∧ omap writePath evs = paths).


(** What identifies a tracked component and a tracked project: the fields
    that no path reconciliation assigns. *)
Definition componentIdentity (c : ComponentConfig.t)
    : string * string * string * string :=
  (ComponentConfig.id c, ComponentConfig.name c, ComponentConfig.type c,
   ComponentConfig.projectId c).

Definition projectIdentity (p : ProjectConfig.t) : string * string :=
  (ProjectConfig.projectId p, ProjectConfig.contextTypeName p).

(** A computation that keeps every tracked entry in its place and under
    its identity; it may append entries. *)
Definition keepsEntries {A} (m : M A) : Prop :=
  ∀ s,
    map componentIdentity (components s)
      `prefix_of` map componentIdentity (components (m s).2)
    ∧ map projectIdentity (projects s)
        `prefix_of` map projectIdentity (projects (m s).2).

(** The ids of the tracked components and of the tracked projects. *)
Definition trackedComponentIds (s : State) : list string :=
  map ComponentConfig.id (components s).

Definition trackedProjectIds (s : State) : list string :=
  map ProjectConfig.projectId (projects s).

(** The component ids of a state are pairwise different, and the table
    [allCompConfigs] knows each of them. *)
Definition tracksComponents (allCompConfigs : gmap string nat) (s : State)
    : Prop :=
  NoDup (trackedComponentIds s)
  ∧ ∀ k, k ∈ trackedComponentIds s → is_Some (allCompConfigs !! k).

(** The result of a step that threads [allCompConfigs]: the component
    ids are pairwise different whatever the outcome, and the table that a
    returning step hands on knows each of them. *)
Definition tracksResult (r : outcome (gmap string nat) * State) : Prop :=
  NoDup (trackedComponentIds r.2)
  ∧ ∀ acc, r.1 = Done acc → tracksComponents acc r.2.

Definition keepsComponentIds (body : gmap string nat → M (gmap string nat))
    : Prop :=
  ∀ acc s, tracksComponents acc s → tracksResult (body acc s).

(** A computation under which a property of the state is stable. *)
Definition stable {A} (J : State → Prop) (m : M A) : Prop :=
  ∀ s, J s → J (m s).2.

(** ** The program *)

Section Engine.

Set Default Proof Using "Type".

(** Node's [path] module. *)
Variable path_join : string → string → string.
Variable path_basename : string → string.
Variable path_relative : string → string → string.

(** [glob.sync] with the pattern and the [ignore] option of
    [buildBaseNameToFiles], as a function of the source directory and
    the file tree. *)
Variable glob_sync : string → gmap string string → list string.

(** [isLocalModulePath] and [replaceImports] of [code-utils.ts], which is
    not among the sources: the program is verified for every choice of
    the two. *)
Variable isLocalModulePath : string → bool.
Variable replaceImports :
  string → string → gmap string ComponentConfig.t →
  gmap string ProjectConfig.t → string.

(** Modelled from the spec: [updateConfig] of [config-utils.ts], which is
    not among the sources.  Section 4.5: "the updated
    TrackedComponent/TrackedProject collections are written back to the
    authoritative configuration store (external collaborator)".  The
    model records the call and the collections it is given. *)
Definition updateConfig (cs : list ComponentConfig.t)
    (ps : option (list ProjectConfig.t)) : M unit :=
  emit (UpdateConfig cs ps).

Definition contextSrcDir (context : PlasmicContext.t) : string :=
  path_join (PlasmicContext.rootDir context)
            (PlasmicContext.config_srcDir context).

(** index.ts:552-558. *)
Definition buildBaseNameToFiles (context : PlasmicContext.t)
    : M (gmap string (list string)) := λ s,
  let srcDir := contextSrcDir context in
  let allFiles := glob_sync srcDir (fs s) in
  (Done (groupBy path_basename allFiles), s).

(** The message of index.ts:476-480; [shown] is the text that the
    template literal makes of [baseNameToFiles[fileName]]. *)
Definition ambiguityText (expectedPath shown fileName : string) : string :=
  "Cannot find expected file at " +:+ expectedPath +:+
  ", and found multiple possible matching files " +:+
  shown +:+
  ".  Please update plasmic.config with the real location for " +:+
  fileName +:+ ".".

(** The message for an array of files, which is shown as its elements
    with commas between them. *)
Definition ambiguityMessage (expectedPath : string) (files : list string)
    (fileName : string) : string :=
  ambiguityText expectedPath (String.concat "," files) fileName.

(** index.ts:462-482.  [baseNameToFiles] holds the properties that
    [L.groupBy] gave the object.  [fileName in baseNameToFiles] and
    [baseNameToFiles[fileName]] find such a property or else the one that
    the object inherits under that name.  Of an inherited value the
    [length] is 1 or not; when it is, its element [0] is undefined, and
    [path.relative] throws on it. *)
Definition findSrcDirPath (srcDir expectedPath : string)
    (baseNameToFiles : gmap string (list string)) : M string :=
  let fileName := path_basename expectedPath in
  let* found := fs_existsSync (path_join srcDir expectedPath) in
  if found then ret expectedPath
  else match baseNameToFiles !! fileName with
       | Some files =>
         if Nat.eqb (length files) 1 then
           match files !! 0 with
           | Some newPath => ret (path_relative srcDir newPath)
           | None => throw "TypeError"
           end
         else
           console_error (ambiguityMessage expectedPath files fileName) ;;
           process_exit 1
       | None =>
         match JsObject.inherited fileName with
         | None => ret expectedPath
         | Some value =>
           if bool_decide (JsObject.length_of value = Some 1%nat)
           then throw "TypeError"
           else
             console_error
               (ambiguityText expectedPath (JsObject.shown value) fileName) ;;
             process_exit 1
         end
       end.

(** index.ts:385-424.  [compConfig] is a reference into
    [config.components]. *)
Definition fixComponentPaths (srcDir : string) (compConfig : nat)
    (baseNameToFiles : gmap string (list string)) : M unit :=
  let* c := read_component compConfig in
  let* newRenderModuleFilePath :=
    findSrcDirPath srcDir (ComponentConfig.renderModuleFilePath c)
                   baseNameToFiles in
  (if strictNe newRenderModuleFilePath (ComponentConfig.renderModuleFilePath c)
   then
     console_warn (movedMessage (ComponentConfig.renderModuleFilePath c)
                                newRenderModuleFilePath) ;;
     update_component compConfig
       (ComponentConfig.set_renderModuleFilePath newRenderModuleFilePath)
   else ret ()) ;;
  let* c := read_component compConfig in
  let* newCssFilePath :=
    findSrcDirPath srcDir (ComponentConfig.cssFilePath c) baseNameToFiles in
  (if strictNe newCssFilePath (ComponentConfig.cssFilePath c)
   then
     console_warn (movedMessage (ComponentConfig.cssFilePath c) newCssFilePath) ;;
     update_component compConfig (ComponentConfig.set_cssFilePath newCssFilePath)
   else ret ()) ;;
  let* c := read_component compConfig in
  if isLocalModulePath (ComponentConfig.modulePath (ComponentConfig.importSpec c))
  then
    let modulePath := ComponentConfig.modulePath (ComponentConfig.importSpec c) in
    let* fuzzyPath := findSrcDirPath srcDir modulePath baseNameToFiles in
    if strictNe fuzzyPath modulePath
    then
      console_warn (movedMessage modulePath fuzzyPath) ;;
      update_component compConfig (ComponentConfig.set_modulePath fuzzyPath)
    else ret ()
  else ret ().

(** index.ts:426-453.  [projectConfig] is a reference into
    [config.projects]. *)
Definition fixProjectFilePaths (srcDir : string) (projectConfig : nat)
    (baseNameToFiles : gmap string (list string)) : M unit :=
  let* p := read_project projectConfig in
  let* newContextFilePath :=
    findSrcDirPath srcDir (ProjectConfig.contextFilePath p) baseNameToFiles in
  (if strictNe newContextFilePath (ProjectConfig.contextFilePath p)
   then
     console_warn (movedMessage (ProjectConfig.contextFilePath p)
                                newContextFilePath) ;;
     update_project projectConfig
       (ProjectConfig.set_contextFilePath newContextFilePath)
   else ret ()) ;;
  let* p := read_project projectConfig in
  let* newFontsFilePath :=
    findSrcDirPath srcDir (ProjectConfig.fontsFilePath p) baseNameToFiles in
  if strictNe newFontsFilePath (ProjectConfig.fontsFilePath p)
  then
    console_warn (movedMessage (ProjectConfig.fontsFilePath p) newFontsFilePath) ;;
    update_project projectConfig (ProjectConfig.set_fontsFilePath newFontsFilePath)
  else ret ().

(** index.ts:522-540. *)
Definition fixFileImportStatements (srcDir srcDirFilePath : string)
    (allCompConfigs : gmap string ComponentConfig.t)
    (allProjectConfigs : gmap string ProjectConfig.t) : M unit :=
  let* prevContent := fs_readFileSync (path_join srcDir srcDirFilePath) in
  let newContent :=
    replaceImports prevContent srcDirFilePath allCompConfigs allProjectConfigs in
  writeFileContent (path_join srcDir srcDirFilePath) newContent true.

(** index.ts:498-520. *)
Definition fixComponentImportStatements (srcDir : string)
    (compConfig : ComponentConfig.t)
    (allCompConfigs : gmap string ComponentConfig.t)
    (allProjectConfigs : gmap string ProjectConfig.t) : M unit :=
  fixFileImportStatements srcDir (ComponentConfig.renderModuleFilePath compConfig)
                          allCompConfigs allProjectConfigs ;;
  fixFileImportStatements srcDir (ComponentConfig.cssFilePath compConfig)
                          allCompConfigs allProjectConfigs ;;
  if isLocalModulePath
       (ComponentConfig.modulePath (ComponentConfig.importSpec compConfig))
  then
    fixFileImportStatements srcDir
      (ComponentConfig.modulePath (ComponentConfig.importSpec compConfig))
      allCompConfigs allProjectConfigs
  else ret ().

(** index.ts:488-496. *)
Definition fixAllImportStatements (context : PlasmicContext.t) : M unit :=
  let srcDir := contextSrcDir context in
  let* cs := get_components in
  let* ps := get_projects in
  let allCompConfigs := keyBy ComponentConfig.id cs in
  let allProjectConfigs := keyBy ProjectConfig.projectId ps in
  forM_ cs (λ compConfig,
    fixComponentImportStatements srcDir compConfig
                                 allCompConfigs allProjectConfigs).

(** index.ts:368-379. *)
Definition fixImports (context : PlasmicContext.t) : M unit :=
  let srcDir := contextSrcDir context in
  let* baseNameToFiles := buildBaseNameToFiles context in
  let* cs := get_components in
  forM_ (seq 0 (length cs)) (λ compConfig,
    fixComponentPaths srcDir compConfig baseNameToFiles) ;;
  let* cs := get_components in
  updateConfig cs None ;;
  fixAllImportStatements context.

(** The list [components] of index.ts:252-255. *)
Definition syncComponentsList (opts : SyncArgs.t)
    (cs : list ComponentConfig.t) : list string :=
  if Nat.ltb 0 (length (SyncArgs.components opts))
  then SyncArgs.components opts
  else map ComponentConfig.id cs.

(** index.ts:256-264; [components] is the list above. *)
Definition shouldSyncComponents (opts : SyncArgs.t) (components : list string)
    (id name : string) : bool :=
  if Nat.eqb (length components) 0
     || (Nat.eqb (length (SyncArgs.components opts)) 0 && SyncArgs.includeNew opts)
  then true
  else bool_decide (id ∈ components) || bool_decide (name ∈ components).

Definition syncingMessage (componentName projectId id : string) : string :=
  "Syncing component " +:+ componentName +:+ " [" +:+ projectId +:+ "/" +:+
  id +:+ "]".

(** The body of the inner loop, index.ts:276-332.  [allCompConfigs] maps a
    component id to a reference into [config.components]: it holds the
    properties that [L.keyBy] and the loop gave the object, and
    [allCompConfigs[id]] finds such a property or else the value that the
    object inherits under that name, which is not falsy. *)
Definition syncComponentBundle (opts : SyncArgs.t) (components : list string)
    (srcDir : string) (baseNameToFiles : gmap string (list string))
    (projectId : string) (allCompConfigs : gmap string nat)
    (bundle : ComponentBundle.t) : M (gmap string nat) :=
  let renderModule := ComponentBundle.renderModule bundle in
  let skeletonModule := ComponentBundle.skeletonModule bundle in
  let cssRules := ComponentBundle.cssRules bundle in
  let renderModuleFileName := ComponentBundle.renderModuleFileName bundle in
  let skeletonModuleFileName := ComponentBundle.skeletonModuleFileName bundle in
  let cssFileName := ComponentBundle.cssFileName bundle in
  let componentName := ComponentBundle.componentName bundle in
  let id := ComponentBundle.id bundle in
  if negb (shouldSyncComponents opts components id componentName)
  then ret allCompConfigs
  else
    console_log (syncingMessage componentName projectId id) ;;
    match allCompConfigs !! id with
    | None =>
      match JsObject.inherited id with
      | Some _ =>
        (* [compConfig] is a value that the object inherits: its
           [renderModuleFilePath] is undefined, and [fixComponentPaths]
           throws in [path.basename], with which [findSrcDirPath] starts *)
        throw "TypeError"
      | None =>
        (* This is the first time we're syncing this component *)
        let newConfig :=
          {| ComponentConfig.id := id;
             ComponentConfig.name := componentName;
             ComponentConfig.type := "managed";
             ComponentConfig.projectId := projectId;
             ComponentConfig.renderModuleFilePath := renderModuleFileName;
             ComponentConfig.importSpec :=
               {| ComponentConfig.modulePath := skeletonModuleFileName |};
             ComponentConfig.cssFilePath := cssFileName |} in
        writeFileContent (path_join srcDir renderModuleFileName) renderModule false ;;
        writeFileContent (path_join srcDir cssFileName) cssRules false ;;
        writeFileContent (path_join srcDir skeletonModuleFileName)
                         skeletonModule false ;;
        let* cs := get_components in
        set_components (cs ++ [newConfig]) ;;
        ret (<[id := length cs]> allCompConfigs)
      end
    | Some compConfig =>
      fixComponentPaths srcDir compConfig baseNameToFiles ;;
      let* c := read_component compConfig in
      writeFileContent (path_join srcDir (ComponentConfig.renderModuleFilePath c))
                       renderModule true ;;
      let* c := read_component compConfig in
      writeFileContent (path_join srcDir (ComponentConfig.cssFilePath c))
                       cssRules true ;;
      ret allCompConfigs
    end.

(** The project files of one bundle, index.ts:333-357. *)
Definition syncProjectFiles (srcDir : string)
    (baseNameToFiles : gmap string (list string))
    (pc : ProjectMetaBundle.t) : M unit :=
  let* ps := get_projects in
  match list_find (λ c, ProjectConfig.projectId c = ProjectMetaBundle.projectId pc) ps with
  | None =>
    writeFileContent (path_join srcDir (ProjectMetaBundle.contextFileName pc))
                     (ProjectMetaBundle.contextModule pc) false ;;
    writeFileContent (path_join srcDir (ProjectMetaBundle.fontsFileName pc))
                     (ProjectMetaBundle.fontsModule pc) false ;;
    let c :=
      {| ProjectConfig.projectId := ProjectMetaBundle.projectId pc;
         ProjectConfig.contextFilePath := ProjectMetaBundle.contextFileName pc;
         ProjectConfig.fontsFilePath := ProjectMetaBundle.fontsFileName pc;
         ProjectConfig.contextTypeName := ProjectMetaBundle.contextTypeName pc |} in
    let* ps := get_projects in
    set_projects (ps ++ [c])
  | Some (project, _) =>
    fixProjectFilePaths srcDir project baseNameToFiles ;;
    let* p := read_project project in
    writeFileContent (path_join srcDir (ProjectConfig.contextFilePath p))
                     (ProjectMetaBundle.contextModule pc) true ;;
    let* p := read_project project in
    writeFileContent (path_join srcDir (ProjectConfig.fontsFilePath p))
                     (ProjectMetaBundle.fontsModule pc) true
  end.

(** The body of the outer loop, index.ts:272-358. *)
Definition syncProjectBundle (opts : SyncArgs.t) (components : list string)
    (srcDir : string) (baseNameToFiles : gmap string (list string))
    (allCompConfigs : gmap string nat)
    (entry : string * ProjectBundle.t) : M (gmap string nat) :=
  let projectId := entry.1 in
  let projectBundle := entry.2 in
  let* allCompConfigs :=
    foldM (ProjectBundle.results projectBundle)
          (syncComponentBundle opts components srcDir baseNameToFiles projectId)
          allCompConfigs in
  syncProjectFiles srcDir baseNameToFiles
                   (ProjectBundle.projectConfig projectBundle) ;;
  ret allCompConfigs.

(** [projectIds] of index.ts:240-243. *)
Definition syncProjectIds (opts : SyncArgs.t)
    (cs : list ComponentConfig.t) : list string :=
  if Nat.ltb 0 (length (SyncArgs.projects opts))
  then SyncArgs.projects opts
  else map ComponentConfig.projectId cs.

(** index.ts:235-358: everything in [syncProjects] up to the end of the
    outer loop. *)
Definition syncAllBundles (opts : SyncArgs.t) (context : PlasmicContext.t)
    : M unit :=
  let srcDir := contextSrcDir context in
  let* cs := get_components in
  let projectIds := syncProjectIds opts cs in
  (if Nat.eqb (length projectIds) 0
   then
     console_error
       "Don't know which projects to sync; please specify via --projects" ;;
     process_exit 1
   else ret ()) ;;
  let components := syncComponentsList opts cs in
  let allCompConfigs := keyByRef ComponentConfig.id cs in
  let* baseNameToFiles := buildBaseNameToFiles context in
  let results := map (PlasmicContext.api_projectComponents context) projectIds in
  foldM (zip projectIds results)
        (syncProjectBundle opts components srcDir baseNameToFiles)
        allCompConfigs ;;
  ret ().

(** index.ts:235-365. *)
Definition syncProjects (opts : SyncArgs.t) (context : PlasmicContext.t)
    : M unit :=
  syncAllBundles opts context ;;
  (* Write the new ComponentConfigs to disk *)
  let* cs := get_components in
  let* ps := get_projects in
  updateConfig cs (Some ps) ;;
  (* Now we know config.components are all correct, so we can go ahead
     and fix up all the import statements *)
  fixAllImportStatements context.

(** ** Vocabulary that refers to the program *)

(** What each of the five call sites of [findSrcDirPath] does with one
    declared path: it asks for the resolved path and, when that differs,
    prints the move warning and stores the resolved path in the entry
    (index.ts:390-400, 402-412, 417-422, 431-441 and 442-452). *)
Definition reconcilePath (srcDir : string)
    (baseNameToFiles : gmap string (list string)) (declared : string)
    (store : string → M unit) : M unit :=
  let* resolved := findSrcDirPath srcDir declared baseNameToFiles in
  if strictNe resolved declared
  then console_warn (movedMessage declared resolved) ;; store resolved
  else ret ().

(** The three paths of a component entry. *)
Definition componentPaths (c : ComponentConfig.t) : list string :=
  [ComponentConfig.renderModuleFilePath c; ComponentConfig.cssFilePath c;
   ComponentConfig.modulePath (ComponentConfig.importSpec c)].

(** The events of reconciling declared paths [declared] against the tree
    [tree]: a probe of one of the paths, a move warning for one of the
    paths at which the tree has no file, or the fatal error. *)
Definition reconcilerEvent (srcDir : string) (tree : gmap string string)
    (declared : list string) (e : event) : Prop :=
  match e with
  | ExistsSync q => ∃ d, d ∈ declared ∧ q = path_join srcDir d
  | ConsoleWarn msg =>
    ∃ d r, d ∈ declared ∧ msg = movedMessage d r ∧ r ≠ d
           ∧ tree !! path_join srcDir d = None
  | ConsoleError _ => True
  | _ => False
  end.

(** A path field of an entry after reconciliation: as declared, or the
    different path that [findSrcDirPath] returned for the declared one. *)
Definition reconciledField (srcDir : string)
    (baseNameToFiles : gmap string (list string)) (s : State)
    (declared now : string) : Prop :=
  now = declared
  ∨ (now ≠ declared
     ∧ (findSrcDirPath srcDir declared baseNameToFiles s).1 = Done now).

(** The fields of a component entry that reconciliation never assigns. *)
Definition sameIdentity (c c' : ComponentConfig.t) : Prop :=
  ComponentConfig.id c' = ComponentConfig.id c
  ∧ ComponentConfig.name c' = ComponentConfig.name c
  ∧ ComponentConfig.type c' = ComponentConfig.type c
  ∧ ComponentConfig.projectId c' = ComponentConfig.projectId c.

(** The state [s], with entry [c] at position [i], is a state that
    reconciling the entry [c0] at position [i] of [s0] can reach. *)
Definition reconciling (srcDir : string)
    (baseNameToFiles : gmap string (list string)) (i : nat)
    (s0 : State) (c0 : ComponentConfig.t)
    (s : State) (c : ComponentConfig.t) : Prop :=
  fs s = fs s0
  ∧ projects s = projects s0
  ∧ components s = <[i := c]> (components s0)
  ∧ (∃ evs, trace s = trace s0 ++ evs
            ∧ Forall (reconcilerEvent srcDir (fs s0) (componentPaths c0)) evs)
  ∧ sameIdentity c0 c
  ∧ reconciledField srcDir baseNameToFiles s0
      (ComponentConfig.renderModuleFilePath c0)
      (ComponentConfig.renderModuleFilePath c)
  ∧ reconciledField srcDir baseNameToFiles s0
      (ComponentConfig.cssFilePath c0) (ComponentConfig.cssFilePath c)
  ∧ reconciledField srcDir baseNameToFiles s0
      (ComponentConfig.modulePath (ComponentConfig.importSpec c0))
      (ComponentConfig.modulePath (ComponentConfig.importSpec c)).

(** The events of [fixComponentPaths] when its calls of [findSrcDirPath]
    return [r], [k] and [m]. *)
Definition fixComponentPathsEvents (srcDir : string) (c : ComponentConfig.t)
    (r k m : string) : list event :=
  ExistsSync (path_join srcDir (ComponentConfig.renderModuleFilePath c))
  :: moveWarning (ComponentConfig.renderModuleFilePath c) r
  ++ ExistsSync (path_join srcDir (ComponentConfig.cssFilePath c))
  :: moveWarning (ComponentConfig.cssFilePath c) k
  ++ (if isLocalModulePath (ComponentConfig.modulePath (ComponentConfig.importSpec c))
      then ExistsSync (path_join srcDir
                         (ComponentConfig.modulePath (ComponentConfig.importSpec c)))
           :: moveWarning
                (ComponentConfig.modulePath (ComponentConfig.importSpec c)) m
      else []).

(** The events of the merge phase of a sync pass, everything before
    [updateConfig]: no file is read for import rewriting and the
    configuration is not persisted. *)
Definition mergeEvent (e : event) : Prop :=
  match e with
  | ReadFileSync _ | UpdateConfig _ _ => False
  | _ => True
  end.

(** The events of the import rewriter for the path tables [allCompConfigs]
    and [allProjectConfigs]: it reads a file below [srcDir], and it
    force-writes a file below [srcDir] with what [replaceImports] makes of
    some content under these tables. *)
Definition rewriterEvent (srcDir : string)
    (allCompConfigs : gmap string ComponentConfig.t)
    (allProjectConfigs : gmap string ProjectConfig.t) (e : event) : Prop :=
  match e with
  | ReadFileSync p => ∃ srcDirFilePath, p = path_join srcDir srcDirFilePath
  | WriteFileContent p content force =>
    force = true
    ∧ ∃ prevContent srcDirFilePath,
        p = path_join srcDir srcDirFilePath
        ∧ content = replaceImports prevContent srcDirFilePath
                                   allCompConfigs allProjectConfigs
  | _ => False
  end.

(** The events of the stand-alone fix-imports command on a configuration
    with the component entries [cs] and a file tree [tree]: the probes,
    warnings and errors of reconciling the paths of one of these entries;
    persisting the components without the projects; and the reads and
    writes of the import rewriter. *)
Definition fixImportsEvent (srcDir : string) (tree : gmap string string)
    (cs : list ComponentConfig.t) (e : event) : Prop :=
  match e with
  | ExistsSync _ | ConsoleWarn _ | ConsoleError _ =>
    ∃ c, c ∈ cs ∧ reconcilerEvent srcDir tree (componentPaths c) e
  | UpdateConfig _ ps => ps = None
  | ReadFileSync _ | WriteFileContent _ _ _ => True
  | ConsoleLog _ => False
  end.

(** Forgets the parts of the environment that a goal does not mention, so
    that solvers which generalise over the whole context leave them out. *)
Ltac forget_environment :=
  try clear replaceImports; try clear glob_sync; try clear isLocalModulePath;
  try clear path_relative; try clear path_basename; try clear path_join.

(** The entry that the first sync of a project appends to
    [config.projects] (index.ts:346-351). *)
Definition newProjectConfig (pc : ProjectMetaBundle.t) : ProjectConfig.t :=
  {| ProjectConfig.projectId := ProjectMetaBundle.projectId pc;
     ProjectConfig.contextFilePath := ProjectMetaBundle.contextFileName pc;
     ProjectConfig.fontsFilePath := ProjectMetaBundle.fontsFileName pc;
     ProjectConfig.contextTypeName := ProjectMetaBundle.contextTypeName pc |}.


(** The paths of an entry whose files the import rewriter rewrites
    (index.ts:504-519). *)
Definition rewrittenPaths (c : ComponentConfig.t) : list string :=
  ComponentConfig.renderModuleFilePath c
  :: ComponentConfig.cssFilePath c
  :: (if isLocalModulePath
           (ComponentConfig.modulePath (ComponentConfig.importSpec c))
      then [ComponentConfig.modulePath (ComponentConfig.importSpec c)]
      else []).


(** An event that addresses a file does so as [path.join(srcDir, p)]. *)
Definition joinsSrcDir (srcDir : string) (e : event) : Prop :=
  match e with
  | ExistsSync q | ReadFileSync q | WriteFileContent q _ _ =>
    ∃ p, q = path_join srcDir p
  | _ => True
  end.


(** ** Facts about the monad *)

Lemma emit_log e s : emit e s = (Done (), log e s).
Proof. reflexivity. Qed.

Lemma bind_Done {A B} (m : M A) (k : A → M B) s a s' :
  m s = (Done a, s') → bind m k s = k a s'.
Proof. unfold bind. by intros ->. Qed.

Lemma bind_Exit {A B} (m : M A) (k : A → M B) s c s' :
  m s = (Exit c, s') → bind m k s = (Exit c, s').
Proof. unfold bind. by intros ->. Qed.

Lemma bind_Throw {A B} (m : M A) (k : A → M B) s e s' :
  m s = (Throw e, s') → bind m k s = (Throw e, s').
Proof. unfold bind. by intros ->. Qed.

Lemma bind_ext {A B} (m : M A) (k1 k2 : A → M B) s :
  (∀ a s', k1 a s' = k2 a s') → bind m k1 s = bind m k2 s.
Proof. intros H. unfold bind. destruct (m s) as [[a|c|e] s']; auto. Qed.

Lemma bind_assoc {A B C} (m : M A) (k : A → M B) (h : B → M C) s :
  bind (bind m k) h s = bind m (λ a, bind (k a) h) s.
Proof. unfold bind. destruct (m s) as [[a|c|e] s']; reflexivity. Qed.

Lemma emitted_bind_Done {A B} (m : M A) (k : A → M B) s a s1 evs1 evs2 :
  m s = (Done a, s1) → emitted m s evs1 → emitted (k a) s1 evs2 →
  emitted (bind m k) s (evs1 ++ evs2).
Proof.
  unfold emitted, bind. intros Hm. rewrite Hm. simpl.
  intros -> ->. by rewrite app_assoc.
Qed.

Lemma emitted_bind_stop {A B} (m : M A) (k : A → M B) s evs :
  (∀ a, (m s).1 ≠ Done a) → emitted m s evs → emitted (bind m k) s evs.
Proof.
  unfold emitted, bind. destruct (m s) as [[a|c|e] s1]; simpl; [|done..].
  intros H. by destruct (H a).
Qed.

Lemma emitted_inj {A} (m : M A) s evs1 evs2 :
  emitted m s evs1 → emitted m s evs2 → evs1 = evs2.
Proof. unfold emitted. intros -> H. by apply app_inv_head in H. Qed.

(** *** Halting on error *)

Lemma haltsOnError_ret {A} (a : A) : haltsOnError (ret a).
Proof.
  intros s. exists []. split; [unfold emitted; simpl; by rewrite app_nil_r|].
  constructor.
Qed.

Lemma haltsOnError_bind {A B} (m : M A) (k : A → M B) :
  haltsOnError m → (∀ a, haltsOnError (k a)) → haltsOnError (bind m k).
Proof.
  intros Hm Hk s. destruct (Hm s) as (evs1 & Hev1 & Hout1).
  destruct (m s) as [[a|c|e] s1] eqn:Hms.
  - destruct (Hk a s1) as (evs2 & Hev2 & Hout2).
    exists (evs1 ++ evs2). split.
    { eapply emitted_bind_Done; eauto. }
    rewrite (bind_Done _ _ _ _ _ Hms). simpl in Hout1.
    destruct (k a s1) as [[b|c|e] s2]; simpl in *.
    + by apply Forall_app.
    + destruct Hout2 as (-> & before & msg & -> & Hfree).
      split; [done|]. exists (evs1 ++ before), msg.
      split; [by rewrite app_assoc|by apply Forall_app].
    + by apply Forall_app.
  - exists evs1. split.
    { apply emitted_bind_stop; [|done]. rewrite Hms. done. }
    by rewrite (bind_Exit _ _ _ _ _ Hms).
  - exists evs1. split.
    { apply emitted_bind_stop; [|done]. rewrite Hms. done. }
    by rewrite (bind_Throw _ _ _ _ _ Hms).
Qed.

Lemma haltsOnError_emit e : ¬ isConsoleError e → haltsOnError (emit e).
Proof.
  intros He s. exists [e]. split; [done|]. simpl. by constructor.
Qed.

(** [console.error(msg); process.exit(1)]. *)
Lemma haltsOnError_fatal {A} msg :
  haltsOnError (console_error msg ;; @process_exit A 1).
Proof.
  intros s. exists [ConsoleError msg]. split; [done|]. simpl.
  split; [done|]. exists [], msg. split; [done|constructor].
Qed.

Lemma haltsOnError_silent {A} (m : M A) :
  (∀ s, trace (m s).2 = trace s) → (∀ s c, (m s).1 ≠ Exit c) → haltsOnError m.
Proof.
  intros Htr Hex s. exists []. split.
  { unfold emitted. by rewrite Htr, app_nil_r. }
  specialize (Hex s). destruct ((m s).1); [constructor| |constructor].
  by destruct (Hex code).
Qed.

Lemma haltsOnError_forM_ {A} (l : list A) (body : A → M unit) :
  (∀ x, haltsOnError (body x)) → haltsOnError (forM_ l body).
Proof.
  intros Hbody. induction l as [|x l IH]; simpl.
  - apply haltsOnError_ret.
  - apply haltsOnError_bind; auto.
Qed.

Lemma haltsOnError_foldM {A B} (l : list A) (body : B → A → M B) b :
  (∀ b x, haltsOnError (body b x)) → haltsOnError (foldM l body b).
Proof.
  intros Hbody. revert b. induction l as [|x l IH]; intros b; simpl.
  - apply haltsOnError_ret.
  - apply haltsOnError_bind; auto.
Qed.

(** Whatever is printed with [console.error] is the last thing the run
    does, and the run ends in [process.exit(1)]. *)
Lemma haltsOnError_final {A} (m : M A) s before msg after :
  haltsOnError m →
  emitted m s (before ++ ConsoleError msg :: after) →
  (m s).1 = Exit 1 ∧ after = [].
Proof.
  forget_environment.
  intros Hm Hev. destruct (Hm s) as (evs & Hev' & Hout).
  rewrite (emitted_inj _ _ _ _ Hev' Hev) in Hout. clear Hev' evs.
  assert (∀ l, errorFree l → ConsoleError msg ∈ l → False) as Hno.
  { intros l Hl Hin. unfold errorFree in Hl. rewrite Forall_forall in Hl.
    by apply (Hl _ Hin). }
  destruct ((m s).1) as [a|c|e].
  - destruct (Hno _ Hout). set_solver.
  - destruct Hout as (-> & pre & msg' & Heq & Hfree). split; [done|].
    destruct after as [|x after _] using rev_ind; [done|].
    rewrite app_comm_cons, app_assoc in Heq.
    apply app_inj_tail in Heq as [<- _].
    destruct (Hno _ Hfree). set_solver.
  - destruct (Hno _ Hout). set_solver.
Qed.

Lemma haltsOnError_throw {A} err : haltsOnError (@throw A err).
Proof. by apply haltsOnError_silent. Qed.

Lemma haltsOnError_get_components : haltsOnError get_components.
Proof. by apply haltsOnError_silent. Qed.

Lemma haltsOnError_get_projects : haltsOnError get_projects.
Proof. by apply haltsOnError_silent. Qed.

Lemma haltsOnError_set_components cs : haltsOnError (set_components cs).
Proof. by apply haltsOnError_silent. Qed.

Lemma haltsOnError_set_projects ps : haltsOnError (set_projects ps).
Proof. by apply haltsOnError_silent. Qed.

Lemma haltsOnError_read_component i : haltsOnError (read_component i).
Proof.
  apply haltsOnError_silent; intros s; unfold read_component;
    by destruct (components s !! i).
Qed.

Lemma haltsOnError_update_component i f : haltsOnError (update_component i f).
Proof.
  apply haltsOnError_silent; intros s; unfold update_component;
    by destruct (components s !! i).
Qed.

Lemma haltsOnError_read_project i : haltsOnError (read_project i).
Proof.
  apply haltsOnError_silent; intros s; unfold read_project;
    by destruct (projects s !! i).
Qed.

Lemma haltsOnError_update_project i f : haltsOnError (update_project i f).
Proof.
  apply haltsOnError_silent; intros s; unfold update_project;
    by destruct (projects s !! i).
Qed.

Lemma haltsOnError_console_log msg : haltsOnError (console_log msg).
Proof. apply haltsOnError_emit. by intros []. Qed.

Lemma haltsOnError_console_warn msg : haltsOnError (console_warn msg).
Proof. apply haltsOnError_emit. by intros []. Qed.

Lemma haltsOnError_fs_existsSync p : haltsOnError (fs_existsSync p).
Proof.
  intros s. exists [ExistsSync p]. split; [done|]. simpl.
  constructor; [by intros []|constructor].
Qed.

Lemma haltsOnError_fs_readFileSync p : haltsOnError (fs_readFileSync p).
Proof.
  intros s. exists [ReadFileSync p]. unfold emitted, fs_readFileSync, bind.
  rewrite emit_log.
  destruct (fs s !! p); (split; [done|]); simpl;
    (constructor; [by intros []|constructor]).
Qed.

Lemma haltsOnError_writeFileContent p content force :
  haltsOnError (writeFileContent p content force).
Proof.
  intros s. exists [WriteFileContent p content force].
  unfold emitted, writeFileContent, bind. rewrite emit_log.
  destruct (negb force && _); (split; [done|]); simpl;
    (constructor; [by intros []|constructor]).
Qed.

Create HintDb halts.
#[local] Hint Resolve haltsOnError_ret haltsOnError_throw
  haltsOnError_get_components haltsOnError_get_projects
  haltsOnError_set_components haltsOnError_set_projects
  haltsOnError_read_component haltsOnError_update_component
  haltsOnError_read_project haltsOnError_update_project
  haltsOnError_console_log haltsOnError_console_warn
  haltsOnError_fs_existsSync haltsOnError_fs_readFileSync
  haltsOnError_writeFileContent haltsOnError_fatal : halts.

(** Walks down a program built from [bind], conditionals and calls whose
    behaviour is recorded in the [halts] database. *)
Ltac halts :=
  repeat first
    [ solve [eauto with halts]
    | apply haltsOnError_bind; [|intros ?]
    | apply haltsOnError_forM_; intros ?
    | apply haltsOnError_foldM; intros ? ?
    | match goal with
      | |- haltsOnError (if ?b then _ else _) => destruct b
      | |- haltsOnError (match ?x with _ => _ end) => destruct x
      | |- haltsOnError (let _ := _ in _) => cbv zeta
      end ].

(** *** Computations that emit only events of one kind *)

Lemma emitsOnly_ret {A} E (a : A) : emitsOnly E (ret a).
Proof.
  intros s. exists []. split; [unfold emitted; simpl; by rewrite app_nil_r|].
  constructor.
Qed.

Lemma emitsOnly_bind {A B} E (m : M A) (k : A → M B) :
  emitsOnly E m → (∀ a, emitsOnly E (k a)) → emitsOnly E (bind m k).
Proof.
  intros Hm Hk s. destruct (Hm s) as (evs1 & Hev1 & HE1).
  destruct (m s) as [[a|c|e] s1] eqn:Hms.
  - destruct (Hk a s1) as (evs2 & Hev2 & HE2).
    exists (evs1 ++ evs2). split; [|by apply Forall_app].
    eapply emitted_bind_Done; eauto.
  - exists evs1. split; [|done].
    apply emitted_bind_stop; [|done]. by rewrite Hms.
  - exists evs1. split; [|done].
    apply emitted_bind_stop; [|done]. by rewrite Hms.
Qed.

Lemma emitsOnly_emit (E : event → Prop) e : E e → emitsOnly E (emit e).
Proof. intros He s. exists [e]. split; [done|]. by constructor. Qed.

Lemma emitsOnly_silent {A} E (m : M A) :
  (∀ s, trace (m s).2 = trace s) → emitsOnly E m.
Proof.
  intros Htr s. exists []. split; [|constructor].
  unfold emitted. by rewrite Htr, app_nil_r.
Qed.

Lemma emitsOnly_forM_ {A} E (l : list A) (body : A → M unit) :
  (∀ x, emitsOnly E (body x)) → emitsOnly E (forM_ l body).
Proof.
  intros Hbody. induction l as [|x l IH]; simpl.
  - apply emitsOnly_ret.
  - apply emitsOnly_bind; auto.
Qed.

Lemma emitsOnly_foldM {A B} E (l : list A) (body : B → A → M B) b :
  (∀ b x, emitsOnly E (body b x)) → emitsOnly E (foldM l body b).
Proof.
  intros Hbody. revert b. induction l as [|x l IH]; intros b; simpl.
  - apply emitsOnly_ret.
  - apply emitsOnly_bind; auto.
Qed.

Lemma emitsOnly_fs_existsSync (E : event → Prop) p :
  E (ExistsSync p) → emitsOnly E (fs_existsSync p).
Proof. intros He s. exists [ExistsSync p]. split; [done|]. by constructor. Qed.

Lemma emitsOnly_fs_readFileSync (E : event → Prop) p :
  E (ReadFileSync p) → emitsOnly E (fs_readFileSync p).
Proof.
  intros He s. exists [ReadFileSync p]. split; [|by constructor].
  unfold emitted, fs_readFileSync, bind. rewrite emit_log.
  by destruct (fs s !! p).
Qed.

Lemma emitsOnly_writeFileContent (E : event → Prop) p content force :
  E (WriteFileContent p content force) →
  emitsOnly E (writeFileContent p content force).
Proof.
  intros He s. exists [WriteFileContent p content force].
  split; [|by constructor].
  unfold emitted, writeFileContent, bind. rewrite emit_log.
  by destruct (negb force && _).
Qed.

Lemma emitsOnly_read_component E i : emitsOnly E (read_component i).
Proof.
  apply emitsOnly_silent. intros s. unfold read_component.
  by destruct (components s !! i).
Qed.

Lemma emitsOnly_update_component E i f : emitsOnly E (update_component i f).
Proof.
  apply emitsOnly_silent. intros s. unfold update_component.
  by destruct (components s !! i).
Qed.

Lemma emitsOnly_read_project E i : emitsOnly E (read_project i).
Proof.
  apply emitsOnly_silent. intros s. unfold read_project.
  by destruct (projects s !! i).
Qed.

Lemma emitsOnly_update_project E i f : emitsOnly E (update_project i f).
Proof.
  apply emitsOnly_silent. intros s. unfold update_project.
  by destruct (projects s !! i).
Qed.

(** Walks down a program; what is left are the events themselves, to be
    shown of the kind [E]. *)
Ltac emits :=
  repeat first
    [ apply emitsOnly_ret
    | apply emitsOnly_read_component
    | apply emitsOnly_update_component
    | apply emitsOnly_read_project
    | apply emitsOnly_update_project
    | apply emitsOnly_fs_existsSync
    | apply emitsOnly_fs_readFileSync
    | apply emitsOnly_writeFileContent
    | apply emitsOnly_emit
    | apply emitsOnly_forM_; intros ?
    | apply emitsOnly_foldM; intros ? ?
    | apply emitsOnly_bind; [|intros ?]
    | (apply emitsOnly_silent; intros ?; reflexivity)
    | match goal with
      | |- emitsOnly _ (if ?b then _ else _) => destruct b
      | |- emitsOnly _ (match ?x with _ => _ end) => destruct x
      | |- emitsOnly _ (let _ := _ in _) => cbv zeta
      end ].

(** *** Computations that leave a part of the state alone *)

Lemma preserves_ret {A B} (f : State → B) (a : A) : preserves f (ret a).
Proof. by intros s. Qed.

Lemma preserves_bind {A B C} (f : State → C) (m : M A) (k : A → M B) :
  preserves f m → (∀ a, preserves f (k a)) → preserves f (bind m k).
Proof.
  intros Hm Hk s. unfold bind. specialize (Hm s).
  destruct (m s) as [[a|c|e] s1]; simpl in *; [|done..].
  by rewrite Hk.
Qed.

Lemma preserves_forM_ {A C} (f : State → C) (l : list A) (body : A → M unit) :
  (∀ x, preserves f (body x)) → preserves f (forM_ l body).
Proof.
  intros Hbody. induction l as [|x l IH]; simpl.
  - apply preserves_ret.
  - apply preserves_bind; auto.
Qed.

Lemma preserves_foldM {A B C} (f : State → C) (l : list A)
    (body : B → A → M B) b :
  (∀ b x, preserves f (body b x)) → preserves f (foldM l body b).
Proof.
  intros Hbody. revert b. induction l as [|x l IH]; intros b; simpl.
  - apply preserves_ret.
  - apply preserves_bind; auto.
Qed.

(** A call on the outside world or on the state that leaves [f] alone by
    computation. *)
Ltac preserves_prim :=
  intros ?;
  unfold emit, console_log, console_warn, console_error, process_exit, throw,
    fs_existsSync, fs_readFileSync, writeFileContent, get_components,
    get_projects, set_fs, set_components, set_projects, read_component,
    update_component, read_project, update_project, bind, ret;
  simpl; repeat case_match; simplify_eq/=; done.

Ltac preserves :=
  repeat first
    [ apply preserves_ret
    | apply preserves_bind; [|intros ?]
    | apply preserves_forM_; intros ?
    | apply preserves_foldM; intros ? ?
    | match goal with
      | |- preserves _ (if ?b then _ else _) => destruct b
      | |- preserves _ (match ?x with _ => _ end) => destruct x
      | |- preserves _ (let _ := _ in _) => cbv zeta
      end
    | solve [preserves_prim] ].

(** ** Strings *)

Lemma string_app_assoc (a b c : string) : (a +:+ b) +:+ c = a +:+ b +:+ c.
Proof.
  induction a as [|x a IH]; [done|].
  change (String x ((a +:+ b) +:+ c) = String x (a +:+ b +:+ c)).
  by rewrite IH.
Qed.

Lemma string_app_nil_r (a : string) : a +:+ "" = a.
Proof.
  induction a as [|x a IH]; [done|].
  change (String x (a +:+ "") = String x a). by rewrite IH.
Qed.

Lemma occurs_in_refl a : occurs_in a a.
Proof. exists "", "". by rewrite string_app_nil_r. Qed.

Lemma occurs_in_app_l a b t : occurs_in a t → occurs_in a (b +:+ t).
Proof.
  intros (x & y & ->). exists (b +:+ x), y. by rewrite string_app_assoc.
Qed.

Lemma occurs_in_app_r a b t : occurs_in a t → occurs_in a (t +:+ b).
Proof.
  intros (x & y & ->). exists x, (y +:+ b). by rewrite !string_app_assoc.
Qed.

(** An array converted to a string names each of its elements. *)
Lemma occurs_in_concat sep (l : list string) f :
  f ∈ l → occurs_in f (String.concat sep l).
Proof.
  induction l as [|x l IH]; [by intros ?%elem_of_nil|].
  intros [->|Hin]%elem_of_cons.
  - destruct l; simpl; [apply occurs_in_refl|].
    apply occurs_in_app_r, occurs_in_refl.
  - destruct l as [|y l]; [by apply elem_of_nil in Hin|].
    change (String.concat sep (x :: y :: l))
      with (x +:+ sep +:+ String.concat sep (y :: l)).
    by apply occurs_in_app_l, occurs_in_app_l, IH.
Qed.

(** ** Lodash helpers *)

Lemma groupBy_snoc {A} (f : A → string) (l : list A) x :
  groupBy f (l ++ [x])
  = <[f x := (default [] (groupBy f l !! f x) ++ [x])%list]> (groupBy f l).
Proof. unfold groupBy. by rewrite foldl_snoc. Qed.

(** The group of a key is the sub-list of the elements with that key, in
    their order; a key without elements is absent. *)
Lemma groupBy_lookup {A} (f : A → string) (l : list A) (k : string) :
  groupBy f l !! k
  = match filter (λ x, f x = k) l with
    | [] => None
    | x :: xs => Some (x :: xs)
    end.
Proof.
  induction l as [|x l IH] using rev_ind; [done|].
  rewrite groupBy_snoc, filter_app.
  destruct (decide (f x = k)) as [<-|Hne].
  - rewrite lookup_insert_eq, IH.
    rewrite (filter_cons_True _ x []) by done. rewrite filter_nil.
    by destruct (filter _ l).
  - rewrite lookup_insert_ne by done. rewrite IH.
    rewrite (filter_cons_False _ x []) by done. rewrite filter_nil.
    by rewrite app_nil_r.
Qed.

Lemma keyBy_snoc {A} (f : A → string) (l : list A) x :
  keyBy f (l ++ [x]) = <[f x := x]> (keyBy f l).
Proof. unfold keyBy. by rewrite foldl_snoc. Qed.

(** The entry of a key is the last element with that key. *)
Lemma keyBy_lookup {A} (f : A → string) (l : list A) (k : string) :
  keyBy f l !! k = last (filter (λ x, f x = k) l).
Proof.
  induction l as [|x l IH] using rev_ind; [done|].
  rewrite keyBy_snoc, filter_app.
  destruct (decide (f x = k)) as [<-|Hne].
  - rewrite lookup_insert_eq.
    rewrite (filter_cons_True _ x []) by done. rewrite filter_nil.
    by rewrite last_snoc.
  - rewrite lookup_insert_ne by done. rewrite IH.
    rewrite (filter_cons_False _ x []) by done. rewrite filter_nil.
    by rewrite app_nil_r.
Qed.

(** ** The path reconciler *)

(** [findSrcDirPath] probes the file tree once; its result is decided by
    the tree and the index alone. *)
Lemma findSrcDirPath_run srcDir expectedPath idx s :
  findSrcDirPath srcDir expectedPath idx s
  = let s1 := log (ExistsSync (path_join srcDir expectedPath)) s in
    if bool_decide (is_Some (fs s !! path_join srcDir expectedPath))
    then (Done expectedPath, s1)
    else match idx !! path_basename expectedPath with
         | Some files =>
           if Nat.eqb (length files) 1 then
             match files !! 0 with
             | Some newPath => (Done (path_relative srcDir newPath), s1)
             | None => (Throw "TypeError", s1)
             end
           else
             (Exit 1,
              log (ConsoleError
                     (ambiguityMessage expectedPath files
                                       (path_basename expectedPath))) s1)
         | None =>
           match JsObject.inherited (path_basename expectedPath) with
           | None => (Done expectedPath, s1)
           | Some value =>
             if bool_decide (JsObject.length_of value = Some 1%nat)
             then (Throw "TypeError", s1)
             else
               (Exit 1,
                log (ConsoleError
                       (ambiguityText expectedPath (JsObject.shown value)
                                      (path_basename expectedPath))) s1)
           end
         end.
Proof.
  unfold findSrcDirPath, fs_existsSync, bind. rewrite emit_log. simpl.
  destruct (bool_decide _); [done|].
  destruct (idx !! _) as [files|].
  - destruct (Nat.eqb _ _); [|done]. by destruct (files !! 0).
  - destruct (JsObject.inherited _) as [value|]; [|done].
    by destruct (bool_decide _).
Qed.

Lemma findSrcDirPath_exists srcDir expectedPath idx s :
  is_Some (fs s !! path_join srcDir expectedPath) →
  findSrcDirPath srcDir expectedPath idx s
  = (Done expectedPath, log (ExistsSync (path_join srcDir expectedPath)) s).
Proof.
  intros H. rewrite findSrcDirPath_run. simpl. by rewrite bool_decide_eq_true_2.
Qed.

Lemma ambiguityMessage_names expectedPath files fileName f :
  f ∈ files → occurs_in f (ambiguityMessage expectedPath files fileName).
Proof.
  intros Hf. unfold ambiguityMessage, ambiguityText.
  do 3 apply occurs_in_app_l. apply occurs_in_app_r.
  by apply occurs_in_concat.
Qed.

Lemma findSrcDirPath_missing_unknown srcDir expectedPath idx s :
  fs s !! path_join srcDir expectedPath = None →
  idx !! path_basename expectedPath = None →
  JsObject.inherited (path_basename expectedPath) = None →
  findSrcDirPath srcDir expectedPath idx s
  = (Done expectedPath, log (ExistsSync (path_join srcDir expectedPath)) s).
Proof.
  intros Hfs Hidx Hown. rewrite findSrcDirPath_run. simpl.
  rewrite bool_decide_eq_false_2 by (rewrite Hfs; by intros [? ?]).
  by rewrite Hidx, Hown.
Qed.

(** The result of [findSrcDirPath] does not depend on the trace or on the
    configuration arrays. *)
Lemma findSrcDirPath_fs_only srcDir expectedPath idx s1 s2 :
  fs s1 = fs s2 →
  (findSrcDirPath srcDir expectedPath idx s1).1
  = (findSrcDirPath srcDir expectedPath idx s2).1.
Proof.
  intros Hfs. rewrite !findSrcDirPath_run. simpl. rewrite Hfs.
  destruct (bool_decide _); [done|].
  destruct (idx !! _) as [files|].
  - destruct (Nat.eqb _ _); [|done]. by destruct (files !! 0).
  - destruct (JsObject.inherited _) as [value|]; [|done].
    by destruct (bool_decide _).
Qed.

(** When it returns, [findSrcDirPath] has only probed the tree. *)
Lemma findSrcDirPath_Done srcDir expectedPath idx s r s' :
  findSrcDirPath srcDir expectedPath idx s = (Done r, s') →
  s' = log (ExistsSync (path_join srcDir expectedPath)) s.
Proof.
  rewrite findSrcDirPath_run. simpl.
  destruct (bool_decide _); [by intros [= _ <-]|].
  destruct (idx !! _) as [files|].
  - destruct (Nat.eqb _ _); [|done].
    destruct (files !! 0); [by intros [= _ <-]|done].
  - destruct (JsObject.inherited _) as [value|]; [|by intros [= _ <-]].
    by destruct (bool_decide _).
Qed.

(** C2.  Unique-move detection: when no file exists at
    [srcDir/expectedPath] and exactly one file of the index has the bare
    name of [expectedPath], [findSrcDirPath] returns that file's path
    relative to [srcDir]. *)
Theorem findSrcDirPath_unique_move srcDir expectedPath allFiles newPath s :
  fs s !! path_join srcDir expectedPath = None →
  filter (λ f, path_basename f = path_basename expectedPath) allFiles
    = [newPath] →
  findSrcDirPath srcDir expectedPath (groupBy path_basename allFiles) s
  = (Done (path_relative srcDir newPath),
     log (ExistsSync (path_join srcDir expectedPath)) s).
Proof.
  intros Hfs Hone. rewrite findSrcDirPath_run. simpl.
  rewrite bool_decide_eq_false_2 by (rewrite Hfs; by intros [? ?]).
  by rewrite groupBy_lookup, Hone.
Qed.

(** *** Every [console.error] of the program is fatal *)

Lemma haltsOnError_findSrcDirPath srcDir expectedPath idx :
  haltsOnError (findSrcDirPath srcDir expectedPath idx).
Proof. unfold findSrcDirPath. halts. Qed.
#[local] Hint Resolve haltsOnError_findSrcDirPath : halts.

Lemma haltsOnError_fixComponentPaths srcDir i idx :
  haltsOnError (fixComponentPaths srcDir i idx).
Proof. unfold fixComponentPaths. halts. Qed.
#[local] Hint Resolve haltsOnError_fixComponentPaths : halts.

Lemma haltsOnError_fixProjectFilePaths srcDir i idx :
  haltsOnError (fixProjectFilePaths srcDir i idx).
Proof. unfold fixProjectFilePaths. halts. Qed.
#[local] Hint Resolve haltsOnError_fixProjectFilePaths : halts.

Lemma haltsOnError_buildBaseNameToFiles context :
  haltsOnError (buildBaseNameToFiles context).
Proof. by apply haltsOnError_silent. Qed.
#[local] Hint Resolve haltsOnError_buildBaseNameToFiles : halts.

Lemma haltsOnError_fixAllImportStatements context :
  haltsOnError (fixAllImportStatements context).
Proof.
  unfold fixAllImportStatements, fixComponentImportStatements,
    fixFileImportStatements. halts.
Qed.
#[local] Hint Resolve haltsOnError_fixAllImportStatements : halts.

Lemma haltsOnError_fixImports context : haltsOnError (fixImports context).
Proof. unfold fixImports, updateConfig. halts. apply haltsOnError_emit. by intros []. Qed.

Lemma haltsOnError_syncComponentBundle opts cs srcDir idx pid acc bundle :
  haltsOnError (syncComponentBundle opts cs srcDir idx pid acc bundle).
Proof. unfold syncComponentBundle. halts. Qed.
#[local] Hint Resolve haltsOnError_syncComponentBundle : halts.

Lemma haltsOnError_syncProjectFiles srcDir idx pc :
  haltsOnError (syncProjectFiles srcDir idx pc).
Proof. unfold syncProjectFiles. halts. Qed.
#[local] Hint Resolve haltsOnError_syncProjectFiles : halts.

Lemma haltsOnError_syncAllBundles opts context :
  haltsOnError (syncAllBundles opts context).
Proof. unfold syncAllBundles, syncProjectBundle. halts. Qed.
#[local] Hint Resolve haltsOnError_syncAllBundles : halts.

Lemma haltsOnError_syncProjects opts context :
  haltsOnError (syncProjects opts context).
Proof.
  unfold syncProjects, updateConfig. halts. apply haltsOnError_emit. by intros [].
Qed.

(** C1.  Ambiguity is fatal: when no file exists at [srcDir/expectedPath]
    and two or more files of the index have the bare name of
    [expectedPath], [findSrcDirPath] prints an error that names every one
    of them and calls [process.exit(1)].  It returns no path, the file
    tree is as it was, nothing that follows the call is run, and a sync
    or fix-imports pass in which this error is printed ends there with
    exit code 1. *)
Theorem findSrcDirPath_ambiguity_is_fatal srcDir expectedPath allFiles s :
  fs s !! path_join srcDir expectedPath = None →
  (2 ≤ length (filter (λ f, path_basename f = path_basename expectedPath)
                      allFiles))%nat →
  ∃ msg,
    let idx := groupBy path_basename allFiles in
    let s' := log (ConsoleError msg)
                  (log (ExistsSync (path_join srcDir expectedPath)) s) in
    findSrcDirPath srcDir expectedPath idx s = (Exit 1, s')
    ∧ (∀ f, f ∈ allFiles → path_basename f = path_basename expectedPath →
            occurs_in f msg)
    ∧ fs s' = fs s
    ∧ (∀ B (rest : string → M B),
         bind (findSrcDirPath srcDir expectedPath idx) rest s = (Exit 1, s'))
    ∧ (∀ opts context s0 before after,
         emitted (syncProjects opts context) s0
                 (before ++ ConsoleError msg :: after) →
         (syncProjects opts context s0).1 = Exit 1 ∧ after = [])
    ∧ (∀ context s0 before after,
         emitted (fixImports context) s0
                 (before ++ ConsoleError msg :: after) →
         (fixImports context s0).1 = Exit 1 ∧ after = []).
Proof.
  intros Hfs Hmany.
  set (candidates :=
         filter (λ f, path_basename f = path_basename expectedPath) allFiles)
    in *.
  exists (ambiguityMessage expectedPath candidates (path_basename expectedPath)).
  assert (findSrcDirPath srcDir expectedPath (groupBy path_basename allFiles) s
          = (Exit 1,
             log (ConsoleError
                    (ambiguityMessage expectedPath candidates
                                      (path_basename expectedPath)))
                 (log (ExistsSync (path_join srcDir expectedPath)) s)))
    as Hrun.
  { rewrite findSrcDirPath_run. simpl.
    rewrite bool_decide_eq_false_2 by (rewrite Hfs; by intros [? ?]).
    rewrite groupBy_lookup. fold candidates.
    destruct candidates as [|x [|y rest]]; simpl in Hmany; [lia|lia|done]. }
  simpl. split; [done|]. split.
  { intros f Hin Hname. apply ambiguityMessage_names.
    unfold candidates. by apply list_elem_of_filter. }
  split; [done|]. split.
  { intros B rest. by apply bind_Exit. }
  split.
  - intros opts context s0 before after.
    apply haltsOnError_final, haltsOnError_syncProjects.
  - intros context s0 before after.
    apply haltsOnError_final, haltsOnError_fixImports.
Qed.

Lemma strictNe_true a b : strictNe a b = true ↔ a ≠ b.
Proof.
  unfold strictNe. destruct (String.eqb_spec a b); simpl; split; intros; done.
Qed.

Lemma strictNe_false a b : strictNe a b = false ↔ a = b.
Proof.
  unfold strictNe. destruct (String.eqb_spec a b); simpl; split; intros; done.
Qed.

(** When [findSrcDirPath] returns a path other than the expected one, no
    file exists at the expected one. *)
Lemma findSrcDirPath_moved srcDir expectedPath idx s r :
  (findSrcDirPath srcDir expectedPath idx s).1 = Done r →
  r ≠ expectedPath →
  fs s !! path_join srcDir expectedPath = None.
Proof.
  rewrite findSrcDirPath_run. simpl.
  destruct (bool_decide _) eqn:Hex; [intros [= <-]; done|].
  intros _ _. apply bool_decide_eq_false_1 in Hex.
  destruct (fs s !! _) eqn:E; [|done]. destruct Hex. by eexists.
Qed.

(** One call site, when the entry is the component at position [i]. *)
Lemma reconcilePath_component srcDir idx declared i set s c :
  components s !! i = Some c →
  reconcilePath srcDir idx declared (λ r, update_component i (set r)) s
  = match findSrcDirPath srcDir declared idx s with
    | (Done r, _) =>
      (Done (),
       {| fs := fs s;
          components := if strictNe r declared
                        then <[i := set r c]> (components s)
                        else components s;
          projects := projects s;
          trace := trace s ++ ExistsSync (path_join srcDir declared)
                           :: moveWarning declared r |})
    | (Exit code, s') => (Exit code, s')
    | (Throw err, s') => (Throw err, s')
    end.
Proof.
  intros Hc. unfold reconcilePath, bind.
  destruct (findSrcDirPath srcDir declared idx s) as [[r|code|err] s1] eqn:Hrun;
    [|done..].
  apply findSrcDirPath_Done in Hrun as ->.
  unfold moveWarning. destruct (strictNe r declared); simpl.
  - unfold update_component. simpl. rewrite Hc.
    unfold set_components. simpl. by rewrite <- app_assoc.
  - by destruct s.
Qed.

Lemma reconcilePath_project srcDir idx declared i set s p :
  projects s !! i = Some p →
  reconcilePath srcDir idx declared (λ r, update_project i (set r)) s
  = match findSrcDirPath srcDir declared idx s with
    | (Done r, _) =>
      (Done (),
       {| fs := fs s;
          components := components s;
          projects := if strictNe r declared
                      then <[i := set r p]> (projects s)
                      else projects s;
          trace := trace s ++ ExistsSync (path_join srcDir declared)
                           :: moveWarning declared r |})
    | (Exit code, s') => (Exit code, s')
    | (Throw err, s') => (Throw err, s')
    end.
Proof.
  intros Hc. unfold reconcilePath, bind.
  destruct (findSrcDirPath srcDir declared idx s) as [[r|code|err] s1] eqn:Hrun;
    [|done..].
  apply findSrcDirPath_Done in Hrun as ->.
  unfold moveWarning. destruct (strictNe r declared); simpl.
  - unfold update_project. simpl. rewrite Hc.
    unfold set_projects. simpl. by rewrite <- app_assoc.
  - by destruct s.
Qed.

(** [fixComponentPaths] is three call sites in a row, the third under the
    [isLocalModulePath] guard. *)
Lemma fixComponentPaths_steps srcDir i idx s :
  fixComponentPaths srcDir i idx s
  = (let* c := read_component i in
     reconcilePath srcDir idx (ComponentConfig.renderModuleFilePath c)
       (λ r, update_component i (ComponentConfig.set_renderModuleFilePath r)) ;;
     let* c := read_component i in
     reconcilePath srcDir idx (ComponentConfig.cssFilePath c)
       (λ r, update_component i (ComponentConfig.set_cssFilePath r)) ;;
     let* c := read_component i in
     if isLocalModulePath (ComponentConfig.modulePath (ComponentConfig.importSpec c))
     then
       reconcilePath srcDir idx
         (ComponentConfig.modulePath (ComponentConfig.importSpec c))
         (λ r, update_component i (ComponentConfig.set_modulePath r))
     else ret ()) s.
Proof.
  unfold fixComponentPaths, reconcilePath.
  apply bind_ext; intros c s1. rewrite bind_assoc.
  apply bind_ext; intros r s2.
  apply bind_ext; intros _ s3.
  apply bind_ext; intros c1 s4. rewrite bind_assoc.
  apply bind_ext; intros r1 s5.
  reflexivity.
Qed.

(** Where [findSrcDirPath] leaves the state when it does not return. *)
Lemma findSrcDirPath_stop srcDir expectedPath idx s o s' :
  findSrcDirPath srcDir expectedPath idx s = (o, s') →
  (∀ r, o ≠ Done r) →
  ∃ evs, s' = {| fs := fs s; components := components s;
                 projects := projects s;
                 trace := trace s ++ ExistsSync (path_join srcDir expectedPath)
                                  :: evs |}
         ∧ Forall isConsoleError evs.
Proof.
  rewrite findSrcDirPath_run. simpl. intros Hrun Hstop.
  destruct (bool_decide _); [injection Hrun as <- _; by destruct (Hstop expectedPath)|].
  destruct (idx !! _) as [files|].
  - destruct (Nat.eqb _ _).
    + destruct (files !! 0) as [f|]; injection Hrun as <- <-.
      * by destruct (Hstop (path_relative srcDir f)).
      * exists []. split; [done|constructor].
    + injection Hrun as <- <-. eexists [_]. unfold log. simpl.
      rewrite <- app_assoc. split; [done|]. by repeat constructor.
  - destruct (JsObject.inherited _) as [value|];
      [|injection Hrun as <- _; by destruct (Hstop expectedPath)].
    destruct (bool_decide _); injection Hrun as <- <-.
    + exists []. split; [done|constructor].
    + eexists [_]. unfold log. simpl.
      rewrite <- app_assoc. split; [done|]. by repeat constructor.
Qed.

Lemma reconciling_start srcDir idx i s0 c0 :
  components s0 !! i = Some c0 → reconciling srcDir idx i s0 c0 s0 c0.
Proof.
  intros Hc0. unfold reconciling, sameIdentity, reconciledField.
  rewrite list_insert_id by done.
  repeat split; auto. exists []. by rewrite app_nil_r.
Qed.

Lemma reconciling_lookup srcDir idx i s0 c0 s c :
  components s0 !! i = Some c0 → reconciling srcDir idx i s0 c0 s c →
  components s !! i = Some c.
Proof.
  intros Hc0 (_ & _ & -> & _). apply list_lookup_insert_eq.
  by eapply lookup_lt_Some.
Qed.

(** One call site keeps the run within [reconciling], whatever its
    outcome, provided the field it stores to is the one it read. *)
Lemma reconciling_step srcDir idx i s0 c0 s c
    (get : ComponentConfig.t → string)
    (set : string → ComponentConfig.t → ComponentConfig.t) :
  components s0 !! i = Some c0 →
  reconciling srcDir idx i s0 c0 s c →
  get c = get c0 →
  get c0 ∈ componentPaths c0 →
  (∀ r, reconciledField srcDir idx s0 (get c0) r →
        sameIdentity c0 (set r c)
        ∧ reconciledField srcDir idx s0
            (ComponentConfig.renderModuleFilePath c0)
            (ComponentConfig.renderModuleFilePath (set r c))
        ∧ reconciledField srcDir idx s0
            (ComponentConfig.cssFilePath c0)
            (ComponentConfig.cssFilePath (set r c))
        ∧ reconciledField srcDir idx s0
            (ComponentConfig.modulePath (ComponentConfig.importSpec c0))
            (ComponentConfig.modulePath (ComponentConfig.importSpec (set r c)))) →
  ∃ c',
    reconciling srcDir idx i s0 c0
      (reconcilePath srcDir idx (get c)
         (λ r, update_component i (set r)) s).2 c'
    ∧ (c' = c ∨ ∃ r, c' = set r c).
Proof.
  intros Hc0 Hinv Hget Hpath Hset.
  pose proof (reconciling_lookup _ _ _ _ _ _ _ Hc0 Hinv) as Hc.
  rewrite (reconcilePath_component _ _ _ _ _ _ _ Hc), Hget.
  destruct Hinv as (Hfs & Hps & Hcs & (evs & Htr & Hevs) & Hrest).
  assert (i < length (components s0))%nat as Hlen by (by eapply lookup_lt_Some).
  destruct (findSrcDirPath srcDir (get c0) idx s) as [[r|code|err] s1] eqn:Hrun.
  - assert ((findSrcDirPath srcDir (get c0) idx s0).1 = Done r) as Hrun0.
    { rewrite <- (findSrcDirPath_fs_only _ _ _ s s0) by done. by rewrite Hrun. }
    unfold moveWarning. destruct (strictNe r (get c0)) eqn:Hne.
    + apply strictNe_true in Hne.
      assert (reconciledField srcDir idx s0 (get c0) r) as Hr by (by right).
      pose proof (Hset r Hr) as Hrest'.
      exists (set r c). split; [|eauto].
      split; [done|]. split; [done|]. split.
      { simpl. rewrite Hcs. by apply list_insert_insert_eq. }
      split; [|done].
      eexists (evs ++ [_; _]). simpl. rewrite Htr, <- app_assoc.
      split; [done|]. apply Forall_app. split; [done|].
      constructor; [by exists (get c0)|].
      constructor; [|constructor].
      exists (get c0), r. repeat split; try done.
      by eapply findSrcDirPath_moved.
    + exists c. split; [|by left].
      split; [done|]. split; [done|]. split; [done|]. split; [|done].
      eexists (evs ++ [_]). simpl. rewrite Htr, <- app_assoc.
      split; [done|]. apply Forall_app. split; [done|].
      constructor; [by exists (get c0)|constructor].
  - apply findSrcDirPath_stop in Hrun as (evs' & -> & Herr); [|done].
    exists c. split; [|by left]. simpl.
    split; [done|]. split; [done|]. split; [done|]. split; [|done].
    eexists (evs ++ _ :: evs'). rewrite Htr, <- app_assoc.
    split; [done|]. apply Forall_app. split; [done|].
    constructor; [by exists (get c0)|].
    eapply Forall_impl; [exact Herr|]. by intros [].
  - apply findSrcDirPath_stop in Hrun as (evs' & -> & Herr); [|done].
    exists c. split; [|by left]. simpl.
    split; [done|]. split; [done|]. split; [done|]. split; [|done].
    eexists (evs ++ _ :: evs'). rewrite Htr, <- app_assoc.
    split; [done|]. apply Forall_app. split; [done|].
    constructor; [by exists (get c0)|].
    eapply Forall_impl; [exact Herr|]. by intros [].
Qed.

Lemma read_component_Some i s c :
  components s !! i = Some c → read_component i s = (Done c, s).
Proof. unfold read_component. by intros ->. Qed.

(** Whatever its outcome, [fixComponentPaths] on the entry at position
    [i] stays within [reconciling], and it leaves a module path that is
    not local as it is. *)
Lemma fixComponentPaths_reconciling srcDir i idx s c :
  components s !! i = Some c →
  ∃ c',
    reconciling srcDir idx i s c (fixComponentPaths srcDir i idx s).2 c'
    ∧ (isLocalModulePath (ComponentConfig.modulePath (ComponentConfig.importSpec c))
       = false →
       ComponentConfig.modulePath (ComponentConfig.importSpec c')
       = ComponentConfig.modulePath (ComponentConfig.importSpec c)).
Proof.
  forget_environment.
  intros Hc. rewrite fixComponentPaths_steps.
  rewrite (bind_Done _ _ _ _ _ (read_component_Some _ _ _ Hc)).
  (* the render module path *)
  destruct (reconciling_step srcDir idx i s c s c
              ComponentConfig.renderModuleFilePath
              ComponentConfig.set_renderModuleFilePath Hc
              (reconciling_start _ _ _ _ _ Hc) eq_refl)
    as (c1 & Hinv1 & Hc1).
  { unfold componentPaths. set_solver. }
  { intros r Hr. unfold sameIdentity, reconciledField. simpl. by auto 10. }
  destruct (reconcilePath srcDir idx (ComponentConfig.renderModuleFilePath c) _ s)
    as [[[]|code|err] s1] eqn:Hrun1; simpl in Hinv1;
    [rewrite (bind_Done _ _ _ _ _ Hrun1)
    |rewrite (bind_Exit _ _ _ _ _ Hrun1); exists c1; split; [done|];
     by destruct Hc1 as [->|[r ->]]
    |rewrite (bind_Throw _ _ _ _ _ Hrun1); exists c1; split; [done|];
     by destruct Hc1 as [->|[r ->]]].
  rewrite (bind_Done _ _ _ _ _
             (read_component_Some _ _ _
                (reconciling_lookup _ _ _ _ _ _ _ Hc Hinv1))).
  (* the css path *)
  assert (ComponentConfig.cssFilePath c1 = ComponentConfig.cssFilePath c) as Hcss
    by (by destruct Hc1 as [->|[r ->]]).
  assert (ComponentConfig.modulePath (ComponentConfig.importSpec c1)
          = ComponentConfig.modulePath (ComponentConfig.importSpec c)) as Hmp
    by (by destruct Hc1 as [->|[r ->]]).
  destruct (reconciling_step srcDir idx i s c s1 c1
              ComponentConfig.cssFilePath
              ComponentConfig.set_cssFilePath Hc Hinv1 Hcss)
    as (c2 & Hinv2 & Hc2).
  { unfold componentPaths. set_solver. }
  { intros r Hr. destruct Hinv1 as (_ & _ & _ & _ & Hid & Hf1 & Hf2 & Hf3).
    unfold sameIdentity in *. simpl. by auto 10. }
  destruct (reconcilePath srcDir idx (ComponentConfig.cssFilePath c1) _ s1)
    as [[[]|code|err] s2] eqn:Hrun2; simpl in Hinv2;
    [rewrite (bind_Done _ _ _ _ _ Hrun2)
    |rewrite (bind_Exit _ _ _ _ _ Hrun2); exists c2; split; [done|];
     by destruct Hc2 as [->|[r ->]]
    |rewrite (bind_Throw _ _ _ _ _ Hrun2); exists c2; split; [done|];
     by destruct Hc2 as [->|[r ->]]].
  rewrite (bind_Done _ _ _ _ _
             (read_component_Some _ _ _
                (reconciling_lookup _ _ _ _ _ _ _ Hc Hinv2))).
  (* the module path of the import spec *)
  assert (ComponentConfig.modulePath (ComponentConfig.importSpec c2)
          = ComponentConfig.modulePath (ComponentConfig.importSpec c)) as Hmp2
    by (by destruct Hc2 as [->|[r ->]]).
  rewrite Hmp2.
  destruct (isLocalModulePath _) eqn:Hlocal; [|by exists c2].
  destruct (reconciling_step srcDir idx i s c s2 c2
              (λ x, ComponentConfig.modulePath (ComponentConfig.importSpec x))
              ComponentConfig.set_modulePath Hc Hinv2 Hmp2)
    as (c3 & Hinv3 & Hc3).
  { unfold componentPaths. set_solver. }
  { intros r Hr. destruct Hinv2 as (_ & _ & _ & _ & Hid & Hf1 & Hf2 & Hf3).
    unfold sameIdentity in *. simpl. by auto 10. }
  simpl in Hinv3. rewrite Hmp2 in Hinv3. by exists c3.
Qed.

Lemma read_project_Some i s p :
  projects s !! i = Some p → read_project i s = (Done p, s).
Proof. unfold read_project. by intros ->. Qed.

(** [fixProjectFilePaths] is two call sites in a row. *)
Lemma fixProjectFilePaths_steps srcDir i idx s :
  fixProjectFilePaths srcDir i idx s
  = (let* p := read_project i in
     reconcilePath srcDir idx (ProjectConfig.contextFilePath p)
       (λ r, update_project i (ProjectConfig.set_contextFilePath r)) ;;
     let* p := read_project i in
     reconcilePath srcDir idx (ProjectConfig.fontsFilePath p)
       (λ r, update_project i (ProjectConfig.set_fontsFilePath r))) s.
Proof.
  unfold fixProjectFilePaths, reconcilePath.
  apply bind_ext; intros p s1. rewrite bind_assoc.
  apply bind_ext; intros r s2.
  reflexivity.
Qed.

Lemma reconcilerEvent_probe srcDir tree declared d :
  d ∈ declared → reconcilerEvent srcDir tree declared (ExistsSync (path_join srcDir d)).
Proof. intros Hd. by exists d. Qed.

Lemma reconcilerEvent_warning srcDir idx declared d r s :
  d ∈ declared →
  (findSrcDirPath srcDir d idx s).1 = Done r →
  Forall (reconcilerEvent srcDir (fs s) declared) (moveWarning d r).
Proof.
  intros Hd Hrun. unfold moveWarning.
  destruct (strictNe r d) eqn:Hne; [|constructor].
  apply strictNe_true in Hne. constructor; [|constructor].
  exists d, r. repeat split; try done. by eapply findSrcDirPath_moved.
Qed.

Lemma reconcilerEvent_errors srcDir tree declared evs :
  Forall isConsoleError evs → Forall (reconcilerEvent srcDir tree declared) evs.
Proof. intros H. eapply Forall_impl; [exact H|]. by intros []. Qed.

(** Every event of [fixProjectFilePaths] is a probe of one of the two
    declared paths of the entry, a move warning for one of them at which
    no file exists, or the fatal error. *)
Lemma fixProjectFilePaths_events srcDir i idx s p :
  projects s !! i = Some p →
  ∃ evs,
    emitted (fixProjectFilePaths srcDir i idx) s evs
    ∧ Forall (reconcilerEvent srcDir (fs s)
                [ProjectConfig.contextFilePath p; ProjectConfig.fontsFilePath p])
             evs.
Proof.
  forget_environment.
  intros Hp. unfold emitted. rewrite fixProjectFilePaths_steps.
  rewrite (bind_Done _ _ _ _ _ (read_project_Some _ _ _ Hp)).
  pose proof (reconcilePath_project srcDir idx (ProjectConfig.contextFilePath p)
                i ProjectConfig.set_contextFilePath s p Hp) as Hstep1.
  destruct (findSrcDirPath srcDir (ProjectConfig.contextFilePath p) idx s)
    as [[r|code|err] s1] eqn:Hrun1.
  - rewrite (bind_Done _ _ _ _ _ Hstep1). clear Hstep1.
    set (p1 := if strictNe r (ProjectConfig.contextFilePath p)
               then ProjectConfig.set_contextFilePath r p else p).
    set (S1 := {| fs := fs s; components := components s;
                  projects := if strictNe r (ProjectConfig.contextFilePath p)
                              then <[i:=ProjectConfig.set_contextFilePath r p]>
                                     (projects s)
                              else projects s;
                  trace := trace s
                           ++ ExistsSync (path_join srcDir
                                            (ProjectConfig.contextFilePath p))
                           :: moveWarning (ProjectConfig.contextFilePath p) r |}).
    assert (projects S1 !! i = Some p1) as Hp1.
    { unfold S1, p1. simpl. destruct (strictNe _ _); [|done].
      apply list_lookup_insert_eq. by eapply lookup_lt_Some. }
    assert (ProjectConfig.fontsFilePath p1 = ProjectConfig.fontsFilePath p) as Hfonts
      by (unfold p1; by destruct (strictNe _ _)).
    rewrite (bind_Done _ _ _ _ _ (read_project_Some _ _ _ Hp1)).
    rewrite (reconcilePath_project _ _ _ _ _ _ _ Hp1), Hfonts.
    assert (Forall (reconcilerEvent srcDir (fs s)
                      [ProjectConfig.contextFilePath p;
                       ProjectConfig.fontsFilePath p])
                   (ExistsSync (path_join srcDir (ProjectConfig.contextFilePath p))
                    :: moveWarning (ProjectConfig.contextFilePath p) r)) as Hevs1.
    { constructor; [apply reconcilerEvent_probe; set_solver|].
      eapply reconcilerEvent_warning; [set_solver|]. by rewrite Hrun1. }
    destruct (findSrcDirPath srcDir (ProjectConfig.fontsFilePath p) idx S1)
      as [[r2|code|err] s2] eqn:Hrun2.
    + eexists (_ :: _ ++ _ :: _). simpl. rewrite <- app_assoc. split; [done|].
      rewrite app_comm_cons. apply Forall_app. split; [done|].
      constructor; [apply reconcilerEvent_probe; set_solver|].
      eapply reconcilerEvent_warning; [set_solver|].
      rewrite (findSrcDirPath_fs_only _ _ _ s S1) by done. by rewrite Hrun2.
    + apply findSrcDirPath_stop in Hrun2 as (evs' & -> & Herr); [|done].
      eexists (_ :: _ ++ _ :: _). simpl. rewrite <- app_assoc. split; [done|].
      rewrite app_comm_cons. apply Forall_app. split; [done|].
      constructor; [apply reconcilerEvent_probe; set_solver|].
      by apply reconcilerEvent_errors.
    + apply findSrcDirPath_stop in Hrun2 as (evs' & -> & Herr); [|done].
      eexists (_ :: _ ++ _ :: _). simpl. rewrite <- app_assoc. split; [done|].
      rewrite app_comm_cons. apply Forall_app. split; [done|].
      constructor; [apply reconcilerEvent_probe; set_solver|].
      by apply reconcilerEvent_errors.
  - rewrite (bind_Exit _ _ _ _ _ Hstep1).
    apply findSrcDirPath_stop in Hrun1 as (evs' & -> & Herr); [|done].
    eexists (_ :: _). split; [done|].
    constructor; [apply reconcilerEvent_probe; set_solver|].
    by apply reconcilerEvent_errors.
  - rewrite (bind_Throw _ _ _ _ _ Hstep1).
    apply findSrcDirPath_stop in Hrun1 as (evs' & -> & Herr); [|done].
    eexists (_ :: _). split; [done|].
    constructor; [apply reconcilerEvent_probe; set_solver|].
    by apply reconcilerEvent_errors.
Qed.

(** C3.  The claim holds when a file exists at [srcDir/expectedPath]; its
    second case fails for a bare name under which the index inherits a
    value.  When no file exists at [srcDir/expectedPath], no file of the
    index has the bare name of [expectedPath], and the index inherits a
    value under that name, [findSrcDirPath] does not return
    [expectedPath].  If the [length] of the value is 1 it throws, on
    [path.relative] of an undefined element; otherwise it prints the
    ambiguity error, with the inherited value as the matching files, and
    calls [process.exit(1)]. *)
Theorem findSrcDirPath_inherited_name srcDir expectedPath allFiles s value :
  fs s !! path_join srcDir expectedPath = None →
  filter (λ f, path_basename f = path_basename expectedPath) allFiles = [] →
  JsObject.inherited (path_basename expectedPath) = Some value →
  let s1 := log (ExistsSync (path_join srcDir expectedPath)) s in
  findSrcDirPath srcDir expectedPath (groupBy path_basename allFiles) s
  = if bool_decide (JsObject.length_of value = Some 1%nat)
    then (Throw "TypeError", s1)
    else (Exit 1,
          log (ConsoleError
                 (ambiguityText expectedPath (JsObject.shown value)
                                (path_basename expectedPath))) s1).
Proof.
  intros Hfs Hnone Hvalue. rewrite findSrcDirPath_run. simpl.
  rewrite bool_decide_eq_false_2 by (rewrite Hfs; by intros [? ?]).
  by rewrite groupBy_lookup, Hnone, Hvalue.
Qed.

(** X28.  [findSrcDirPath] returns [expectedPath] itself when a file
    exists at [srcDir/expectedPath], and also when no file of the index
    has its bare name and that name is not the name of a property that
    the index inherits.  The call site then prints no warning and stores
    nothing: it only probes the tree.  Every move warning that
    [fixComponentPaths] or [fixProjectFilePaths] prints is for a declared
    path of the entry at which no file exists. *)
Theorem findSrcDirPath_unchanged srcDir expectedPath allFiles s :
  is_Some (fs s !! path_join srcDir expectedPath)
  ∨ (filter (λ f, path_basename f = path_basename expectedPath) allFiles = []
     ∧ JsObject.inherited (path_basename expectedPath) = None) →
  let idx := groupBy path_basename allFiles in
  findSrcDirPath srcDir expectedPath idx s
  = (Done expectedPath, log (ExistsSync (path_join srcDir expectedPath)) s)
  ∧ (∀ store,
       reconcilePath srcDir idx expectedPath store s
       = (Done (), log (ExistsSync (path_join srcDir expectedPath)) s))
  ∧ (∀ i c evs msg,
       components s !! i = Some c →
       emitted (fixComponentPaths srcDir i idx) s evs →
       ConsoleWarn msg ∈ evs →
       ∃ d r, d ∈ componentPaths c ∧ msg = movedMessage d r ∧ r ≠ d
              ∧ fs s !! path_join srcDir d = None)
  ∧ (∀ i p evs msg,
       projects s !! i = Some p →
       emitted (fixProjectFilePaths srcDir i idx) s evs →
       ConsoleWarn msg ∈ evs →
       ∃ d r, d ∈ [ProjectConfig.contextFilePath p; ProjectConfig.fontsFilePath p]
              ∧ msg = movedMessage d r ∧ r ≠ d
              ∧ fs s !! path_join srcDir d = None).
Proof.
  intros H idx.
  assert (findSrcDirPath srcDir expectedPath idx s
          = (Done expectedPath,
             log (ExistsSync (path_join srcDir expectedPath)) s)) as Hrun.
  { destruct (fs s !! path_join srcDir expectedPath) as [content|] eqn:Hfs.
    - apply findSrcDirPath_exists. rewrite Hfs. by eexists.
    - destruct H as [[? ?]|[Hnone Hown]]; [done|].
      apply findSrcDirPath_missing_unknown; [done| |done].
      unfold idx. by rewrite groupBy_lookup, Hnone. }
  split; [done|]. split; [|split].
  - intros store. unfold reconcilePath.
    rewrite (bind_Done _ _ _ _ _ Hrun).
    unfold strictNe. by rewrite String.eqb_refl.
  - intros i c evs msg Hc Hev Hin.
    destruct (fixComponentPaths_reconciling srcDir i idx s c Hc)
      as (c' & (_ & _ & _ & (evs' & Htr & Hevs) & _) & _).
    assert (evs' = evs) as -> by (by eapply emitted_inj).
    rewrite Forall_forall in Hevs. apply (Hevs _ Hin).
  - intros i p evs msg Hp Hev Hin.
    destruct (fixProjectFilePaths_events srcDir i idx s p Hp)
      as (evs' & Htr & Hevs).
    assert (evs' = evs) as -> by (by eapply emitted_inj).
    rewrite Forall_forall in Hevs. apply (Hevs _ Hin).
Qed.

(** C9.  [fixComponentPaths] on the entry at position [i] changes nothing
    but that entry, and in it nothing but [renderModuleFilePath],
    [cssFilePath] and [importSpec.modulePath]: [id], [name], [type] and
    [projectId] are as before, a module path that is not local is as
    before, and each of the three paths is either as declared or the
    different path that [findSrcDirPath] returned for the declared one.
    This holds for every outcome of the call. *)
Theorem fixComponentPaths_frame srcDir i idx s c :
  components s !! i = Some c →
  let s' := (fixComponentPaths srcDir i idx s).2 in
  ∃ c',
    components s' = <[i := c']> (components s)
    ∧ components s' !! i = Some c'
    ∧ (∀ j, j ≠ i → components s' !! j = components s !! j)
    ∧ ComponentConfig.id c' = ComponentConfig.id c
    ∧ ComponentConfig.name c' = ComponentConfig.name c
    ∧ ComponentConfig.type c' = ComponentConfig.type c
    ∧ ComponentConfig.projectId c' = ComponentConfig.projectId c
    ∧ (isLocalModulePath (ComponentConfig.modulePath (ComponentConfig.importSpec c))
       = false →
       ComponentConfig.modulePath (ComponentConfig.importSpec c')
       = ComponentConfig.modulePath (ComponentConfig.importSpec c))
    ∧ reconciledField srcDir idx s
        (ComponentConfig.renderModuleFilePath c)
        (ComponentConfig.renderModuleFilePath c')
    ∧ reconciledField srcDir idx s
        (ComponentConfig.cssFilePath c) (ComponentConfig.cssFilePath c')
    ∧ reconciledField srcDir idx s
        (ComponentConfig.modulePath (ComponentConfig.importSpec c))
        (ComponentConfig.modulePath (ComponentConfig.importSpec c'))
    ∧ projects s' = projects s
    ∧ fs s' = fs s.
Proof.
  intros Hc s'.
  destruct (fixComponentPaths_reconciling srcDir i idx s c Hc)
    as (c' & Hinv & Hlocal).
  pose proof (reconciling_lookup _ _ _ _ _ _ _ Hc Hinv) as Hc'.
  destruct Hinv as (Hfs & Hps & Hcs & _ & (Hid & Hname & Htype & Hpid)
                    & Hrender & Hcss & Hmp).
  exists c'. fold s' in Hfs, Hps, Hcs, Hc'.
  repeat split; try done.
  intros j Hj. rewrite Hcs. by apply list_lookup_insert_ne.
Qed.

(** One call site whose [findSrcDirPath] returns [r]: the entry holds [r]
    afterwards, whether or not it was assigned. *)
Lemma reconcilePath_component_Done srcDir idx declared i set s c r :
  components s !! i = Some c →
  (findSrcDirPath srcDir declared idx s).1 = Done r →
  set declared c = c →
  reconcilePath srcDir idx declared (λ r, update_component i (set r)) s
  = (Done (),
     {| fs := fs s;
        components := <[i := set r c]> (components s);
        projects := projects s;
        trace := trace s ++ ExistsSync (path_join srcDir declared)
                         :: moveWarning declared r |}).
Proof.
  intros Hc Hrun Hset. rewrite (reconcilePath_component _ _ _ _ _ _ _ Hc).
  destruct (findSrcDirPath srcDir declared idx s) as [o s1].
  simpl in Hrun. subst o.
  destruct (strictNe r declared) eqn:Hne; [done|].
  apply strictNe_false in Hne as ->. rewrite Hset.
  by rewrite list_insert_id.
Qed.

(** [fixComponentPaths] when every path resolves. *)
Lemma fixComponentPaths_Done srcDir i idx s c r k m :
  components s !! i = Some c →
  (findSrcDirPath srcDir (ComponentConfig.renderModuleFilePath c) idx s).1
    = Done r →
  (findSrcDirPath srcDir (ComponentConfig.cssFilePath c) idx s).1 = Done k →
  (if isLocalModulePath (ComponentConfig.modulePath (ComponentConfig.importSpec c))
   then (findSrcDirPath srcDir
           (ComponentConfig.modulePath (ComponentConfig.importSpec c)) idx s).1
        = Done m
   else m = ComponentConfig.modulePath (ComponentConfig.importSpec c)) →
  fixComponentPaths srcDir i idx s
  = (Done (),
     {| fs := fs s;
        components :=
          <[i := ComponentConfig.set_modulePath m
                   (ComponentConfig.set_cssFilePath k
                      (ComponentConfig.set_renderModuleFilePath r c))]>
            (components s);
        projects := projects s;
        trace := trace s ++ fixComponentPathsEvents srcDir c r k m |}).
Proof.
  intros Hc Hr Hk Hm. rewrite fixComponentPaths_steps.
  assert (i < length (components s))%nat as Hlen by (by eapply lookup_lt_Some).
  rewrite (bind_Done _ _ _ _ _ (read_component_Some _ _ _ Hc)).
  rewrite (bind_Done _ _ _ _ _
             (reconcilePath_component_Done _ _ _ _
                ComponentConfig.set_renderModuleFilePath _ _ _ Hc Hr
                ltac:(by destruct c))).
  set (c1 := ComponentConfig.set_renderModuleFilePath r c).
  match goal with |- bind _ _ ?S = _ => set (S1 := S) end.
  assert (components S1 !! i = Some c1) as Hc1
    by (by apply list_lookup_insert_eq).
  rewrite (bind_Done _ _ _ _ _ (read_component_Some _ _ _ Hc1)).
  assert ((findSrcDirPath srcDir (ComponentConfig.cssFilePath c1) idx S1).1
          = Done k) as Hk1
    by (by rewrite (findSrcDirPath_fs_only _ _ _ S1 s)).
  rewrite (bind_Done _ _ _ _ _
             (reconcilePath_component_Done _ _ _ _
                ComponentConfig.set_cssFilePath _ _ _ Hc1 Hk1
                ltac:(by destruct c))).
  set (c2 := ComponentConfig.set_cssFilePath k c1).
  match goal with |- bind _ _ ?S = _ => set (S2 := S) end.
  assert (components S2 !! i = Some c2) as Hc2.
  { unfold S2. simpl. apply list_lookup_insert_eq. by rewrite length_insert. }
  rewrite (bind_Done _ _ _ _ _ (read_component_Some _ _ _ Hc2)).
  unfold fixComponentPathsEvents.
  change (ComponentConfig.modulePath (ComponentConfig.importSpec c2))
    with (ComponentConfig.modulePath (ComponentConfig.importSpec c)).
  destruct (isLocalModulePath _).
  - assert ((findSrcDirPath srcDir
               (ComponentConfig.modulePath (ComponentConfig.importSpec c))
               idx S2).1 = Done m) as Hm2
      by (by rewrite (findSrcDirPath_fs_only _ _ _ S2 s)).
    assert (ComponentConfig.set_modulePath
              (ComponentConfig.modulePath (ComponentConfig.importSpec c)) c2 = c2)
      as Hid by (unfold c2, c1; by destruct c as [? ? ? ? ? [?] ?]).
    rewrite (reconcilePath_component_Done _ _ _ _
               ComponentConfig.set_modulePath _ _ _ Hc2 Hm2 Hid).
    unfold S2, S1. simpl. rewrite !list_insert_insert_eq.
    by repeat (rewrite <- app_assoc; simpl).
  - subst m. unfold S2, S1. simpl. rewrite !list_insert_insert_eq.
    repeat (rewrite <- app_assoc; simpl). rewrite app_nil_r.
    by replace (ComponentConfig.set_modulePath _ c2) with c2
      by (unfold c2, c1; by destruct c as [? ? ? ? ? [?] ?]).
Qed.

(** ** The artifact writer *)

Lemma writeFileContent_run path content force s :
  writeFileContent path content force s
  = (Done (),
     {| fs := if negb force && bool_decide (is_Some (fs s !! path))
              then fs s else <[path := content]> (fs s);
        components := components s;
        projects := projects s;
        trace := trace s ++ [WriteFileContent path content force] |}).
Proof.
  unfold writeFileContent, bind. rewrite emit_log. simpl.
  by destruct (negb force && _).
Qed.

Lemma writeFileContent_force path content s :
  writeFileContent path content true s
  = (Done (),
     {| fs := <[path := content]> (fs s);
        components := components s;
        projects := projects s;
        trace := trace s ++ [WriteFileContent path content true] |}).
Proof. by rewrite writeFileContent_run. Qed.

Lemma writeFileContent_createOnly path content s :
  writeFileContent path content false s
  = (Done (),
     {| fs := createOnly path content (fs s);
        components := components s;
        projects := projects s;
        trace := trace s ++ [WriteFileContent path content false] |}).
Proof. by rewrite writeFileContent_run. Qed.

(** C8.  A write with [force = false] to a path at which a file exists is
    a no-op: the call returns, and the file tree, hence the content of
    that file, is what it was. *)
Theorem writeFileContent_create_only_noop path content old s :
  fs s !! path = Some old →
  writeFileContent path content false s
  = (Done (), log (WriteFileContent path content false) s)
  ∧ fs (writeFileContent path content false s).2 = fs s
  ∧ fs (writeFileContent path content false s).2 !! path = Some old.
Proof.
  intros Hold. rewrite writeFileContent_createOnly. unfold createOnly.
  rewrite bool_decide_eq_true_2 by (rewrite Hold; by eexists).
  done.
Qed.

(** ** The selection of components *)


(** ** The sync step of one component bundle *)


(** The sync step of a tracked component never writes create-only, never
    reads a file and never persists the configuration, whatever its
    outcome. *)
Lemma syncComponentBundle_existing_events opts cs srcDir idx pid acc bundle :
  is_Some (acc !! ComponentBundle.id bundle) →
  emitsOnly (existingSyncEvent bundle)
            (syncComponentBundle opts cs srcDir idx pid acc bundle).
Proof.
  intros [i Hi]. unfold syncComponentBundle. rewrite Hi.
  unfold fixComponentPaths, findSrcDirPath, console_log, console_warn,
    console_error, process_exit.
  emits; simpl; auto.
Qed.

Lemma fixFileImportStatements_run srcDir f allComp allProj s content :
  fs s !! path_join srcDir f = Some content →
  fixFileImportStatements srcDir f allComp allProj s
  = (Done (),
     {| fs := <[path_join srcDir f := replaceImports content f allComp allProj]>
                (fs s);
        components := components s;
        projects := projects s;
        trace := trace s
                 ++ [ReadFileSync (path_join srcDir f);
                     WriteFileContent (path_join srcDir f)
                       (replaceImports content f allComp allProj) true] |}).
Proof.
  intros Hf. unfold fixFileImportStatements, fs_readFileSync, bind.
  rewrite emit_log, Hf. simpl. rewrite writeFileContent_force. simpl.
  by rewrite <- app_assoc.
Qed.

(** The import rewriter on an entry whose module path is local: once it
    has rewritten the render module and the css file, it reads the file
    at the module path and force-writes it with what [replaceImports]
    makes of the content read. *)
Lemma fixComponentImportStatements_module srcDir c allComp allProj s2 s3 x :
  isLocalModulePath (ComponentConfig.modulePath (ComponentConfig.importSpec c))
    = true →
  (fixFileImportStatements srcDir (ComponentConfig.renderModuleFilePath c)
                           allComp allProj ;;
   fixFileImportStatements srcDir (ComponentConfig.cssFilePath c)
                           allComp allProj) s2
  = (Done (), s3) →
  fs s3 !! path_join srcDir
             (ComponentConfig.modulePath (ComponentConfig.importSpec c))
  = Some x →
  fixComponentImportStatements srcDir c allComp allProj s2
  = (Done (),
     {| fs :=
          <[path_join srcDir
              (ComponentConfig.modulePath (ComponentConfig.importSpec c))
            := replaceImports x
                 (ComponentConfig.modulePath (ComponentConfig.importSpec c))
                 allComp allProj]> (fs s3);
        components := components s3;
        projects := projects s3;
        trace :=
          trace s3
          ++ [ReadFileSync
                (path_join srcDir
                   (ComponentConfig.modulePath (ComponentConfig.importSpec c)));
              WriteFileContent
                (path_join srcDir
                   (ComponentConfig.modulePath (ComponentConfig.importSpec c)))
                (replaceImports x
                   (ComponentConfig.modulePath (ComponentConfig.importSpec c))
                   allComp allProj)
                true] |}).
Proof.
  intros Hlocal Hfirst Hx. unfold fixComponentImportStatements.
  rewrite Hlocal.
  rewrite <- (bind_assoc
                (fixFileImportStatements srcDir
                   (ComponentConfig.renderModuleFilePath c) allComp allProj)
                (λ _, fixFileImportStatements srcDir
                        (ComponentConfig.cssFilePath c) allComp allProj)).
  rewrite (bind_Done _ _ _ _ _ Hfirst).
  by apply fixFileImportStatements_run.
Qed.

(** C7, as the code has it.  For a selected bundle whose component is not
    tracked, and whose id is not the name of a property that
    [allCompConfigs] inherits, the step makes exactly three writes, all
    create-only (render module, css rules, skeleton module, in this
    order), appends to [config.components] the entry whose paths are the
    file names of the bundle, and records the entry under the component
    id.  Once the component is tracked, every write of the sync step of
    its bundle is a force write of the render module or of the css rules,
    whatever the state and the outcome: the skeleton module of a bundle
    is written by the step that created the entry and by no later one.
    The skeleton file itself is written again, by the import rewriter:
    for an entry whose module path is local, once the rewriter has
    rewritten the render module and the css file of the entry, and a file
    of content [x] is at the module path, it reads that file and
    force-writes it with what [replaceImports] makes of [x]. *)
Theorem syncComponentBundle_new opts cs srcDir idx pid acc bundle s :
  shouldSyncComponents opts cs (ComponentBundle.id bundle)
                       (ComponentBundle.componentName bundle) = true →
  acc !! ComponentBundle.id bundle = None →
  JsObject.inherited (ComponentBundle.id bundle) = None →
  syncComponentBundle opts cs srcDir idx pid acc bundle s
  = (Done (<[ComponentBundle.id bundle := length (components s)]> acc),
     {| fs :=
          createOnly
            (path_join srcDir (ComponentBundle.skeletonModuleFileName bundle))
            (ComponentBundle.skeletonModule bundle)
            (createOnly
               (path_join srcDir (ComponentBundle.cssFileName bundle))
               (ComponentBundle.cssRules bundle)
               (createOnly
                  (path_join srcDir (ComponentBundle.renderModuleFileName bundle))
                  (ComponentBundle.renderModule bundle)
                  (fs s)));
        components := components s ++ [newComponentConfig pid bundle];
        projects := projects s;
        trace :=
          trace s
          ++ [ConsoleLog (syncingMessage (ComponentBundle.componentName bundle)
                                         pid (ComponentBundle.id bundle));
              WriteFileContent
                (path_join srcDir (ComponentBundle.renderModuleFileName bundle))
                (ComponentBundle.renderModule bundle) false;
              WriteFileContent
                (path_join srcDir (ComponentBundle.cssFileName bundle))
                (ComponentBundle.cssRules bundle) false;
              WriteFileContent
                (path_join srcDir (ComponentBundle.skeletonModuleFileName bundle))
                (ComponentBundle.skeletonModule bundle) false] |})
  ∧ (∀ opts' cs' idx' pid' acc',
       is_Some (acc' !! ComponentBundle.id bundle) →
       emitsOnly (existingSyncEvent bundle)
                 (syncComponentBundle opts' cs' srcDir idx' pid' acc' bundle))
  ∧ (∀ c allComp allProj s2 s3 x,
       isLocalModulePath
         (ComponentConfig.modulePath (ComponentConfig.importSpec c)) = true →
       (fixFileImportStatements srcDir (ComponentConfig.renderModuleFilePath c)
                                allComp allProj ;;
        fixFileImportStatements srcDir (ComponentConfig.cssFilePath c)
                                allComp allProj) s2
       = (Done (), s3) →
       fs s3 !! path_join srcDir
                  (ComponentConfig.modulePath (ComponentConfig.importSpec c))
       = Some x →
       fixComponentImportStatements srcDir c allComp allProj s2
       = (Done (),
          {| fs :=
               <[path_join srcDir
                   (ComponentConfig.modulePath (ComponentConfig.importSpec c))
                 := replaceImports x
                      (ComponentConfig.modulePath (ComponentConfig.importSpec c))
                      allComp allProj]> (fs s3);
             components := components s3;
             projects := projects s3;
             trace :=
               trace s3
               ++ [ReadFileSync
                     (path_join srcDir
                        (ComponentConfig.modulePath
                           (ComponentConfig.importSpec c)));
                   WriteFileContent
                     (path_join srcDir
                        (ComponentConfig.modulePath
                           (ComponentConfig.importSpec c)))
                     (replaceImports x
                        (ComponentConfig.modulePath
                           (ComponentConfig.importSpec c))
                        allComp allProj)
                     true] |})).
Proof.
  intros Hsel Hacc Hown. split; [|split].
  - unfold syncComponentBundle. rewrite Hsel. simpl.
    unfold console_log. rewrite (bind_Done _ _ _ _ _ (emit_log _ _)).
    rewrite Hacc, Hown.
    rewrite (bind_Done _ _ _ _ _ (writeFileContent_createOnly _ _ _)).
    rewrite (bind_Done _ _ _ _ _ (writeFileContent_createOnly _ _ _)).
    rewrite (bind_Done _ _ _ _ _ (writeFileContent_createOnly _ _ _)).
    unfold bind, get_components, set_components, ret, log. simpl.
    by repeat (rewrite <- app_assoc; simpl).
  - intros opts' cs' idx' pid' acc'. apply syncComponentBundle_existing_events.
  - intros c allComp allProj s2 s3 x.
    apply fixComponentImportStatements_module.
Qed.

(** ** The order of a sync pass *)

Lemma syncAllBundles_events opts context :
  emitsOnly mergeEvent (syncAllBundles opts context).
Proof.
  unfold syncAllBundles, syncProjectBundle, syncProjectFiles,
    syncComponentBundle, fixProjectFilePaths, fixComponentPaths,
    findSrcDirPath, console_log, console_warn, console_error, process_exit.
  emits; simpl; auto.
Qed.

Lemma fixFileImportStatements_events srcDir f allComp allProj :
  emitsOnly (rewriterEvent srcDir allComp allProj)
            (fixFileImportStatements srcDir f allComp allProj).
Proof.
  unfold fixFileImportStatements. emits; simpl; eauto.
Qed.

Lemma fixAllImportStatements_events context s :
  ∃ evs,
    emitted (fixAllImportStatements context) s evs
    ∧ Forall (rewriterEvent (contextSrcDir context)
                (keyBy ComponentConfig.id (components s))
                (keyBy ProjectConfig.projectId (projects s))) evs.
Proof.
  set (E := rewriterEvent _ _ _).
  assert (emitsOnly E
            (forM_ (components s) (λ compConfig,
               fixComponentImportStatements (contextSrcDir context) compConfig
                 (keyBy ComponentConfig.id (components s))
                 (keyBy ProjectConfig.projectId (projects s))))) as H.
  { apply emitsOnly_forM_. intros c. unfold fixComponentImportStatements.
    repeat first [ apply fixFileImportStatements_events
                 | apply emitsOnly_ret
                 | apply emitsOnly_bind; [|intros ?]
                 | match goal with
                   | |- emitsOnly _ (if ?b then _ else _) => destruct b
                   end ]. }
  exact (H s).
Qed.

Lemma fixAllImportStatements_components context :
  preserves components (fixAllImportStatements context).
Proof.
  unfold fixAllImportStatements, fixComponentImportStatements,
    fixFileImportStatements. preserves.
Qed.

Lemma fixAllImportStatements_projects context :
  preserves projects (fixAllImportStatements context).
Proof.
  unfold fixAllImportStatements, fixComponentImportStatements,
    fixFileImportStatements. preserves.
Qed.

Lemma syncProjects_run opts context s :
  syncProjects opts context s
  = match syncAllBundles opts context s with
    | (Done _, s1) =>
      fixAllImportStatements context
        (log (UpdateConfig (components s1) (Some (projects s1))) s1)
    | (Exit code, s1) => (Exit code, s1)
    | (Throw err, s1) => (Throw err, s1)
    end.
Proof.
  unfold syncProjects, bind.
  by destruct (syncAllBundles opts context s) as [[[]|code|err] s1].
Qed.

(** X29.  The trace of a sync pass is the trace of the merge phase (the
    loop over all bundles: reconciliation, create-only and force writes)
    followed by the trace of persisting and import rewriting.  The merge
    phase reads no file for rewriting.  Rewriting happens only when the
    merge phase has returned, after [updateConfig], and every file it
    writes is computed under the path tables of the final state of the
    pass, which are the arrays that the merge phase left: a table holds,
    under an id, the last entry of that id in the array. *)
Theorem syncProjects_rewrites_last opts context s :
  let s' := (syncProjects opts context s).2 in
  ∃ merging rewriting,
    emitted (syncAllBundles opts context) s merging
    ∧ emitted (syncProjects opts context) s (merging ++ rewriting)
    ∧ Forall mergeEvent merging
    ∧ (rewriting = []
       ∨ (syncAllBundles opts context s).1 = Done ()
         ∧ components s' = components (syncAllBundles opts context s).2
         ∧ projects s' = projects (syncAllBundles opts context s).2
         ∧ ∃ evs allCompConfigs allProjectConfigs,
             rewriting = UpdateConfig (components s') (Some (projects s')) :: evs
             ∧ Forall (rewriterEvent (contextSrcDir context)
                         allCompConfigs allProjectConfigs) evs
             ∧ (∀ k, allCompConfigs !! k
                     = last (filter (λ c, ComponentConfig.id c = k)
                                    (components s')))
             ∧ (∀ k, allProjectConfigs !! k
                     = last (filter (λ p, ProjectConfig.projectId p = k)
                                    (projects s')))).
Proof.
  intros s'. subst s'. unfold emitted. rewrite syncProjects_run.
  destruct (syncAllBundles_events opts context s) as (merging & Hm & HE).
  unfold emitted in Hm. exists merging.
  destruct (syncAllBundles opts context s) as [[[]|code|err] s1];
    simpl in Hm |- *.
  - set (s2 := log _ s1).
    destruct (fixAllImportStatements_events context s2) as (evs & Hev & Hevs).
    pose proof (fixAllImportStatements_components context s2) as Hcs.
    pose proof (fixAllImportStatements_projects context s2) as Hps.
    unfold emitted in Hev. simpl in Hcs, Hps, Hevs, Hev.
    eexists (_ :: evs). split; [done|]. split.
    { rewrite Hev, Hm. by repeat (rewrite <- app_assoc; simpl). }
    split; [done|]. right. rewrite Hcs, Hps.
    split; [done|]. split; [done|]. split; [done|].
    exists evs, (keyBy ComponentConfig.id (components s1)),
      (keyBy ProjectConfig.projectId (projects s1)).
    split; [done|]. split; [done|].
    split; intros k; apply keyBy_lookup.
  - exists []. rewrite app_nil_r. split; [done|]. split; [done|].
    split; [done|by left].
  - exists []. rewrite app_nil_r. split; [done|]. split; [done|].
    split; [done|by left].
Qed.

(** ** The stand-alone fix-imports command *)

Lemma fixImportsEvent_reconciler srcDir tree cs c evs :
  c ∈ cs →
  Forall (reconcilerEvent srcDir tree (componentPaths c)) evs →
  Forall (fixImportsEvent srcDir tree cs) evs.
Proof.
  intros Hc H. eapply Forall_impl; [exact H|].
  intros [] He; simpl in *; try done; eauto.
Qed.

Lemma fixImportsEvent_mono srcDir tree cs1 cs2 evs :
  cs1 ⊆ cs2 →
  Forall (fixImportsEvent srcDir tree cs1) evs →
  Forall (fixImportsEvent srcDir tree cs2) evs.
Proof.
  intros Hsub H. eapply Forall_impl; [exact H|].
  intros [] He; simpl in *; try done; destruct He as (c & Hc & He); eauto.
Qed.

(** The loop of [fixImports] from position [k] on. *)
Lemma fixImports_loop srcDir idx n k s :
  let run := forM_ (seq k n) (λ i, fixComponentPaths srcDir i idx) s in
  projects run.2 = projects s
  ∧ fs run.2 = fs s
  ∧ ∃ evs,
      trace run.2 = trace s ++ evs
      ∧ Forall (fixImportsEvent srcDir (fs s) (drop k (components s))) evs.
Proof.
  forget_environment.
  revert k s. induction n as [|n IH]; intros k s; simpl.
  { repeat split; try done. exists []. by rewrite app_nil_r. }
  destruct (components s !! k) as [c|] eqn:Hc.
  - destruct (fixComponentPaths_reconciling srcDir k idx s c Hc)
      as (c' & (Hfs & Hps & Hcs & (evs1 & Htr & Hevs1) & _) & _).
    assert (c ∈ drop k (components s)) as Hin.
    { apply list_elem_of_lookup. exists 0%nat. by rewrite lookup_drop, Nat.add_0_r. }
    pose proof (fixImportsEvent_reconciler _ _ _ _ _ Hin Hevs1) as Hevs1'.
    unfold bind.
    destruct (fixComponentPaths srcDir k idx s) as [[[]|code|err] s1];
      simpl in *; [|by eauto..].
    destruct (IH (S k) s1) as (Hps2 & Hfs2 & evs2 & Htr2 & Hevs2).
    rewrite Hps2, Hfs2, Htr2, Htr. split; [done|]. split; [done|].
    exists (evs1 ++ evs2). split; [by rewrite app_assoc|].
    apply Forall_app. split; [done|].
    rewrite Hfs, Hcs in Hevs2. rewrite drop_insert_lt in Hevs2 by lia.
    eapply fixImportsEvent_mono; [|exact Hevs2].
    intros x Hx. rewrite (drop_S _ c) by done. set_solver.
  - unfold fixComponentPaths, bind, read_component. rewrite Hc. simpl.
    repeat split; try done. exists []. by rewrite app_nil_r.
Qed.

Lemma fixImports_run context s :
  fixImports context s
  = match forM_ (seq 0 (length (components s)))
                (λ i, fixComponentPaths (contextSrcDir context) i
                        (groupBy path_basename
                           (glob_sync (contextSrcDir context) (fs s)))) s with
    | (Done _, s1) =>
      fixAllImportStatements context
        (log (UpdateConfig (components s1) None) s1)
    | (Exit code, s1) => (Exit code, s1)
    | (Throw err, s1) => (Throw err, s1)
    end.
Proof.
  unfold fixImports, bind, buildBaseNameToFiles, get_components. simpl.
  by destruct (forM_ _ _ s) as [[[]|code|err] s1].
Qed.

(** C10.  The fix-imports command leaves [config.projects] as it is,
    whatever its outcome.  Every probe of the file tree, every move
    warning and every fatal error it emits is for a path of a component
    entry; what it persists are the components, without the projects;
    the rest of its events are the reads and writes of the import
    rewriter. *)
Theorem fixImports_components_only context s :
  let run := fixImports context s in
  projects run.2 = projects s
  ∧ ∃ evs,
      emitted (fixImports context) s evs
      ∧ Forall (fixImportsEvent (contextSrcDir context) (fs s) (components s))
               evs.
Proof.
  simpl. unfold emitted. rewrite fixImports_run.
  destruct (fixImports_loop (contextSrcDir context)
              (groupBy path_basename (glob_sync (contextSrcDir context) (fs s)))
              (length (components s)) 0 s)
    as (Hps & Hfs & evs1 & Htr & Hevs1).
  rewrite drop_0 in Hevs1.
  destruct (forM_ _ _ s) as [[[]|code|err] s1]; simpl in *; [|by eauto..].
  set (s2 := log _ s1).
  destruct (fixAllImportStatements_events context s2) as (evs2 & Hev2 & Hevs2).
  pose proof (fixAllImportStatements_projects context s2) as Hps2.
  unfold emitted in Hev2. simpl in Hps2, Hev2.
  rewrite Hps2, Hev2, Htr. split; [done|].
  exists (evs1 ++ UpdateConfig (components s1) None :: evs2).
  split; [by repeat (rewrite <- app_assoc; simpl)|].
  apply Forall_app. split; [done|]. constructor; [done|].
  eapply Forall_impl; [exact Hevs2|]. by intros [].
Qed.

(** ** Further properties of the path reconciler *)

(** X1.  With an index that [L.groupBy] built, [findSrcDirPath] is
    decided by the probe of [srcDir/expectedPath], by the files of the
    index that have the bare name of [expectedPath] and, when there is no
    such file, by what the index inherits under that name.  It returns
    the expected path if the file exists, or if there is no such file and
    nothing is inherited under the name; it returns the relative path of
    the only such file; it calls [process.exit(1)] for two or more such
    files.  When there is no such file and a value is inherited under the
    name, it throws if the [length] of the value is 1 and calls
    [process.exit(1)] otherwise.  Of an array of the index the element
    [[0]] it reads is always there. *)
Theorem findSrcDirPath_decision_table srcDir expectedPath allFiles s :
  (findSrcDirPath srcDir expectedPath (groupBy path_basename allFiles) s).1
  = if bool_decide (is_Some (fs s !! path_join srcDir expectedPath))
    then Done expectedPath
    else match filter (λ f, path_basename f = path_basename expectedPath)
                      allFiles with
         | [] =>
           match JsObject.inherited (path_basename expectedPath) with
           | None => Done expectedPath
           | Some value =>
             if bool_decide (JsObject.length_of value = Some 1%nat)
             then Throw "TypeError"
             else Exit 1
           end
         | [newPath] => Done (path_relative srcDir newPath)
         | _ :: _ :: _ => Exit 1
         end.
Proof.
  rewrite findSrcDirPath_run. simpl.
  destruct (bool_decide _); [done|].
  rewrite groupBy_lookup.
  destruct (filter _ allFiles) as [|x [|y rest]]; [|done..].
  destruct (JsObject.inherited _) as [value|]; [|done].
  by destruct (bool_decide _).
Qed.

(** X2.  When the files of the index exist and [path.join srcDir] undoes
    [path.relative srcDir] on them, a path that [findSrcDirPath] returns
    and that is not the expected one names an existing file. *)
Theorem findSrcDirPath_resolved_exists srcDir expectedPath allFiles s r :
  (∀ f, f ∈ allFiles → is_Some (fs s !! f)) →
  (∀ f, f ∈ allFiles → path_join srcDir (path_relative srcDir f) = f) →
  (findSrcDirPath srcDir expectedPath (groupBy path_basename allFiles) s).1
    = Done r →
  r ≠ expectedPath →
  is_Some (fs s !! path_join srcDir r)
  ∧ fs s !! path_join srcDir expectedPath = None
  ∧ path_basename (path_join srcDir r) = path_basename expectedPath.
Proof.
  intros Hexist Hround Hrun Hne.
  pose proof (findSrcDirPath_moved _ _ _ _ _ Hrun Hne) as Hmissing.
  rewrite findSrcDirPath_run in Hrun. simpl in Hrun.
  rewrite bool_decide_eq_false_2 in Hrun
    by (rewrite Hmissing; by intros [? ?]).
  rewrite groupBy_lookup in Hrun.
  destruct (filter _ allFiles) as [|f [|g rest]] eqn:Hfilter;
    simpl in Hrun; [| |done].
  { destruct (JsObject.inherited _) as [value|]; [|by injection Hrun].
    by destruct (bool_decide _). }
  injection Hrun as <-.
  assert (f ∈ filter (λ f, path_basename f = path_basename expectedPath)
                     allFiles) as Hf
    by (rewrite Hfilter; apply list_elem_of_singleton; done).
  apply list_elem_of_filter in Hf as [Hname Hin].
  rewrite (Hround f Hin). auto.
Qed.

Lemma findSrcDirPath_again srcDir expectedPath allFiles s s' r :
  (∀ f, f ∈ allFiles → is_Some (fs s !! f)) →
  (∀ f, f ∈ allFiles → path_join srcDir (path_relative srcDir f) = f) →
  (findSrcDirPath srcDir expectedPath (groupBy path_basename allFiles) s).1
    = Done r →
  fs s' = fs s →
  (findSrcDirPath srcDir r (groupBy path_basename allFiles) s').1 = Done r.
Proof.
  intros Hexist Hround Hrun Hfs.
  rewrite (findSrcDirPath_fs_only _ _ _ s' s) by done.
  destruct (decide (r = expectedPath)) as [->|Hne]; [done|].
  assert (is_Some (fs s !! path_join srcDir r)) as Hr.
  { pose proof (findSrcDirPath_moved _ _ _ _ _ Hrun Hne) as Hmissing.
    rewrite findSrcDirPath_run in Hrun. simpl in Hrun.
    rewrite bool_decide_eq_false_2 in Hrun
      by (rewrite Hmissing; by intros [? ?]).
    rewrite groupBy_lookup in Hrun.
    destruct (filter _ allFiles) as [|f [|g rest]] eqn:Hfilter;
      simpl in Hrun; [| |done].
    { destruct (JsObject.inherited _) as [value|]; [|by injection Hrun].
      by destruct (bool_decide _). }
    injection Hrun as <-.
    assert (f ∈ filter (λ f, path_basename f = path_basename expectedPath)
                       allFiles) as Hf
      by (rewrite Hfilter; apply list_elem_of_singleton; done).
    apply list_elem_of_filter in Hf as [_ Hin].
    rewrite (Hround f Hin). auto. }
  by rewrite (findSrcDirPath_exists _ _ _ _ Hr).
Qed.

(** X3.  Under the same conditions [findSrcDirPath] is idempotent: asked
    about the path it has returned, in any state with the same file tree,
    it returns that path again. *)
Theorem findSrcDirPath_idempotent srcDir expectedPath allFiles s s' r :
  (∀ f, f ∈ allFiles → is_Some (fs s !! f)) →
  (∀ f, f ∈ allFiles → path_join srcDir (path_relative srcDir f) = f) →
  (findSrcDirPath srcDir expectedPath (groupBy path_basename allFiles) s).1
    = Done r →
  fs s' = fs s →
  findSrcDirPath srcDir r (groupBy path_basename allFiles) s'
  = (Done r, log (ExistsSync (path_join srcDir r)) s').
Proof.
  intros Hexist Hround Hrun Hfs.
  pose proof (findSrcDirPath_again _ _ _ _ s' _ Hexist Hround Hrun Hfs) as H.
  destruct (findSrcDirPath srcDir r _ s') as [o s1] eqn:Hrun'.
  simpl in H. subst o.
  by rewrite (findSrcDirPath_Done _ _ _ _ _ _ Hrun').
Qed.

Lemma moveWarning_same d : moveWarning d d = [].
Proof. unfold moveWarning, strictNe. by rewrite String.eqb_refl. Qed.

(** X4.  Reconciling an entry twice finds nothing to fix the second
    time.  When the files of the index exist, [path.join srcDir] undoes
    [path.relative srcDir] on them and the three paths of the entry
    resolve, a second [fixComponentPaths] on the state that the first one
    left returns normally, leaves [config.components] as it is and prints
    no warning: it only probes the tree. *)
Theorem fixComponentPaths_settles srcDir i allFiles s c r k m :
  let idx := groupBy path_basename allFiles in
  (∀ f, f ∈ allFiles → is_Some (fs s !! f)) →
  (∀ f, f ∈ allFiles → path_join srcDir (path_relative srcDir f) = f) →
  components s !! i = Some c →
  (findSrcDirPath srcDir (ComponentConfig.renderModuleFilePath c) idx s).1
    = Done r →
  (findSrcDirPath srcDir (ComponentConfig.cssFilePath c) idx s).1 = Done k →
  (if isLocalModulePath (ComponentConfig.modulePath (ComponentConfig.importSpec c))
   then (findSrcDirPath srcDir
           (ComponentConfig.modulePath (ComponentConfig.importSpec c)) idx s).1
        = Done m
   else m = ComponentConfig.modulePath (ComponentConfig.importSpec c)) →
  let s1 := (fixComponentPaths srcDir i idx s).2 in
  fixComponentPaths srcDir i idx s1
  = (Done (),
     {| fs := fs s1;
        components := components s1;
        projects := projects s1;
        trace :=
          trace s1
          ++ ExistsSync (path_join srcDir r)
          :: ExistsSync (path_join srcDir k)
          :: (if isLocalModulePath m then [ExistsSync (path_join srcDir m)]
              else []) |}).
Proof.
  intros idx Hexist Hround Hc Hr Hk Hm s1. subst s1.
  rewrite (fixComponentPaths_Done srcDir i idx s c r k m Hc Hr Hk Hm). simpl.
  set (c' := ComponentConfig.set_modulePath m _).
  match goal with |- fixComponentPaths _ _ _ ?S = _ => set (s1 := S) end.
  assert (i < length (components s))%nat as Hlen by (by eapply lookup_lt_Some).
  assert (components s1 !! i = Some c') as Hc'
    by (by apply list_lookup_insert_eq).
  assert (fs s1 = fs s) as Hfs by done.
  assert ((findSrcDirPath srcDir (ComponentConfig.renderModuleFilePath c')
             idx s1).1 = Done r) as Hr'
    by (by eapply findSrcDirPath_again).
  assert ((findSrcDirPath srcDir (ComponentConfig.cssFilePath c') idx s1).1
          = Done k) as Hk'
    by (by eapply findSrcDirPath_again).
  assert (if isLocalModulePath
               (ComponentConfig.modulePath (ComponentConfig.importSpec c'))
          then (findSrcDirPath srcDir
                  (ComponentConfig.modulePath (ComponentConfig.importSpec c'))
                  idx s1).1 = Done m
          else m = ComponentConfig.modulePath (ComponentConfig.importSpec c'))
    as Hm'.
  { change (ComponentConfig.modulePath (ComponentConfig.importSpec c')) with m.
    destruct (isLocalModulePath m) eqn:Hlocal'; [|done].
    destruct (isLocalModulePath
                (ComponentConfig.modulePath (ComponentConfig.importSpec c)))
      eqn:Hlocal.
    - by eapply findSrcDirPath_again.
    - subst m. congruence. }
  rewrite (fixComponentPaths_Done srcDir i idx s1 c' r k m Hc' Hr' Hk' Hm').
  unfold fixComponentPathsEvents.
  change (ComponentConfig.renderModuleFilePath c') with r.
  change (ComponentConfig.cssFilePath c') with k.
  change (ComponentConfig.modulePath (ComponentConfig.importSpec c')) with m.
  rewrite !moveWarning_same. simpl.
  replace (ComponentConfig.set_modulePath m
             (ComponentConfig.set_cssFilePath k
                (ComponentConfig.set_renderModuleFilePath r c'))) with c'
    by done.
  unfold s1. simpl. rewrite list_insert_insert_eq.
  by destruct (isLocalModulePath m).
Qed.

(** ** The project files *)

Lemma reconcilePath_project_Done srcDir idx declared i set s p r :
  projects s !! i = Some p →
  (findSrcDirPath srcDir declared idx s).1 = Done r →
  set declared p = p →
  reconcilePath srcDir idx declared (λ r, update_project i (set r)) s
  = (Done (),
     {| fs := fs s;
        components := components s;
        projects := <[i := set r p]> (projects s);
        trace := trace s ++ ExistsSync (path_join srcDir declared)
                         :: moveWarning declared r |}).
Proof.
  intros Hp Hrun Hset. rewrite (reconcilePath_project _ _ _ _ _ _ _ Hp).
  destruct (findSrcDirPath srcDir declared idx s) as [o s1].
  simpl in Hrun. subst o.
  destruct (strictNe r declared) eqn:Hne; [done|].
  apply strictNe_false in Hne as ->. rewrite Hset.
  by rewrite list_insert_id.
Qed.

(** [fixProjectFilePaths] when both paths resolve. *)
Lemma fixProjectFilePaths_Done srcDir i idx s p r k :
  projects s !! i = Some p →
  (findSrcDirPath srcDir (ProjectConfig.contextFilePath p) idx s).1 = Done r →
  (findSrcDirPath srcDir (ProjectConfig.fontsFilePath p) idx s).1 = Done k →
  fixProjectFilePaths srcDir i idx s
  = (Done (),
     {| fs := fs s;
        components := components s;
        projects :=
          <[i := ProjectConfig.set_fontsFilePath k
                   (ProjectConfig.set_contextFilePath r p)]> (projects s);
        trace :=
          trace s
          ++ ExistsSync (path_join srcDir (ProjectConfig.contextFilePath p))
          :: moveWarning (ProjectConfig.contextFilePath p) r
          ++ ExistsSync (path_join srcDir (ProjectConfig.fontsFilePath p))
          :: moveWarning (ProjectConfig.fontsFilePath p) k |}).
Proof.
  intros Hp Hr Hk. rewrite fixProjectFilePaths_steps.
  assert (i < length (projects s))%nat as Hlen by (by eapply lookup_lt_Some).
  rewrite (bind_Done _ _ _ _ _ (read_project_Some _ _ _ Hp)).
  rewrite (bind_Done _ _ _ _ _
             (reconcilePath_project_Done _ _ _ _
                ProjectConfig.set_contextFilePath _ _ _ Hp Hr
                ltac:(by destruct p))).
  set (p1 := ProjectConfig.set_contextFilePath r p).
  match goal with |- bind _ _ ?S = _ => set (S1 := S) end.
  assert (projects S1 !! i = Some p1) as Hp1
    by (by apply list_lookup_insert_eq).
  rewrite (bind_Done _ _ _ _ _ (read_project_Some _ _ _ Hp1)).
  assert ((findSrcDirPath srcDir (ProjectConfig.fontsFilePath p1) idx S1).1
          = Done k) as Hk1
    by (by rewrite (findSrcDirPath_fs_only _ _ _ S1 s)).
  rewrite (reconcilePath_project_Done _ _ _ _
             ProjectConfig.set_fontsFilePath _ _ _ Hp1 Hk1
             ltac:(by destruct p)).
  unfold S1. simpl. rewrite list_insert_insert_eq.
  by repeat (rewrite <- app_assoc; simpl).
Qed.

(** X5.  [fixProjectFilePaths] on the entry at position [i] changes
    nothing but that entry, and in it nothing but [contextFilePath] and
    [fontsFilePath]: [projectId] and [contextTypeName] are as before, and
    each of the two paths is as declared or the different path that
    [findSrcDirPath] returned for the declared one.  The component
    entries and the file tree are as before.  This holds for every
    outcome of the call. *)
Theorem fixProjectFilePaths_frame srcDir i idx s p :
  projects s !! i = Some p →
  let s' := (fixProjectFilePaths srcDir i idx s).2 in
  ∃ p',
    projects s' = <[i := p']> (projects s)
    ∧ ProjectConfig.projectId p' = ProjectConfig.projectId p
    ∧ ProjectConfig.contextTypeName p' = ProjectConfig.contextTypeName p
    ∧ reconciledField srcDir idx s
        (ProjectConfig.contextFilePath p) (ProjectConfig.contextFilePath p')
    ∧ reconciledField srcDir idx s
        (ProjectConfig.fontsFilePath p) (ProjectConfig.fontsFilePath p')
    ∧ components s' = components s
    ∧ fs s' = fs s.
Proof.
  intros Hp. simpl. rewrite fixProjectFilePaths_steps.
  assert (i < length (projects s))%nat as Hlen by (by eapply lookup_lt_Some).
  rewrite (bind_Done _ _ _ _ _ (read_project_Some _ _ _ Hp)).
  pose proof (reconcilePath_project srcDir idx (ProjectConfig.contextFilePath p)
                i ProjectConfig.set_contextFilePath s p Hp) as Hstep1.
  destruct (findSrcDirPath srcDir (ProjectConfig.contextFilePath p) idx s)
    as [[r|code|err] s1] eqn:Hrun1.
  - rewrite (bind_Done _ _ _ _ _ Hstep1). clear Hstep1.
    set (p1 := if strictNe r (ProjectConfig.contextFilePath p)
               then ProjectConfig.set_contextFilePath r p else p).
    match goal with |- context [bind _ _ ?S] => set (S1 := S) end.
    assert (projects S1 = <[i := p1]> (projects s)) as Hps1.
    { unfold S1, p1. simpl. destruct (strictNe _ _); [done|].
      by rewrite list_insert_id. }
    assert (projects S1 !! i = Some p1) as Hp1
      by (rewrite Hps1; by apply list_lookup_insert_eq).
    assert (reconciledField srcDir idx s (ProjectConfig.contextFilePath p)
              (ProjectConfig.contextFilePath p1)) as Hctx.
    { unfold p1. destruct (strictNe _ _) eqn:Hne; [|by left].
      apply strictNe_true in Hne. right. split; [done|]. by rewrite Hrun1. }
    assert (ProjectConfig.fontsFilePath p1 = ProjectConfig.fontsFilePath p
            ∧ ProjectConfig.projectId p1 = ProjectConfig.projectId p
            ∧ ProjectConfig.contextTypeName p1 = ProjectConfig.contextTypeName p)
      as (Hfonts & Hpid & Htype)
      by (unfold p1; by destruct (strictNe _ _)).
    assert (fs S1 = fs s) as Hfs1 by done.
    assert (components S1 = components s) as Hcs1 by done.
    clearbody S1 p1.
    rewrite (bind_Done _ _ _ _ _ (read_project_Some _ _ _ Hp1)).
    rewrite (reconcilePath_project _ _ _ _ _ _ _ Hp1), Hfonts.
    destruct (findSrcDirPath srcDir (ProjectConfig.fontsFilePath p) idx S1)
      as [[k|code|err] s2] eqn:Hrun2.
    + exists (if strictNe k (ProjectConfig.fontsFilePath p)
              then ProjectConfig.set_fontsFilePath k p1 else p1).
      simpl. rewrite Hps1, Hfs1, Hcs1.
      destruct (strictNe k _) eqn:Hne; simpl.
      * apply strictNe_true in Hne. rewrite list_insert_insert_eq.
        repeat split; try done.
        right. split; [done|].
        rewrite (findSrcDirPath_fs_only _ _ _ s S1) by done. by rewrite Hrun2.
      * repeat split; try done. by left.
    + apply findSrcDirPath_stop in Hrun2 as (evs & -> & _); [|done].
      exists p1. simpl. rewrite Hps1, Hfs1, Hcs1.
      repeat split; try done. by left.
    + apply findSrcDirPath_stop in Hrun2 as (evs & -> & _); [|done].
      exists p1. simpl. rewrite Hps1, Hfs1, Hcs1.
      repeat split; try done. by left.
  - rewrite (bind_Exit _ _ _ _ _ Hstep1).
    apply findSrcDirPath_stop in Hrun1 as (evs & -> & _); [|done].
    exists p. simpl. rewrite list_insert_id by done.
    repeat split; try done; by left.
  - rewrite (bind_Throw _ _ _ _ _ Hstep1).
    apply findSrcDirPath_stop in Hrun1 as (evs & -> & _); [|done].
    exists p. simpl. rewrite list_insert_id by done.
    repeat split; try done; by left.
Qed.

(** X6.  The first sync of a project.  When no entry of [config.projects]
    has the project id of the bundle, the step makes exactly two writes,
    both create-only (context module, then fonts module), and appends
    the entry whose paths are the file names of the bundle; it probes
    nothing and warns about nothing. *)
Theorem syncProjectFiles_new srcDir idx pc s :
  ProjectMetaBundle.projectId pc ∉ map ProjectConfig.projectId (projects s) →
  syncProjectFiles srcDir idx pc s
  = (Done (),
     {| fs :=
          createOnly
            (path_join srcDir (ProjectMetaBundle.fontsFileName pc))
            (ProjectMetaBundle.fontsModule pc)
            (createOnly
               (path_join srcDir (ProjectMetaBundle.contextFileName pc))
               (ProjectMetaBundle.contextModule pc)
               (fs s));
        components := components s;
        projects := projects s ++ [newProjectConfig pc];
        trace :=
          trace s
          ++ [WriteFileContent
                (path_join srcDir (ProjectMetaBundle.contextFileName pc))
                (ProjectMetaBundle.contextModule pc) false;
              WriteFileContent
                (path_join srcDir (ProjectMetaBundle.fontsFileName pc))
                (ProjectMetaBundle.fontsModule pc) false] |}).
Proof.
  intros Hnew. unfold syncProjectFiles.
  unfold get_projects at 1. unfold bind at 1.
  assert (list_find
            (λ c, ProjectConfig.projectId c = ProjectMetaBundle.projectId pc)
            (projects s) = None) as ->.
  { apply list_find_None, Forall_forall. intros q Hq Heq. apply Hnew.
    apply list_elem_of_fmap. by exists q. }
  rewrite (bind_Done _ _ _ _ _ (writeFileContent_createOnly _ _ _)).
  rewrite (bind_Done _ _ _ _ _ (writeFileContent_createOnly _ _ _)).
  unfold bind, get_projects, set_projects. simpl.
  by repeat (rewrite <- app_assoc; simpl).
Qed.

(** X7.  A later sync of a project.  For the first entry of
    [config.projects] that has the project id of the bundle, when its
    two paths resolve to [r] and [k]: the step prints a move warning for
    each path that differs from its resolved path, stores the resolved
    paths in the entry, and then force-writes the context module at
    [srcDir/r] and the fonts module at [srcDir/k]. *)
Theorem syncProjectFiles_existing srcDir idx pc s i p r k :
  projects s !! i = Some p →
  ProjectConfig.projectId p = ProjectMetaBundle.projectId pc →
  (∀ j q, projects s !! j = Some q → (j < i)%nat →
          ProjectConfig.projectId q ≠ ProjectMetaBundle.projectId pc) →
  (findSrcDirPath srcDir (ProjectConfig.contextFilePath p) idx s).1 = Done r →
  (findSrcDirPath srcDir (ProjectConfig.fontsFilePath p) idx s).1 = Done k →
  syncProjectFiles srcDir idx pc s
  = (Done (),
     {| fs := <[path_join srcDir k := ProjectMetaBundle.fontsModule pc]>
                (<[path_join srcDir r := ProjectMetaBundle.contextModule pc]>
                   (fs s));
        components := components s;
        projects :=
          <[i := ProjectConfig.set_fontsFilePath k
                   (ProjectConfig.set_contextFilePath r p)]> (projects s);
        trace :=
          trace s
          ++ ExistsSync (path_join srcDir (ProjectConfig.contextFilePath p))
          :: moveWarning (ProjectConfig.contextFilePath p) r
          ++ ExistsSync (path_join srcDir (ProjectConfig.fontsFilePath p))
          :: moveWarning (ProjectConfig.fontsFilePath p) k
          ++ [WriteFileContent (path_join srcDir r)
                               (ProjectMetaBundle.contextModule pc) true;
              WriteFileContent (path_join srcDir k)
                               (ProjectMetaBundle.fontsModule pc) true] |}).
Proof.
  intros Hp Hid Hfirst Hr Hk. unfold syncProjectFiles.
  unfold get_projects at 1. unfold bind at 1.
  assert (list_find
            (λ c, ProjectConfig.projectId c = ProjectMetaBundle.projectId pc)
            (projects s) = Some (i, p)) as ->
    by (by apply list_find_Some).
  assert (i < length (projects s))%nat as Hlen by (by eapply lookup_lt_Some).
  rewrite (bind_Done _ _ _ _ _
             (fixProjectFilePaths_Done srcDir i idx s p r k Hp Hr Hk)).
  match goal with |- bind _ _ ?S = _ => set (S1 := S) end.
  set (p' := ProjectConfig.set_fontsFilePath k _) in *.
  assert (projects S1 !! i = Some p') as Hp'
    by (by apply list_lookup_insert_eq).
  rewrite (bind_Done _ _ _ _ _ (read_project_Some _ _ _ Hp')).
  rewrite (bind_Done _ _ _ _ _ (writeFileContent_force _ _ _)).
  match goal with |- bind _ _ ?S = _ => set (S2 := S) end.
  assert (projects S2 !! i = Some p') as Hp'' by done.
  rewrite (bind_Done _ _ _ _ _ (read_project_Some _ _ _ Hp'')).
  rewrite writeFileContent_force.
  unfold S2, S1. simpl.
  by repeat (rewrite <- app_assoc; simpl).
Qed.

(** ** The edges of a sync pass *)

(** X8.  Nothing to sync.  Without [--projects] and with no tracked
    component, [syncProjects] prints that it does not know which projects
    to sync and calls [process.exit(1)]; it fetches, probes, writes and
    persists nothing. *)
Theorem syncProjects_without_projects opts context s :
  SyncArgs.projects opts = [] →
  components s = [] →
  syncProjects opts context s
  = (Exit 1,
     log (ConsoleError
            "Don't know which projects to sync; please specify via --projects")
         s).
Proof.
  intros Hopts Hcs. rewrite syncProjects_run.
  unfold syncAllBundles, syncProjectIds, bind, get_components.
  by rewrite Hopts, Hcs.
Qed.

(** X9.  An ambiguous entry is not overwritten.  For a selected bundle
    whose component is tracked, when no file exists at the declared
    render module path and two or more files of the index have its bare
    name, the sync step ends in [process.exit(1)] right after the
    ambiguity error: the file tree and [config.components] are as they
    were, and nothing has been written. *)
Theorem syncComponentBundle_ambiguous opts cs srcDir allFiles pid acc bundle s i c :
  shouldSyncComponents opts cs (ComponentBundle.id bundle)
                       (ComponentBundle.componentName bundle) = true →
  acc !! ComponentBundle.id bundle = Some i →
  components s !! i = Some c →
  fs s !! path_join srcDir (ComponentConfig.renderModuleFilePath c) = None →
  (2 ≤ length (filter (λ f, path_basename f
                            = path_basename
                                (ComponentConfig.renderModuleFilePath c))
                      allFiles))%nat →
  ∃ msg,
    syncComponentBundle opts cs srcDir (groupBy path_basename allFiles)
                        pid acc bundle s
    = (Exit 1,
       {| fs := fs s;
          components := components s;
          projects := projects s;
          trace :=
            trace s
            ++ [ConsoleLog (syncingMessage
                              (ComponentBundle.componentName bundle)
                              pid (ComponentBundle.id bundle));
                ExistsSync (path_join srcDir
                              (ComponentConfig.renderModuleFilePath c));
                ConsoleError msg] |}).
Proof.
  intros Hsel Hacc Hc Hfs Hmany.
  eexists. unfold syncComponentBundle. rewrite Hsel. simpl.
  unfold console_log. rewrite (bind_Done _ _ _ _ _ (emit_log _ _)). rewrite Hacc.
  set (s0 := log _ s).
  assert (components s0 !! i = Some c) as Hc0 by done.
  assert (fixComponentPaths srcDir i (groupBy path_basename allFiles) s0
          = (Exit 1,
             log (ConsoleError
                    (ambiguityMessage
                       (ComponentConfig.renderModuleFilePath c)
                       (filter (λ f, path_basename f
                                     = path_basename
                                         (ComponentConfig.renderModuleFilePath c))
                               allFiles)
                       (path_basename (ComponentConfig.renderModuleFilePath c))))
                 (log (ExistsSync
                         (path_join srcDir
                            (ComponentConfig.renderModuleFilePath c))) s0)))
    as Hfix.
  { rewrite fixComponentPaths_steps.
    rewrite (bind_Done _ _ _ _ _ (read_component_Some _ _ _ Hc0)).
    apply bind_Exit.
    rewrite (reconcilePath_component _ _ _ _ _ _ _ Hc0).
    rewrite findSrcDirPath_run. simpl.
    rewrite bool_decide_eq_false_2 by (rewrite Hfs; by intros [? ?]).
    rewrite groupBy_lookup.
    destruct (filter _ allFiles) as [|x [|y rest]]; simpl in Hmany;
      [lia|lia|done]. }
  rewrite (bind_Exit _ _ _ _ _ Hfix). unfold s0, log. simpl.
  by repeat (rewrite <- app_assoc; simpl).
Qed.

(** ** The import rewriter *)

Lemma rewritesFiles_ret : rewritesFiles [] (ret ()).
Proof.
  intros s. simpl. split; [done|]. split; [by left|]. split.
  - split; [by intros _ p ?%elem_of_nil|done].
  - exists []. split; [unfold emitted; simpl; by rewrite app_nil_r|done].
Qed.

Lemma rewritesFiles_bind paths1 paths2 (m1 m2 : M unit) :
  rewritesFiles paths1 m1 → rewritesFiles paths2 m2 →
  rewritesFiles (paths1 ++ paths2) (m1 ;; m2).
Proof.
  intros H1 H2 s. destruct (H1 s) as (Hdom1 & Hout1 & Hiff1 & evs1 & Hev1 & Hrw1).
  destruct (m1 s) as [[[]|code|err] s1] eqn:Hrun1; simpl in *.
  - rewrite (bind_Done _ _ _ _ _ Hrun1).
    destruct (H2 s1) as (Hdom2 & Hout2 & Hiff2 & evs2 & Hev2 & Hrw2).
    split; [by rewrite Hdom2|]. split; [done|]. split.
    + rewrite Hiff2, Hdom1. split.
      * intros Hall p [Hp|Hp]%elem_of_app; [by apply Hiff1|by apply Hall].
      * intros Hall p Hp. apply Hall, elem_of_app. by right.
    + exists (evs1 ++ evs2). split.
      { eapply emitted_bind_Done; [exact Hrun1|exact Hev1|exact Hev2]. }
      intros Hdone. rewrite !omap_app.
      destruct (Hrw1 eq_refl) as [-> ->].
      by destruct (Hrw2 Hdone) as [-> ->].
  - destruct Hout1 as [?|?]; done.
  - rewrite (bind_Throw _ _ _ _ _ Hrun1). simpl.
    split; [done|]. split; [done|]. split.
    + split; [done|]. intros Hall.
      assert (Throw err = Done ()) as Habs; [|done].
      apply Hiff1. intros p Hp. apply Hall, elem_of_app. by left.
    + exists evs1. split; [|done].
      apply emitted_bind_stop; [by rewrite Hrun1|exact Hev1].
Qed.

Lemma rewritesFiles_forM_ {A} (paths : A → list string) (l : list A)
    (body : A → M unit) :
  (∀ x, rewritesFiles (paths x) (body x)) →
  rewritesFiles (concat (map paths l)) (forM_ l body).
Proof.
  intros Hbody. induction l as [|x l IH]; simpl.
  - apply rewritesFiles_ret.
  - by apply rewritesFiles_bind.
Qed.

Lemma fixFileImportStatements_missing srcDir f allComp allProj s :
  fs s !! path_join srcDir f = None →
  fixFileImportStatements srcDir f allComp allProj s
  = (Throw "ENOENT", log (ReadFileSync (path_join srcDir f)) s).
Proof.
  intros Hf. unfold fixFileImportStatements, fs_readFileSync, bind.
  by rewrite emit_log, Hf.
Qed.

Lemma fixFileImportStatements_rewrites srcDir f allComp allProj :
  rewritesFiles [path_join srcDir f]
                (fixFileImportStatements srcDir f allComp allProj).
Proof.
  intros s. unfold emitted.
  destruct (fs s !! path_join srcDir f) as [content|] eqn:Hf.
  - rewrite (fixFileImportStatements_run _ _ _ _ _ _ Hf). simpl.
    split; [apply dom_insert_lookup_L; by eexists|].
    split; [by left|]. split.
    + split; [|done]. intros _ p ->%list_elem_of_singleton.
      apply elem_of_dom. by eexists.
    + eexists [_; _]. split; [done|]. done.
  - rewrite (fixFileImportStatements_missing _ _ _ _ _ Hf). simpl.
    split; [done|]. split; [by right|]. split.
    + split; [done|]. intros Hall.
      assert (path_join srcDir f ∈ dom (fs s)) as [x Hx]%elem_of_dom
        by (apply Hall, list_elem_of_singleton; done).
      congruence.
    + eexists [_]. split; [done|]. done.
Qed.

Lemma fixComponentImportStatements_rewrites srcDir c allComp allProj :
  rewritesFiles (map (path_join srcDir) (rewrittenPaths c))
                (fixComponentImportStatements srcDir c allComp allProj).
Proof.
  unfold fixComponentImportStatements, rewrittenPaths.
  change (map (path_join srcDir) (?a :: ?b :: ?r))
    with ([path_join srcDir a] ++ [path_join srcDir b] ++ map (path_join srcDir) r).
  apply rewritesFiles_bind; [apply fixFileImportStatements_rewrites|].
  apply rewritesFiles_bind; [apply fixFileImportStatements_rewrites|].
  destruct (isLocalModulePath _).
  - apply fixFileImportStatements_rewrites.
  - apply rewritesFiles_ret.
Qed.

(** X10.  The import rewriter neither creates nor removes a file.  It
    returns exactly when the render module, the css file and, if its
    module path is local, the module file of every tracked component
    exist; otherwise it raises [ENOENT].  When it returns, it has read
    each of these files once and force-written each of them once,
    component by component in the order of [config.components]. *)
Theorem fixAllImportStatements_rewrites context s :
  let paths :=
    concat (map (λ c, map (path_join (contextSrcDir context))
                          (rewrittenPaths c))
                (components s)) in
  let run := fixAllImportStatements context s in
  dom (fs run.2) = dom (fs s)
  ∧ (run.1 = Done () ∨ run.1 = Throw "ENOENT")
  ∧ (run.1 = Done () ↔ ∀ p, p ∈ paths → p ∈ dom (fs s))
  ∧ ∃ evs,
      emitted (fixAllImportStatements context) s evs
      ∧ Forall (rewriterEvent (contextSrcDir context)
                  (keyBy ComponentConfig.id (components s))
                  (keyBy ProjectConfig.projectId (projects s))) evs
      ∧ (run.1 = Done () →
         omap readPath evs = paths ∧ omap writePath evs = paths).
Proof.
  intros paths run.
  pose proof (rewritesFiles_forM_
                (λ c, map (path_join (contextSrcDir context)) (rewrittenPaths c))
                (components s)
                (λ c, fixComponentImportStatements (contextSrcDir context) c
                        (keyBy ComponentConfig.id (components s))
                        (keyBy ProjectConfig.projectId (projects s)))
                (λ c, fixComponentImportStatements_rewrites _ c _ _) s)
    as (Hdom & Hout & Hiff & evs & Hev & Hrw).
  split; [exact Hdom|]. split; [exact Hout|]. split; [exact Hiff|].
  exists evs. split; [exact Hev|]. split; [|exact Hrw].
  destruct (fixAllImportStatements_events context s) as (evs' & Hev' & Hevs').
  by rewrite (emitted_inj _ _ _ _ Hev Hev').
Qed.

(** X11.  Every file that a sync pass or the fix-imports command probes,
    reads or writes is addressed as [path.join(srcDir, p)], where
    [srcDir] is [path.join(rootDir, config.srcDir)]: no call on [fs] or
    on [writeFileContent] is given any other path. *)
Theorem passes_address_files_by_srcDir opts context :
  emitsOnly (joinsSrcDir (contextSrcDir context)) (syncProjects opts context)
  ∧ emitsOnly (joinsSrcDir (contextSrcDir context)) (fixImports context).
Proof.
  split.
  - unfold syncProjects, syncAllBundles, syncProjectBundle, syncProjectFiles,
      syncComponentBundle, fixAllImportStatements,
      fixComponentImportStatements, fixFileImportStatements,
      fixProjectFilePaths, fixComponentPaths, findSrcDirPath, updateConfig,
      console_log, console_warn, console_error, process_exit.
    emits; simpl; eauto.
  - unfold fixImports, fixAllImportStatements, fixComponentImportStatements,
      fixFileImportStatements, fixComponentPaths, findSrcDirPath,
      updateConfig, console_log, console_warn, console_error, process_exit.
    emits; simpl; eauto.
Qed.

(** ** The tracked entries *)

Lemma preserves_update_component {B} (g : ComponentConfig.t → B) i f :
  (∀ c, g (f c) = g c) →
  preserves (λ s, map g (components s)) (update_component i f).
Proof.
  intros Hg s. unfold update_component.
  destruct (components s !! i) as [c|] eqn:Hc; [|done]. simpl.
  rewrite list_fmap_insert, Hg. apply list_insert_id.
  by rewrite list_lookup_fmap, Hc.
Qed.

Lemma preserves_update_project {B} (g : ProjectConfig.t → B) i f :
  (∀ p, g (f p) = g p) →
  preserves (λ s, map g (projects s)) (update_project i f).
Proof.
  intros Hg s. unfold update_project.
  destruct (projects s !! i) as [p|] eqn:Hp; [|done]. simpl.
  rewrite list_fmap_insert, Hg. apply list_insert_id.
  by rewrite list_lookup_fmap, Hp.
Qed.

Lemma fixComponentPaths_entries {B} (g : ComponentConfig.t → B) srcDir i idx :
  (∀ r c, g (ComponentConfig.set_renderModuleFilePath r c) = g c) →
  (∀ r c, g (ComponentConfig.set_cssFilePath r c) = g c) →
  (∀ r c, g (ComponentConfig.set_modulePath r c) = g c) →
  preserves (λ s, map g (components s)) (fixComponentPaths srcDir i idx).
Proof.
  intros H1 H2 H3.
  unfold fixComponentPaths, findSrcDirPath, console_warn, console_error.
  repeat first
    [ apply preserves_ret
    | (apply preserves_update_component; intros ?; auto)
    | apply preserves_bind; [|intros ?]
    | match goal with
      | |- preserves _ (if ?b then _ else _) => destruct b
      | |- preserves _ (match ?x with _ => _ end) => destruct x
      | |- preserves _ (let _ := _ in _) => cbv zeta
      end
    | solve [preserves_prim] ].
Qed.

(** X12.  The fix-imports command keeps the tracked components: the
    entries of [config.components] are as many as before, in the same
    order, each with the [id], [name], [type] and [projectId] it had,
    whatever the outcome of the command. *)
Theorem fixImports_keeps_components context s :
  map componentIdentity (components (fixImports context s).2)
  = map componentIdentity (components s).
Proof.
  revert s.
  change (preserves (λ s, map componentIdentity (components s))
                    (fixImports context)).
  unfold fixImports, fixAllImportStatements, fixComponentImportStatements,
    fixFileImportStatements, updateConfig, buildBaseNameToFiles.
  repeat first
    [ apply fixComponentPaths_entries; intros ? ?; reflexivity
    | apply preserves_ret
    | apply preserves_forM_; intros ?
    | apply preserves_bind; [|intros ?]
    | match goal with
      | |- preserves _ (if ?b then _ else _) => destruct b
      | |- preserves _ (let _ := _ in _) => cbv zeta
      end
    | solve [preserves_prim] ].
Qed.

(** *** Computations that keep the tracked entries *)

Lemma keepsEntries_same {A} (m : M A) :
  preserves components m → preserves projects m → keepsEntries m.
Proof. intros Hc Hp s. by rewrite Hc, Hp. Qed.

Lemma keepsEntries_identity {A} (m : M A) :
  preserves (λ s, map componentIdentity (components s)) m →
  preserves (λ s, map projectIdentity (projects s)) m →
  keepsEntries m.
Proof.
  intros Hc Hp s. specialize (Hc s). specialize (Hp s). simpl in *.
  by rewrite Hc, Hp.
Qed.

Lemma keepsEntries_ret {A} (a : A) : keepsEntries (ret a).
Proof. by intros s. Qed.

Lemma keepsEntries_bind {A B} (m : M A) (k : A → M B) :
  keepsEntries m → (∀ a, keepsEntries (k a)) → keepsEntries (bind m k).
Proof.
  intros Hm Hk s. unfold bind. specialize (Hm s).
  destruct (m s) as [[a|c|e] s1]; simpl in *; [|done..].
  destruct Hm as [Hc Hp]. destruct (Hk a s1) as [Hc' Hp'].
  split; etrans; eauto.
Qed.

Lemma keepsEntries_forM_ {A} (l : list A) (body : A → M unit) :
  (∀ x, keepsEntries (body x)) → keepsEntries (forM_ l body).
Proof.
  intros Hbody. induction l as [|x l IH]; simpl.
  - apply keepsEntries_ret.
  - apply keepsEntries_bind; auto.
Qed.

Lemma keepsEntries_foldM {A B} (l : list A) (body : B → A → M B) b :
  (∀ b x, keepsEntries (body b x)) → keepsEntries (foldM l body b).
Proof.
  intros Hbody. revert b. induction l as [|x l IH]; intros b; simpl.
  - apply keepsEntries_ret.
  - apply keepsEntries_bind; auto.
Qed.

(** [config.components.push(x)]. *)
Lemma keepsEntries_push_component {B} x (k : list ComponentConfig.t → M B) :
  (∀ cs, keepsEntries (k cs)) →
  keepsEntries (let* cs := get_components in
                set_components (cs ++ [x]) ;; k cs).
Proof.
  intros Hk s. unfold bind, get_components, set_components. simpl.
  match goal with
  | |- context [k (components s) ?s1] =>
    destruct (Hk (components s) s1) as [Hc Hp]
  end.
  simpl in *. split; [|done].
  etrans; [|exact Hc]. rewrite fmap_app. by apply prefix_app_r.
Qed.

(** [config.projects.push(c)]. *)
Lemma keepsEntries_push_project c :
  keepsEntries (let* ps := get_projects in set_projects (ps ++ [c])).
Proof.
  intros s. unfold bind, get_projects, set_projects. simpl.
  split; [done|]. rewrite fmap_app. by apply prefix_app_r.
Qed.

Lemma fixProjectFilePaths_entries {B} (g : ProjectConfig.t → B) srcDir i idx :
  (∀ r c, g (ProjectConfig.set_contextFilePath r c) = g c) →
  (∀ r c, g (ProjectConfig.set_fontsFilePath r c) = g c) →
  preserves (λ s, map g (projects s)) (fixProjectFilePaths srcDir i idx).
Proof.
  intros H1 H2.
  unfold fixProjectFilePaths, findSrcDirPath, console_warn, console_error.
  repeat first
    [ apply preserves_ret
    | (apply preserves_update_project; intros ?; auto)
    | apply preserves_bind; [|intros ?]
    | match goal with
      | |- preserves _ (if ?b then _ else _) => destruct b
      | |- preserves _ (match ?x with _ => _ end) => destruct x
      | |- preserves _ (let _ := _ in _) => cbv zeta
      end
    | solve [preserves_prim] ].
Qed.

Lemma fixComponentPaths_keepsEntries srcDir i idx :
  keepsEntries (fixComponentPaths srcDir i idx).
Proof.
  apply keepsEntries_identity.
  - apply fixComponentPaths_entries; intros ? ?; reflexivity.
  - unfold fixComponentPaths, findSrcDirPath. preserves.
Qed.

Lemma fixProjectFilePaths_keepsEntries srcDir i idx :
  keepsEntries (fixProjectFilePaths srcDir i idx).
Proof.
  apply keepsEntries_identity.
  - unfold fixProjectFilePaths, findSrcDirPath. preserves.
  - apply fixProjectFilePaths_entries; intros ? ?; reflexivity.
Qed.

Ltac keepsEntries :=
  repeat first
    [ apply keepsEntries_ret
    | apply fixComponentPaths_keepsEntries
    | apply fixProjectFilePaths_keepsEntries
    | apply keepsEntries_push_component; intros ?
    | apply keepsEntries_push_project
    | apply keepsEntries_forM_; intros ?
    | apply keepsEntries_foldM; intros ? ?
    | apply keepsEntries_bind; [|intros ?]
    | match goal with
      | |- keepsEntries (if ?b then _ else _) => destruct b
      | |- keepsEntries (match ?x with _ => _ end) => destruct x
      | |- keepsEntries (let _ := _ in _) => cbv zeta
      end
    | solve [apply keepsEntries_same; preserves_prim] ].

(** X13.  A sync pass keeps the tracked entries: after [syncProjects],
    whatever its outcome, [config.components] starts with the entries it
    had, in their order and each with its [id], [name], [type] and
    [projectId], and [config.projects] starts with the entries it had,
    each with its [projectId] and [contextTypeName].  A pass only
    appends entries. *)
Theorem syncProjects_keeps_entries opts context s :
  let s' := (syncProjects opts context s).2 in
  map componentIdentity (components s)
    `prefix_of` map componentIdentity (components s')
  ∧ map projectIdentity (projects s)
      `prefix_of` map projectIdentity (projects s').
Proof.
  cbv zeta. revert s.
  change (keepsEntries (syncProjects opts context)).
  unfold syncProjects, syncAllBundles, syncProjectBundle, syncProjectFiles,
    syncComponentBundle, fixAllImportStatements,
    fixComponentImportStatements, fixFileImportStatements, updateConfig,
    buildBaseNameToFiles.
  keepsEntries.
Qed.

(** ** Ids stay pairwise different *)

Lemma keyByRef_snoc {A} (f : A → string) (l : list A) x :
  keyByRef f (l ++ [x]) = <[f x := length l]> (keyByRef f l).
Proof.
  unfold keyByRef. rewrite imap_app, foldl_app. simpl.
  by rewrite Nat.add_0_r.
Qed.

Lemma keyByRef_is_Some {A} (f : A → string) (l : list A) k :
  k ∈ map f l → is_Some (keyByRef f l !! k).
Proof.
  induction l as [|x l IH] using rev_ind; [by intros ?%elem_of_nil|].
  rewrite fmap_app, keyByRef_snoc, elem_of_app. simpl.
  rewrite list_elem_of_singleton. intros [Hk| ->].
  - destruct (decide (f x = k)) as [Heq|Hne].
    + rewrite Heq, lookup_insert_eq. eauto.
    + rewrite lookup_insert_ne by done. auto.
  - rewrite lookup_insert_eq. eauto.
Qed.

(** A table that [keyByRef] built sends an id to a position that holds
    an entry of that id. *)
Lemma keyByRef_lookup {A} (f : A → string) (l : list A) k i :
  keyByRef f l !! k = Some i → ∃ x, l !! i = Some x ∧ f x = k.
Proof.
  revert i. induction l as [|x l IH] using rev_ind; intros i; [done|].
  rewrite keyByRef_snoc.
  destruct (decide (f x = k)) as [Heq|Hne].
  - rewrite Heq, lookup_insert_eq. intros [= <-]. exists x.
    split; [|done]. by apply list_lookup_middle.
  - rewrite lookup_insert_ne by done. intros (y & Hy & Hf)%IH.
    exists y. split; [|done]. by apply lookup_app_l_Some.
Qed.

Lemma bind_frame {A B C} (f : State → C) (m : M A) (k : A → M B) s
    (Q : outcome B * State → Prop) :
  preserves f m →
  (∀ a s1, f s1 = f s → Q (k a s1)) →
  (∀ c s1, f s1 = f s → Q (Exit c, s1)) →
  (∀ e s1, f s1 = f s → Q (Throw e, s1)) →
  Q (bind m k s).
Proof.
  intros Hm Hk Hc He. unfold bind. specialize (Hm s).
  destruct (m s) as [[a|c|e] s1]; simpl in *; auto.
Qed.

Lemma tracksResult_stop (f : outcome (gmap string nat)) (s s1 : State) :
  (∀ acc, f ≠ Done acc) →
  NoDup (trackedComponentIds s) →
  trackedComponentIds s1 = trackedComponentIds s →
  tracksResult (f, s1).
Proof.
  intros Hf Hs Hids. split; simpl; [by rewrite Hids|].
  intros acc ->. by destruct (Hf acc).
Qed.

Lemma tracksResult_frame {A} (m : M A) (k : A → M (gmap string nat)) s :
  preserves trackedComponentIds m →
  NoDup (trackedComponentIds s) →
  (∀ a s1, trackedComponentIds s1 = trackedComponentIds s →
           tracksResult (k a s1)) →
  tracksResult (bind m k s).
Proof.
  intros Hm Hs Hk. apply (bind_frame trackedComponentIds); [done..| |];
    intros ? s1 Hids; by eapply tracksResult_stop.
Qed.

Lemma tracksResult_bind {A} (m : M (gmap string nat))
    (k : gmap string nat → M A) s :
  tracksResult (m s) →
  (∀ acc, preserves trackedComponentIds (k acc)) →
  tracksResult (bind m (λ acc, bind (k acc) (λ _, ret acc)) s).
Proof.
  intros [Hn Hd] Hk. unfold bind at 1.
  destruct (m s) as [[acc|c|e] s1]; simpl in *; [|by split..].
  destruct (Hd acc eq_refl) as [Hn1 Hk1].
  apply tracksResult_frame; [done..|].
  intros _ s2 Hids. split; simpl; [by rewrite Hids|].
  intros ? [= <-]. split; by rewrite Hids.
Qed.

Lemma keepsComponentIds_foldM {A} (l : list A)
    (body : gmap string nat → A → M (gmap string nat)) :
  (∀ x, keepsComponentIds (λ acc, body acc x)) →
  keepsComponentIds (λ acc, foldM l body acc).
Proof.
  intros Hbody. induction l as [|x l IH]; intros acc s Hacc; simpl.
  - split; [apply Hacc|]. by intros ? [= <-].
  - unfold bind. destruct (Hbody x acc s Hacc) as [Hn Hd].
    destruct (body acc x s) as [[acc1|c|e] s1]; simpl in *;
      [|by split..].
    apply IH. by apply Hd.
Qed.

Lemma fixComponentPaths_ids srcDir i idx :
  preserves trackedComponentIds (fixComponentPaths srcDir i idx).
Proof. apply fixComponentPaths_entries; intros ? ?; reflexivity. Qed.

Lemma syncComponentBundle_ids opts cs srcDir idx pid bundle :
  keepsComponentIds
    (λ acc, syncComponentBundle opts cs srcDir idx pid acc bundle).
Proof.
  intros acc s [Hn Hk]. unfold syncComponentBundle. cbv zeta.
  destruct (negb _).
  { split; [done|]. by intros ? [= <-]. }
  apply tracksResult_frame; [by preserves_prim|done|].
  intros _ s1 Hs1.
  destruct (acc !! ComponentBundle.id bundle) as [i|] eqn:Hacc.
  - assert (Hn1 : NoDup (trackedComponentIds s1)) by by rewrite Hs1.
    apply tracksResult_frame; [apply fixComponentPaths_ids|done|].
    intros _ s2 Hs2. rewrite Hs1 in Hs2.
    apply tracksResult_frame; [by preserves_prim|by rewrite Hs2|].
    intros c s3 Hs3. rewrite Hs2 in Hs3.
    apply tracksResult_frame; [by preserves_prim|by rewrite Hs3|].
    intros _ s4 Hs4. rewrite Hs3 in Hs4.
    apply tracksResult_frame; [by preserves_prim|by rewrite Hs4|].
    intros c' s5 Hs5. rewrite Hs4 in Hs5.
    apply tracksResult_frame; [by preserves_prim|by rewrite Hs5|].
    intros _ s6 Hs6. rewrite Hs5 in Hs6.
    split; simpl; [by rewrite Hs6|].
    intros ? [= <-]. split; by rewrite Hs6.
  - assert (Hnew : ComponentBundle.id bundle ∉ trackedComponentIds s).
    { intros [x Hx]%Hk. congruence. }
    assert (Hn1 : NoDup (trackedComponentIds s1)) by by rewrite Hs1.
    destruct (JsObject.inherited _) as [value|].
    { unfold throw. by eapply tracksResult_stop. }
    apply tracksResult_frame; [by preserves_prim|done|].
    intros _ s2 Hs2. rewrite Hs1 in Hs2.
    apply tracksResult_frame; [by preserves_prim|by rewrite Hs2|].
    intros _ s3 Hs3. rewrite Hs2 in Hs3.
    apply tracksResult_frame; [by preserves_prim|by rewrite Hs3|].
    intros _ s4 Hs4. rewrite Hs3 in Hs4.
    unfold bind, get_components, set_components, ret, tracksResult,
      tracksComponents, trackedComponentIds in *. simpl.
    rewrite map_app, Hs4. simpl.
    assert (NoDup (map ComponentConfig.id (components s)
                   ++ [ComponentBundle.id bundle])).
    { apply NoDup_app. split_and!; [done| |apply NoDup_singleton].
      intros k Hin ->%list_elem_of_singleton. done. }
    split; [done|]. intros ? [= <-]. split; [done|].
    intros k [Hin| ->%list_elem_of_singleton]%elem_of_app.
    + destruct (decide (ComponentBundle.id bundle = k)) as [Heq|Hne];
        [rewrite Heq, lookup_insert_eq; eauto|].
      rewrite lookup_insert_ne by done. auto.
    + rewrite lookup_insert_eq; eauto.
Qed.

Lemma syncProjectFiles_componentIds srcDir idx pc :
  preserves trackedComponentIds (syncProjectFiles srcDir idx pc).
Proof.
  unfold syncProjectFiles, fixProjectFilePaths, findSrcDirPath. preserves.
Qed.

Lemma syncProjectBundle_ids opts cs srcDir idx entry :
  keepsComponentIds
    (λ acc, syncProjectBundle opts cs srcDir idx acc entry).
Proof.
  intros acc s Hacc. unfold syncProjectBundle. cbv zeta.
  apply tracksResult_bind.
  - by apply (keepsComponentIds_foldM _ _
                (syncComponentBundle_ids opts cs srcDir idx entry.1)).
  - intros _. apply syncProjectFiles_componentIds.
Qed.

Lemma syncAllBundles_componentIds opts context s :
  NoDup (trackedComponentIds s) →
  NoDup (trackedComponentIds (syncAllBundles opts context s).2).
Proof.
  intros Hn. unfold syncAllBundles. cbv zeta.
  erewrite bind_Done by reflexivity.
  apply (bind_frame trackedComponentIds _ _ s
           (λ r, NoDup (trackedComponentIds r.2))).
  - unfold console_error. preserves.
  - intros _ s1 Hs1. erewrite bind_Done by reflexivity.
    match goal with
    | |- context [foldM ?l ?body ?acc] =>
      destruct (keepsComponentIds_foldM l body
                  (syncProjectBundle_ids opts _ _ _) acc s1) as [Hn1 _]
    end.
    { split; [by rewrite Hs1|]. intros k Hk. apply keyByRef_is_Some.
      by rewrite Hs1 in Hk. }
    unfold bind. simpl in Hn1.
    by destruct (foldM _ _ _ s1) as [[acc|c|e] s2].
  - intros c s1 Hs1. simpl. by rewrite Hs1.
  - intros e s1 Hs1. simpl. by rewrite Hs1.
Qed.

(** X14.  A sync pass keeps the component ids pairwise different: when
    no two entries of [config.components] have the same [id] before
    [syncProjects], none have after it, whatever its outcome.  An entry
    is added only for a bundle id that [allCompConfigs] does not know. *)
Theorem syncProjects_component_ids_unique opts context s :
  NoDup (map ComponentConfig.id (components s)) →
  NoDup (map ComponentConfig.id (components (syncProjects opts context s).2)).
Proof.
  intros Hn. rewrite syncProjects_run.
  pose proof (syncAllBundles_componentIds opts context s Hn) as Hn1.
  unfold trackedComponentIds in Hn1.
  destruct (syncAllBundles opts context s) as [[[]|c|e] s1]; simpl in *;
    [|done..].
  by rewrite fixAllImportStatements_components.
Qed.

(** *** Stable properties *)

Lemma stable_preserves {A C} (f : State → C) (J : State → Prop) (m : M A) :
  (∀ s s', f s' = f s → J s → J s') → preserves f m → stable J m.
Proof. intros HJ Hm s Hs. by apply (HJ s). Qed.

Lemma stable_ret {A} J (a : A) : stable J (ret a).
Proof. by intros s. Qed.

Lemma stable_bind {A B} J (m : M A) (k : A → M B) :
  stable J m → (∀ a, stable J (k a)) → stable J (bind m k).
Proof.
  intros Hm Hk s Hs. unfold bind. specialize (Hm s Hs).
  destruct (m s) as [[a|c|e] s1]; simpl in *; [|done..].
  by apply Hk.
Qed.

Lemma stable_foldM {A B} J (l : list A) (body : B → A → M B) b :
  (∀ b x, stable J (body b x)) → stable J (foldM l body b).
Proof.
  intros Hbody. revert b. induction l as [|x l IH]; intros b; simpl.
  - apply stable_ret.
  - apply stable_bind; auto.
Qed.

Lemma fixProjectFilePaths_ids srcDir i idx :
  preserves trackedProjectIds (fixProjectFilePaths srcDir i idx).
Proof. apply fixProjectFilePaths_entries; intros ? ?; reflexivity. Qed.

Lemma syncProjectFiles_projectIds srcDir idx pc :
  stable (λ s, NoDup (trackedProjectIds s)) (syncProjectFiles srcDir idx pc).
Proof.
  intros s Hn. unfold syncProjectFiles.
  erewrite bind_Done by reflexivity.
  destruct (list_find _ (projects s)) as [[i p]|] eqn:Hfind.
  - match goal with
    | |- NoDup (trackedProjectIds (?m s).2) =>
      assert (Hm : preserves trackedProjectIds m)
    end.
    { apply preserves_bind; [apply fixProjectFilePaths_ids|intros _].
      preserves. }
    by rewrite Hm.
  - apply list_find_None in Hfind.
    assert (Hnew : ProjectMetaBundle.projectId pc ∉ trackedProjectIds s).
    { intros (c & Hc & Hin)%list_elem_of_fmap.
      rewrite Forall_forall in Hfind. by apply (Hfind c). }
    apply (bind_frame trackedProjectIds _ _ s
             (λ r, NoDup (trackedProjectIds r.2)));
      [by preserves_prim| |intros ? s1 Hs1; simpl; by rewrite Hs1..].
    intros _ s1 Hs1.
    apply (bind_frame trackedProjectIds _ _ s1
             (λ r, NoDup (trackedProjectIds r.2)));
      [by preserves_prim| |intros ? s2 Hs2; simpl; by rewrite Hs2, Hs1..].
    intros _ s2 Hs2. rewrite Hs1 in Hs2.
    unfold bind, get_projects, set_projects, trackedProjectIds in *. simpl.
    rewrite map_app, Hs2. simpl.
    apply NoDup_app. split_and!; [done| |apply NoDup_singleton].
    intros k Hin ->%list_elem_of_singleton. done.
Qed.

Lemma syncComponentBundle_projects opts cs srcDir idx pid acc bundle :
  preserves projects (syncComponentBundle opts cs srcDir idx pid acc bundle).
Proof.
  unfold syncComponentBundle, fixComponentPaths, findSrcDirPath. preserves.
Qed.

(** X15.  A sync pass keeps the project ids pairwise different: when no
    two entries of [config.projects] have the same [projectId] before
    [syncProjects], none have after it, whatever its outcome.  An entry
    is added only when [find] found none of the bundle's [projectId]. *)
Theorem syncProjects_project_ids_unique opts context s :
  NoDup (map ProjectConfig.projectId (projects s)) →
  NoDup (map ProjectConfig.projectId (projects (syncProjects opts context s).2)).
Proof.
  revert s.
  change (stable (λ s, NoDup (trackedProjectIds s))
                 (syncProjects opts context)).
  assert (Hfrom : ∀ A (m : M A), preserves projects m →
                    stable (λ s, NoDup (trackedProjectIds s)) m).
  { intros A m. apply stable_preserves. intros s s' Hs.
    unfold trackedProjectIds. by rewrite Hs. }
  unfold syncProjects. apply stable_bind.
  - unfold syncAllBundles, syncProjectBundle. cbv zeta.
    repeat first
      [ apply stable_ret
      | apply syncProjectFiles_projectIds
      | apply Hfrom, syncComponentBundle_projects
      | apply stable_foldM; intros ? ?
      | apply stable_bind; [|intros ?]
      | apply Hfrom; unfold console_error, buildBaseNameToFiles;
        solve [preserves] ].
  - intros _. apply Hfrom.
    unfold fixAllImportStatements, fixComponentImportStatements,
      fixFileImportStatements, updateConfig. preserves.
Qed.

End Engine.

(** ** The program on the example project *)

Abbreviation findSrcDirPath' :=
  (findSrcDirPath Posix.join Posix.basename Posix.relative).
Abbreviation syncProjects' :=
  (syncProjects Posix.join Posix.basename Posix.relative Posix.glob_sync
                Posix.isLocalModulePath Posix.replaceImports).
Abbreviation fixImports' :=
  (fixImports Posix.join Posix.basename Posix.relative Posix.glob_sync
              Posix.isLocalModulePath Posix.replaceImports).

(** Node's documented examples of [path.join], [path.basename] and
    [path.relative], and the glob of the example tree. *)
Example Posix_join_example :
  Posix.join "/work/app" "src" = "/work/app/src"
  ∧ Posix.join "/foo" "bar//baz/../quux" = "/foo/bar/quux"
  ∧ Posix.join "" "" = ".".
Proof. repeat split; reflexivity. Qed.

Example Posix_basename_example :
  Posix.basename "/foo/bar/baz/asdf/quux.html" = "quux.html"
  ∧ Posix.basename "old/Card.tsx" = "Card.tsx"
  ∧ Posix.basename "dir/" = "dir".
Proof. repeat split; reflexivity. Qed.

Example Posix_relative_example :
  Posix.relative "/data/orandea/test/aaa" "/data/orandea/impl/bbb"
  = "../../impl/bbb"
  ∧ Posix.relative "/work/app/src" "/work/app/src/components/Button.tsx"
    = "components/Button.tsx".
Proof. repeat split; reflexivity. Qed.

Example Posix_glob_sync_example :
  Posix.glob_sync "/work/app/src"
    (list_to_map
       [("/work/app/src/b/Card.tsx", ""); ("/work/app/src/a/Card.tsx", "");
        ("/work/app/src/node_modules/x/Card.tsx", "");
        ("/work/app/src/a/README.md", ""); ("/work/app/lib/Card.tsx", "");
        ("/work/app/src/.cache/Card.tsx", "");
        ("/work/app/src/a/.Card.tsx", "");
        ("/work/app/src/a/Card.d.tscss", "");
        ("/work/app/src/a/Card.tsxx", "")])
  = ["/work/app/src/a/Card.d.tscss"; "/work/app/src/a/Card.tsx";
     "/work/app/src/b/Card.tsx"].
Proof. vm_compute. reflexivity. Qed.

(** Where the files of the example project are looked up. *)
Abbreviation movedIndex :=
  (groupBy Posix.basename (Posix.glob_sync Example.srcDir Example.movedTree)).
Abbreviation syncComponentBundle' :=
  (syncComponentBundle Posix.join Posix.basename Posix.relative
                       Posix.isLocalModulePath).
Abbreviation fixComponentPaths' :=
  (fixComponentPaths Posix.join Posix.basename Posix.relative
                     Posix.isLocalModulePath).

(** C1 on the example: [old/Card.tsx] is missing and two files are called
    [Card.tsx]; the error names both and the run exits with code 1. *)
Lemma findSrcDirPath_ambiguity_is_fatal_witness :
  fs Example.ambiguous !! Posix.join Example.srcDir "old/Card.tsx" = None
  ∧ (2 ≤ length (filter (λ f, Posix.basename f = Posix.basename "old/Card.tsx")
                        (Posix.glob_sync Example.srcDir Example.ambiguousTree)))%nat
  ∧ ∃ msg,
      findSrcDirPath' Example.srcDir "old/Card.tsx"
        (groupBy Posix.basename
                 (Posix.glob_sync Example.srcDir Example.ambiguousTree))
        Example.ambiguous
      = (Exit 1,
         log (ConsoleError msg)
             (log (ExistsSync "/work/app/src/old/Card.tsx") Example.ambiguous))
      ∧ occurs_in "/work/app/src/a/Card.tsx" msg
      ∧ occurs_in "/work/app/src/b/Card.tsx" msg.
Proof.
  assert (fs Example.ambiguous !! Posix.join Example.srcDir "old/Card.tsx" = None)
    as H1 by (vm_compute; reflexivity).
  assert (2 ≤ length (filter (λ f, Posix.basename f = Posix.basename "old/Card.tsx")
                             (Posix.glob_sync Example.srcDir Example.ambiguousTree)))%nat
    as H2 by (vm_compute; lia).
  split; [exact H1|]. split; [exact H2|].
  destruct (findSrcDirPath_ambiguity_is_fatal
              Posix.join Posix.basename Posix.relative Posix.glob_sync
              Posix.isLocalModulePath Posix.replaceImports
              Example.srcDir "old/Card.tsx"
              (Posix.glob_sync Example.srcDir Example.ambiguousTree)
              Example.ambiguous H1 H2)
    as (msg & Hrun & Hnames & _).
  exists msg. split; [exact Hrun|].
  split; apply Hnames; vm_compute; try reflexivity; repeat constructor.
Defined.

(** C2 on the example: the render module of [Button] is missing at its
    declared path, and one file of that name exists below [components/]. *)
Lemma findSrcDirPath_unique_move_witness :
  fs Example.moved !! Posix.join Example.srcDir "PlasmicButton.tsx" = None
  ∧ filter (λ f, Posix.basename f = Posix.basename "PlasmicButton.tsx")
           (Posix.glob_sync Example.srcDir Example.movedTree)
    = ["/work/app/src/components/PlasmicButton.tsx"]
  ∧ findSrcDirPath' Example.srcDir "PlasmicButton.tsx" movedIndex Example.moved
    = (Done "components/PlasmicButton.tsx",
       log (ExistsSync "/work/app/src/PlasmicButton.tsx") Example.moved).
Proof.
  assert (fs Example.moved !! Posix.join Example.srcDir "PlasmicButton.tsx" = None)
    as H1 by (vm_compute; reflexivity).
  assert (filter (λ f, Posix.basename f = Posix.basename "PlasmicButton.tsx")
                 (Posix.glob_sync Example.srcDir Example.movedTree)
          = ["/work/app/src/components/PlasmicButton.tsx"])
    as H2 by (vm_compute; reflexivity).
  split; [exact H1|]. split; [exact H2|].
  exact (findSrcDirPath_unique_move Posix.join Posix.basename Posix.relative
           Example.srcDir "PlasmicButton.tsx"
           (Posix.glob_sync Example.srcDir Example.movedTree)
           "/work/app/src/components/PlasmicButton.tsx" Example.moved H1 H2).
Defined.

(** X28 on the example: the skeleton of [Button] is where it is
    declared, and no file is called [Dialog.tsx]. *)
Lemma findSrcDirPath_unchanged_witness :
  is_Some (fs Example.moved !! Posix.join Example.srcDir "Button.tsx")
  ∧ findSrcDirPath' Example.srcDir "Button.tsx" movedIndex Example.moved
    = (Done "Button.tsx",
       log (ExistsSync "/work/app/src/Button.tsx") Example.moved)
  ∧ filter (λ f, Posix.basename f = Posix.basename "lib/Dialog.tsx")
           (Posix.glob_sync Example.srcDir Example.movedTree)
    = []
  ∧ JsObject.inherited (Posix.basename "lib/Dialog.tsx") = None
  ∧ findSrcDirPath' Example.srcDir "lib/Dialog.tsx" movedIndex Example.moved
    = (Done "lib/Dialog.tsx",
       log (ExistsSync "/work/app/src/lib/Dialog.tsx") Example.moved).
Proof.
  assert (is_Some (fs Example.moved !! Posix.join Example.srcDir "Button.tsx"))
    as H1 by (vm_compute; eexists; reflexivity).
  assert (filter (λ f, Posix.basename f = Posix.basename "lib/Dialog.tsx")
                 (Posix.glob_sync Example.srcDir Example.movedTree)
          = []) as H2 by (vm_compute; reflexivity).
  assert (JsObject.inherited (Posix.basename "lib/Dialog.tsx") = None)
    as H3 by (vm_compute; reflexivity).
  split; [exact H1|]. split.
  { exact (proj1 (findSrcDirPath_unchanged
                    Posix.join Posix.basename Posix.relative
                    Posix.isLocalModulePath
                    Example.srcDir "Button.tsx"
                    (Posix.glob_sync Example.srcDir Example.movedTree)
                    Example.moved (or_introl H1))). }
  split; [exact H2|]. split; [exact H3|].
  exact (proj1 (findSrcDirPath_unchanged
                  Posix.join Posix.basename Posix.relative
                  Posix.isLocalModulePath
                  Example.srcDir "lib/Dialog.tsx"
                  (Posix.glob_sync Example.srcDir Example.movedTree)
                  Example.moved (or_intror (conj H2 H3)))).
Defined.

(** C3 on the example: no file is called [constructor] or [toString], and
    no file is at the expected paths.  For [lib/constructor] the lookup
    throws; for [toString] it prints the error and exits. *)
Lemma findSrcDirPath_inherited_name_witness :
  fs Example.moved !! Posix.join Example.srcDir "lib/constructor" = None
  ∧ filter (λ f, Posix.basename f = Posix.basename "lib/constructor")
           (Posix.glob_sync Example.srcDir Example.movedTree)
    = []
  ∧ findSrcDirPath' Example.srcDir "lib/constructor" movedIndex Example.moved
    = (Throw "TypeError",
       log (ExistsSync "/work/app/src/lib/constructor") Example.moved)
  ∧ findSrcDirPath' Example.srcDir "toString" movedIndex Example.moved
    = (Exit 1,
       log (ConsoleError
              ("Cannot find expected file at toString, and found multiple "
               +:+ "possible matching files function toString() "
               +:+ "{ [native code] }.  Please update plasmic.config with "
               +:+ "the real location for toString."))
           (log (ExistsSync "/work/app/src/toString") Example.moved)).
Proof.
  assert (fs Example.moved !! Posix.join Example.srcDir "lib/constructor" = None)
    as H1 by (vm_compute; reflexivity).
  assert (filter (λ f, Posix.basename f = Posix.basename "lib/constructor")
                 (Posix.glob_sync Example.srcDir Example.movedTree)
          = []) as H2 by (vm_compute; reflexivity).
  split; [exact H1|]. split; [exact H2|]. split.
  - rewrite (findSrcDirPath_inherited_name
               Posix.join Posix.basename Posix.relative
               Example.srcDir "lib/constructor"
               (Posix.glob_sync Example.srcDir Example.movedTree)
               Example.moved (JsObject.nativeFunction "Object" 1) H1 H2
               ltac:(vm_compute; reflexivity)).
    reflexivity.
  - rewrite (findSrcDirPath_inherited_name
               Posix.join Posix.basename Posix.relative
               Example.srcDir "toString"
               (Posix.glob_sync Example.srcDir Example.movedTree)
               Example.moved (JsObject.nativeFunction "toString" 0)
               ltac:(vm_compute; reflexivity) ltac:(vm_compute; reflexivity)
               ltac:(vm_compute; reflexivity)).
    vm_compute. reflexivity.
Defined.



(** C7 on the example: the first sync of [Button]. *)
Lemma syncComponentBundle_new_witness :
  shouldSyncComponents Example.opts [] "c1" "Button" = true
  ∧ (∅ : gmap string nat) !! "c1" = None
  ∧ JsObject.inherited "c1" = None
  ∧ trace (syncComponentBundle' Example.opts [] Example.srcDir ∅ "p1" ∅
             Example.buttonBundle Example.fresh).2
    = [ConsoleLog "Syncing component Button [p1/c1]";
       WriteFileContent "/work/app/src/PlasmicButton.tsx"
                        "// render module of Button" false;
       WriteFileContent "/work/app/src/PlasmicButton.css" ".Button { }" false;
       WriteFileContent "/work/app/src/Button.tsx" "// skeleton of Button" false]
  ∧ components (syncComponentBundle' Example.opts [] Example.srcDir ∅ "p1" ∅
                  Example.buttonBundle Example.fresh).2
    = [Example.button].
Proof.
  assert (shouldSyncComponents Example.opts [] "c1" "Button" = true)
    as H1 by reflexivity.
  assert ((∅ : gmap string nat) !! "c1" = None) as H2 by reflexivity.
  assert (JsObject.inherited "c1" = None) as H3 by (vm_compute; reflexivity).
  split; [exact H1|]. split; [exact H2|]. split; [exact H3|].
  rewrite (proj1 (syncComponentBundle_new
                    Posix.join Posix.basename Posix.relative
                    Posix.isLocalModulePath Posix.replaceImports
                    Example.opts [] Example.srcDir ∅ "p1" ∅
                    Example.buttonBundle Example.fresh H1 H2 H3)).
  split; reflexivity.
Defined.

(** C7 fails as stated: [Button] is tracked after the first sync, and the
    second sync, whose events these are, ends with a force write of its
    skeleton file, made by the import rewriter. *)
Lemma skeleton_file_written_again :
  components
    (syncProjects' Example.opts Example.context Example.fresh).2
  = [Example.button]
  ∧ drop
      (length
         (trace
            (syncProjects' Example.opts Example.context Example.fresh).2))
      (trace
         (syncProjects' Example.opts Example.context
            (syncProjects' Example.opts Example.context Example.fresh).2).2)
    = [ConsoleLog "Syncing component Button [p1/c1]";
       ExistsSync "/work/app/src/PlasmicButton.tsx";
       ExistsSync "/work/app/src/PlasmicButton.css";
       ExistsSync "/work/app/src/Button.tsx";
       WriteFileContent "/work/app/src/PlasmicButton.tsx"
                        "// render module of Button" true;
       WriteFileContent "/work/app/src/PlasmicButton.css" ".Button { }" true;
       ExistsSync "/work/app/src/PlasmicContext.tsx";
       ExistsSync "/work/app/src/PlasmicFonts.css";
       WriteFileContent "/work/app/src/PlasmicContext.tsx"
                        "// context of p1" true;
       WriteFileContent "/work/app/src/PlasmicFonts.css"
                        "/* fonts of p1 */" true;
       UpdateConfig [Example.button] (Some [Example.project]);
       ReadFileSync "/work/app/src/PlasmicButton.tsx";
       WriteFileContent "/work/app/src/PlasmicButton.tsx"
                        "// render module of Button" true;
       ReadFileSync "/work/app/src/PlasmicButton.css";
       WriteFileContent "/work/app/src/PlasmicButton.css" ".Button { }" true;
       ReadFileSync "/work/app/src/Button.tsx";
       WriteFileContent "/work/app/src/Button.tsx"
                        "// skeleton of Button" true].
Proof. vm_compute. split; reflexivity. Qed.

(** C8 on the example: a create-only write over the skeleton that the
    developer has edited. *)
Lemma writeFileContent_create_only_noop_witness :
  fs Example.moved !! "/work/app/src/Button.tsx"
  = Some "// skeleton, edited by the developer"
  ∧ fs (writeFileContent "/work/app/src/Button.tsx" "// skeleton of Button"
          false Example.moved).2 !! "/work/app/src/Button.tsx"
    = Some "// skeleton, edited by the developer".
Proof.
  assert (fs Example.moved !! "/work/app/src/Button.tsx"
          = Some "// skeleton, edited by the developer")
    as H1 by (vm_compute; reflexivity).
  split; [exact H1|].
  exact (proj2 (proj2 (writeFileContent_create_only_noop
                         "/work/app/src/Button.tsx" "// skeleton of Button"
                         "// skeleton, edited by the developer"
                         Example.moved H1))).
Defined.

(** C9 on the example: reconciling the entry of [Button] leaves its
    identity as it was. *)
Lemma fixComponentPaths_frame_witness :
  components Example.moved !! 0%nat = Some Example.button
  ∧ ∃ c',
      components (fixComponentPaths' Example.srcDir 0 movedIndex Example.moved).2
      = [c']
      ∧ ComponentConfig.id c' = "c1"
      ∧ ComponentConfig.name c' = "Button"
      ∧ ComponentConfig.type c' = "managed"
      ∧ ComponentConfig.projectId c' = "p1".
Proof.
  assert (components Example.moved !! 0%nat = Some Example.button)
    as H1 by reflexivity.
  split; [exact H1|].
  destruct (fixComponentPaths_frame
              Posix.join Posix.basename Posix.relative Posix.isLocalModulePath
              Example.srcDir 0 movedIndex Example.moved Example.button H1)
    as (c' & Hcs & _ & _ & Hid & Hname & Htype & Hpid & _).
  exists c'. split; [exact Hcs|]. repeat split; assumption.
Defined.

(** C10 on the example: the context file of the project has moved.  The
    fix-imports command leaves the declared path of the project as it is;
    a sync pass reconciles it. *)
Example fixImports_leaves_project_paths :
  projects
    (fixImports' Example.context Example.contextMoved).2
  = [Example.project]
  ∧ projects
      (syncProjects' Example.opts Example.context Example.contextMoved).2
    = [ProjectConfig.set_contextFilePath "ctx/PlasmicContext.tsx"
                                         Example.project].
Proof. vm_compute. split; reflexivity. Qed.

(** C4.  The claim fails for an entry that the pass does not sync: the
    import rewriter is given the entry as it was declared.  [Button] of
    project [p1] is tracked at [PlasmicButton.tsx], and its render module
    has moved below [components/], where reconciliation finds it.  The
    pass [plasmic sync --projects p2] writes the files of [p2], persists
    the configuration with the declared path of [Button], starts the
    import rewriter, and ends in [ENOENT] on the first file it reads, at
    the declared path.  In the same way a pass for [p2] leaves the moved
    context file of [p1] at its declared path in the project table, and
    rewrites the files of [Button] under that table. *)
Theorem syncProjects_rewrites_unreconciled :
  let pass :=
    syncProjects' Example.secondOpts Example.twoProjects Example.moved in
  let pass' :=
    syncProjects' Example.secondOpts Example.twoProjects Example.contextMoved in
  (findSrcDirPath' Example.srcDir "PlasmicButton.tsx" movedIndex
     Example.moved).1
  = Done "components/PlasmicButton.tsx"
  ∧ pass.1 = Throw "ENOENT"
  ∧ components pass.2 = [Example.button]
  ∧ trace pass.2
    = [WriteFileContent "/work/app/src/PlasmicContext2.tsx"
                        "// context of p2" false;
       WriteFileContent "/work/app/src/PlasmicFonts2.css"
                        "/* fonts of p2 */" false;
       UpdateConfig [Example.button]
                    (Some [Example.project; Example.secondProject]);
       ReadFileSync "/work/app/src/PlasmicButton.tsx"]
  ∧ (findSrcDirPath' Example.srcDir "PlasmicContext.tsx"
       (groupBy Posix.basename
                (Posix.glob_sync Example.srcDir Example.contextMovedTree))
       Example.contextMoved).1
    = Done "ctx/PlasmicContext.tsx"
  ∧ pass'.1 = Done ()
  ∧ projects pass'.2 = [Example.project; Example.secondProject]
  ∧ trace pass'.2
    = [WriteFileContent "/work/app/src/PlasmicContext2.tsx"
                        "// context of p2" false;
       WriteFileContent "/work/app/src/PlasmicFonts2.css"
                        "/* fonts of p2 */" false;
       UpdateConfig [Example.button]
                    (Some [Example.project; Example.secondProject]);
       ReadFileSync "/work/app/src/PlasmicButton.tsx";
       WriteFileContent "/work/app/src/PlasmicButton.tsx"
                        "// render module of Button" true;
       ReadFileSync "/work/app/src/PlasmicButton.css";
       WriteFileContent "/work/app/src/PlasmicButton.css" ".Button { }" true;
       ReadFileSync "/work/app/src/Button.tsx";
       WriteFileContent "/work/app/src/Button.tsx"
                        "// skeleton of Button" true].
Proof. cbv zeta. repeat split; vm_compute; reflexivity. Qed.

(** ** Further properties on the example project *)

Abbreviation contextMovedIndex :=
  (groupBy Posix.basename
           (Posix.glob_sync Example.srcDir Example.contextMovedTree)).
Abbreviation syncProjectFiles' :=
  (syncProjectFiles Posix.join Posix.basename Posix.relative).
Abbreviation fixProjectFilePaths' :=
  (fixProjectFilePaths Posix.join Posix.basename Posix.relative).

(** The files that the glob of the example finds exist, and joining the
    source directory with their relative path gives them back. *)
Lemma movedTree_files :
  Forall (λ f, is_Some (fs Example.moved !! f))
         (Posix.glob_sync Example.srcDir Example.movedTree)
  ∧ Forall (λ f, Posix.join Example.srcDir (Posix.relative Example.srcDir f) = f)
           (Posix.glob_sync Example.srcDir Example.movedTree).
Proof. split; apply (bool_decide_unpack _); vm_compute; exact I. Defined.

(** X2 on the example: the path found for the render module of [Button]
    names the file below [components/]. *)
Lemma findSrcDirPath_resolved_exists_witness :
  is_Some (fs Example.moved
             !! Posix.join Example.srcDir "components/PlasmicButton.tsx")
  ∧ fs Example.moved !! Posix.join Example.srcDir "PlasmicButton.tsx" = None
  ∧ Posix.basename (Posix.join Example.srcDir "components/PlasmicButton.tsx")
    = Posix.basename "PlasmicButton.tsx".
Proof.
  exact (findSrcDirPath_resolved_exists
           Posix.join Posix.basename Posix.relative
           Example.srcDir "PlasmicButton.tsx"
           (Posix.glob_sync Example.srcDir Example.movedTree)
           Example.moved "components/PlasmicButton.tsx"
           (proj1 (Forall_forall _ _) (proj1 movedTree_files))
           (proj1 (Forall_forall _ _) (proj2 movedTree_files))
           ltac:(vm_compute; reflexivity) ltac:(discriminate)).
Defined.

(** X3 on the example: asked about the path it has found, the lookup
    returns it again. *)
Lemma findSrcDirPath_idempotent_witness :
  findSrcDirPath' Example.srcDir "components/PlasmicButton.tsx" movedIndex
    Example.moved
  = (Done "components/PlasmicButton.tsx",
     log (ExistsSync
            (Posix.join Example.srcDir "components/PlasmicButton.tsx"))
         Example.moved).
Proof.
  exact (findSrcDirPath_idempotent
           Posix.join Posix.basename Posix.relative
           Example.srcDir "PlasmicButton.tsx"
           (Posix.glob_sync Example.srcDir Example.movedTree)
           Example.moved Example.moved "components/PlasmicButton.tsx"
           (proj1 (Forall_forall _ _) (proj1 movedTree_files))
           (proj1 (Forall_forall _ _) (proj2 movedTree_files))
           ltac:(vm_compute; reflexivity) eq_refl).
Defined.

(** X4 on the example: after the entry of [Button] has been reconciled,
    reconciling it again only probes its three files. *)
Lemma fixComponentPaths_settles_witness :
  let s1 := (fixComponentPaths' Example.srcDir 0 movedIndex Example.moved).2 in
  components (fixComponentPaths' Example.srcDir 0 movedIndex s1).2
  = components s1
  ∧ trace (fixComponentPaths' Example.srcDir 0 movedIndex s1).2
    = trace s1
      ++ [ExistsSync "/work/app/src/components/PlasmicButton.tsx";
          ExistsSync "/work/app/src/PlasmicButton.css";
          ExistsSync "/work/app/src/Button.tsx"].
Proof.
  cbv zeta.
  rewrite (fixComponentPaths_settles
             Posix.join Posix.basename Posix.relative Posix.isLocalModulePath
             Example.srcDir 0
             (Posix.glob_sync Example.srcDir Example.movedTree)
             Example.moved Example.button
             "components/PlasmicButton.tsx" "PlasmicButton.css" "Button.tsx"
             (proj1 (Forall_forall _ _) (proj1 movedTree_files))
             (proj1 (Forall_forall _ _) (proj2 movedTree_files))
             eq_refl
             ltac:(vm_compute; reflexivity) ltac:(vm_compute; reflexivity)
             ltac:(vm_compute; reflexivity)).
  split; reflexivity.
Defined.

(** X5 on the example: reconciling the entry of the project leaves its
    identity as it was. *)
Lemma fixProjectFilePaths_frame_witness :
  projects Example.contextMoved !! 0%nat = Some Example.project
  ∧ ∃ p',
      projects (fixProjectFilePaths' Example.srcDir 0 contextMovedIndex
                  Example.contextMoved).2
      = [p']
      ∧ ProjectConfig.projectId p' = "p1"
      ∧ ProjectConfig.contextTypeName p' = "PlasmicContext".
Proof.
  assert (projects Example.contextMoved !! 0%nat = Some Example.project)
    as H1 by reflexivity.
  split; [exact H1|].
  destruct (fixProjectFilePaths_frame
              Posix.join Posix.basename Posix.relative
              Example.srcDir 0 contextMovedIndex Example.contextMoved
              Example.project H1)
    as (p' & Hps & Hid & Htype & _).
  exists p'. split; [exact Hps|]. split; assumption.
Defined.

(** X6 on the example: the first sync of project [p1]. *)
Lemma syncProjectFiles_new_witness :
  projects (syncProjectFiles' Example.srcDir ∅
              (ProjectBundle.projectConfig Example.projectBundle)
              Example.fresh).2
  = [Example.project]
  ∧ trace (syncProjectFiles' Example.srcDir ∅
             (ProjectBundle.projectConfig Example.projectBundle)
             Example.fresh).2
    = [WriteFileContent "/work/app/src/PlasmicContext.tsx"
                        "// context of p1" false;
       WriteFileContent "/work/app/src/PlasmicFonts.css"
                        "/* fonts of p1 */" false].
Proof.
  rewrite (syncProjectFiles_new
             Posix.join Posix.basename Posix.relative
             Example.srcDir ∅
             (ProjectBundle.projectConfig Example.projectBundle)
             Example.fresh ltac:(apply not_elem_of_nil)).
  split; reflexivity.
Defined.

(** X7 on the example: a later sync of project [p1], whose context file
    has moved into [ctx/]. *)
Lemma syncProjectFiles_existing_witness :
  projects Example.contextMoved !! 0%nat = Some Example.project
  ∧ projects (syncProjectFiles' Example.srcDir contextMovedIndex
                (ProjectBundle.projectConfig Example.projectBundle)
                Example.contextMoved).2
    = [ProjectConfig.set_contextFilePath "ctx/PlasmicContext.tsx"
                                         Example.project]
  ∧ trace (syncProjectFiles' Example.srcDir contextMovedIndex
             (ProjectBundle.projectConfig Example.projectBundle)
             Example.contextMoved).2
    = [ExistsSync "/work/app/src/PlasmicContext.tsx";
       ConsoleWarn (movedMessage "PlasmicContext.tsx" "ctx/PlasmicContext.tsx");
       ExistsSync "/work/app/src/PlasmicFonts.css";
       WriteFileContent "/work/app/src/ctx/PlasmicContext.tsx"
                        "// context of p1" true;
       WriteFileContent "/work/app/src/PlasmicFonts.css"
                        "/* fonts of p1 */" true].
Proof.
  assert (projects Example.contextMoved !! 0%nat = Some Example.project)
    as H1 by reflexivity.
  split; [exact H1|].
  rewrite (syncProjectFiles_existing
             Posix.join Posix.basename Posix.relative
             Example.srcDir contextMovedIndex
             (ProjectBundle.projectConfig Example.projectBundle)
             Example.contextMoved 0 Example.project
             "ctx/PlasmicContext.tsx" "PlasmicFonts.css"
             H1 eq_refl ltac:(intros j q _ Hj; lia)
             ltac:(vm_compute; reflexivity) ltac:(vm_compute; reflexivity)).
  split; vm_compute; reflexivity.
Defined.

(** X8 on the example: [plasmic sync] in a fresh project, without
    [--projects]. *)
Lemma syncProjects_without_projects_witness :
  syncProjects' Example.plainOpts Example.context Example.fresh
  = (Exit 1,
     log (ConsoleError
            "Don't know which projects to sync; please specify via --projects")
         Example.fresh).
Proof.
  exact (syncProjects_without_projects
           Posix.join Posix.basename Posix.relative Posix.glob_sync
           Posix.isLocalModulePath Posix.replaceImports
           Example.plainOpts Example.context Example.fresh eq_refl eq_refl).
Defined.

(** X9 on the example: [Card] is tracked at [old/Card.tsx], where no
    file is, and two files are called [Card.tsx]. *)
Lemma syncComponentBundle_ambiguous_witness :
  (syncComponentBundle' Example.opts ["c2"] Example.srcDir
     (groupBy Posix.basename
              (Posix.glob_sync Example.srcDir Example.ambiguousTree))
     "p1" ({["c2" := 0%nat]} : gmap string nat) Example.cardBundle Example.ambiguous).1
  = Exit 1
  ∧ fs (syncComponentBundle' Example.opts ["c2"] Example.srcDir
          (groupBy Posix.basename
                   (Posix.glob_sync Example.srcDir Example.ambiguousTree))
          "p1" ({["c2" := 0%nat]} : gmap string nat) Example.cardBundle Example.ambiguous).2
    = Example.ambiguousTree
  ∧ components
      (syncComponentBundle' Example.opts ["c2"] Example.srcDir
         (groupBy Posix.basename
                  (Posix.glob_sync Example.srcDir Example.ambiguousTree))
         "p1" ({["c2" := 0%nat]} : gmap string nat) Example.cardBundle Example.ambiguous).2
    = [Example.card].
Proof.
  assert ((({["c2" := 0%nat]} : gmap string nat)) !! "c2" = Some 0%nat)
    as H2 by (vm_compute; reflexivity).
  destruct (syncComponentBundle_ambiguous
              Posix.join Posix.basename Posix.relative Posix.isLocalModulePath
              Example.opts ["c2"] Example.srcDir
              (Posix.glob_sync Example.srcDir Example.ambiguousTree)
              "p1" ({["c2" := 0%nat]} : gmap string nat) Example.cardBundle Example.ambiguous
              0 Example.card
              eq_refl H2 eq_refl
              ltac:(vm_compute; reflexivity) ltac:(vm_compute; lia))
    as [msg Hrun].
  rewrite Hrun. repeat split.
Defined.

(** X14 on the example: a sync pass over the project with the moved
    render module. *)
Lemma syncProjects_component_ids_unique_witness :
  NoDup (map ComponentConfig.id (components Example.moved))
  ∧ NoDup (map ComponentConfig.id
             (components
                (syncProjects' Example.opts Example.context Example.moved).2)).
Proof.
  assert (NoDup (map ComponentConfig.id (components Example.moved)))
    as H1 by apply NoDup_singleton.
  split; [exact H1|].
  exact (syncProjects_component_ids_unique
           Posix.join Posix.basename Posix.relative Posix.glob_sync
           Posix.isLocalModulePath Posix.replaceImports
           Example.opts Example.context Example.moved H1).
Defined.

(** X15 on the example: a sync pass over the project with the moved
    context file. *)
Lemma syncProjects_project_ids_unique_witness :
  NoDup (map ProjectConfig.projectId (projects Example.contextMoved))
  ∧ NoDup (map ProjectConfig.projectId
             (projects
                (syncProjects' Example.opts Example.context
                   Example.contextMoved).2)).
Proof.
  assert (NoDup (map ProjectConfig.projectId (projects Example.contextMoved)))
    as H1 by apply NoDup_singleton.
  split; [exact H1|].
  exact (syncProjects_project_ids_unique
           Posix.join Posix.basename Posix.relative Posix.glob_sync
           Posix.isLocalModulePath Posix.replaceImports
           Example.opts Example.context Example.contextMoved H1).
Defined.

(** * The loader's command-line helpers

    A shallow embedding of the loader's CLI utilities: how commands are
    run ([runCommand], [getEnv], [objToExecArgs]), the commands
    themselves ([getCurrentUser], [installPackages],
    [tryInitializePlasmicDir], [fixImports], [syncProject]) and the pages
    of a configuration ([getPageUrl], [getPagesFromConfig]).

    A JavaScript string is the list of its characters.  An asynchronous
    function is a computation over the history of the calls it has made
    on the outside world ([fs.promises], [execa]); the world answers a
    call by fulfilling or by rejecting it, and an awaited rejection is
    thrown. *)
Module Loader.

Definition text (s : string) : list ascii := list_ascii_of_string s.

(** ** Strings and arrays *)

(** [s.split(sep)] for a separator of one character. *)
Fixpoint split (sep : ascii) (s : list ascii) : list (list ascii) :=
  match s with
  | [] => [[]]
  | c :: s' =>
    if decide (c = sep) then [] :: split sep s'
    else match split sep s' with
         | w :: ws => (c :: w) :: ws
         | [] => [[c]]
         end
  end.

(** [l.join(sep)]. *)
Fixpoint join (sep : list ascii) (l : list (list ascii)) : list ascii :=
  match l with
  | [] => []
  | w :: ws =>
    match ws with
    | [] => w
    | _ :: _ => w ++ sep ++ join sep ws
    end
  end.

(** [s.includes(needle)]. *)
Fixpoint includes (needle s : list ascii) : bool :=
  bool_decide (needle `prefix_of` s)
  || match s with
     | [] => false
     | _ :: s' => includes needle s'
     end.

(** [s.endsWith(suffix)]. *)
Definition endsWith (suffix s : list ascii) : bool :=
  bool_decide (suffix `suffix_of` s).

(** [s.slice(0, -n)]. *)
Definition sliceEnd (n : nat) (s : list ascii) : list ascii :=
  take (length s - n) s.

(** ** The outside world *)

Inductive stdio := Pipe | Inherit.

(** The arguments of one call of [execa(file, args, {cwd, env, stdio})]. *)
Record execaCall := {
  file : list ascii;
  args : list (list ascii);
  cwd : list ascii;
  env : gmap string (option string);
  stdio_of : stdio
}.

(** [FsMkdir dir] is [fs.mkdir(dir, { recursive: true })]. *)
Inductive action :=
| FsMkdir (dir : list ascii)
| FsWriteFile (path content : list ascii)
| FsAccess (path : list ascii)
| Execa (call : execaCall).

(** What the code reads of a rejection: [error.code] and [error.message],
    either of which can be undefined. *)
Record jsError := {
  code : option string;
  message : option (list ascii)
}.

Inductive reply :=
| Fulfilled (stdout : list ascii)
| Rejected (error : jsError).

Inductive result (A : Type) :=
| Ok (a : A)
| Err (error : jsError).
Arguments Ok {A} a.
Arguments Err {A} error.

(** A computation threads the history of calls. *)
Definition L (A : Type) : Type := list action → result A * list action.

Definition ret {A} (a : A) : L A := λ h, (Ok a, h).

Definition bind {A B} (m : L A) (k : A → L B) : L B := λ h,
  match m h with
  | (Ok a, h') => k a h'
  | (Err e, h') => (Err e, h')
  end.

Definition throw {A} (e : jsError) : L A := λ h, (Err e, h).

(** [try { m } catch (error) { handler(error) }]. *)
Definition try_catch {A} (m : L A) (handler : jsError → L A) : L A := λ h,
  match m h with
  | (Ok a, h') => (Ok a, h')
  | (Err e, h') => handler e h'
  end.

Declare Scope loader_scope.
Delimit Scope loader_scope with loader.
Notation "'let*' x := m 'in' k" := (bind m (λ x, k))
  (at level 10, x name, m at level 99, k at level 200) : loader_scope.
Notation "m ;; k" := (bind m (λ _, k))
  (at level 100, right associativity) : loader_scope.
Local Open Scope loader_scope.

(** [for (const x of l) { ... }] around a local variable, in a function
    that can throw. *)
Fixpoint forEach {A B} (l : list A) (body : B → A → option B) (b : B)
    : option B :=
  match l with
  | [] => Some b
  | x :: l' =>
    match body b x with
    | Some b' => forEach l' body b'
    | None => None
    end
  end.

(** ** Arguments of a command *)

(** A value of [initArgs]: an array, or anything else, given by the text
    that a template literal makes of it. *)
Inductive value :=
| Scalar (shown : list ascii)
| Array (items : list (list ascii)).

(** [Array.isArray(value) ? value.join(",") : value] in a template
    literal. *)
Definition valueText (v : value) : list ascii :=
  match v with
  | Array items => join (text ",") items
  | Scalar shown => shown
  end.

Definition execArg (entry : list ascii * value) : list ascii :=
  text "--" ++ entry.1 ++ text "=" ++ valueText entry.2.

(** [obj] is given by [Object.entries(obj)]. *)
Definition objToExecArgs (obj : list (list ascii * value)) : list ascii :=
  join (text " ") (map execArg obj).

(** ** Pages *)

(** A line terminator, which [.] does not match.  Of the four that
    JavaScript knows, two are characters of this model. *)
Definition lineTerminator (c : ascii) : bool :=
  bool_decide (c = "010"%char) || bool_decide (c = "013"%char).

(** [.*$] at the start of [s]. *)
Definition restOfInput (s : list ascii) : bool :=
  forallb (λ c, negb (lineTerminator c)) s.

(** The rest of the pattern at the start of [s]: a capturing group
    around [.*], a literal dot, and [.*$]; the result is what the group
    captured.  The quantifier is greedy: a capture that goes on through
    the next character is tried before the capture that ends here. *)
Fixpoint captureUpToDot (s : list ascii) : option (list ascii) :=
  match s with
  | [] => None
  | c :: s' =>
    match (if lineTerminator c then None else captureUpToDot s') with
    | Some u => Some (c :: u)
    | None =>
      if bool_decide (c = "."%char) && restOfInput s' then Some [] else None
    end
  end.

Fixpoint stripPrefix (p s : list ascii) : option (list ascii) :=
  match p, s with
  | [], _ => Some s
  | c :: p', d :: s' => if decide (c = d) then stripPrefix p' s' else None
  | _ :: _, [] => None
  end.

(** The pattern of part_000:139 at the start of [s]: the word [pages],
    then the capture up to a dot, then [.*$]. *)
Definition pagesPattern (s : list ascii) : option (list ascii) :=
  match stripPrefix (text "pages") s with
  | Some rest => captureUpToDot rest
  | None => None
  end.

(** The second element of [path.split(pattern)]: what the pattern
    captured at the first position at which it matches; [None] is
    [undefined]. *)
Fixpoint splitCapture (s : list ascii) : option (list ascii) :=
  match pagesPattern s with
  | Some u => Some u
  | None =>
    match s with
    | [] => None
    | _ :: s' => splitCapture s'
    end
  end.

(** part_000:136-150.  [None] is the [TypeError] of [url.endsWith] on
    [undefined]. *)
Definition getPageUrl (path : list ascii) : option (list ascii) :=
  match splitCapture path with
  | None => None
  | Some url =>
    let url := if endsWith (text "index") url then sliceEnd 6 url else url in
    Some (if bool_decide (url = []) then text "/" else url)
  end.

(** What [getPagesFromConfig] reads of a component; [modulePath] is
    [component.importSpec.modulePath]. *)
Record component := {
  name : list ascii;
  componentType : list ascii;
  modulePath : list ascii
}.

Record project := {
  projectId : list ascii;
  components : list component
}.

Record page := {
  page_name : list ascii;
  page_projectId : list ascii;
  page_path : list ascii;
  page_url : list ascii
}.

(** The environment variables that count as set: [process.env.X] is
    truthy. *)
Definition truthy (v : option string) : bool :=
  match v with
  | Some v => negb (bool_decide (v = ""))
  | None => false
  end.

(** part_000:10-18. *)
Definition getEnv (process_env : gmap string string)
    : gmap string (option string) :=
  <["NODE_OPTIONS" := process_env !! "LOADER_CLI_NODE_OPTIONS"]>
    (<["npm_config_yes" := Some "1"]>
       (<["PLASMIC_LOADER" := Some "1"]>
          ((Some <$> process_env) ∪ {["QUIET" := Some "1"]}))).

Definition quoted (s : string) : list ascii :=
  ["034"%char] ++ text s ++ ["034"%char].

Definition newline : list ascii := ["010"%char].

(** The [package.json] of part_000:75-81. *)
Definition packageJson : list ascii :=
  text "{" ++ newline
  ++ text "  " ++ quoted "name" ++ text ":" ++ quoted "plasmic-loader"
  ++ text "," ++ newline
  ++ text "  " ++ quoted "version" ++ text ":" ++ quoted "0.0.1"
  ++ text "," ++ newline
  ++ text "  " ++ quoted "dependencies" ++ text ": {" ++ newline
  ++ text "    " ++ quoted "@plasmicapp/react-web" ++ text ": "
  ++ quoted "latest" ++ newline
  ++ text "  }" ++ newline
  ++ text "}".

Definition authCommand : list ascii :=
  text "npx -p @plasmicapp/cli@latest plasmic auth --email".
Definition yalcCommand : list ascii := text "yalc add @plasmicapp/cli".
Definition updateCommand : list ascii :=
  text "npm update --no-package-lock --legacy-peer-deps".
Definition initCommand (initArgs : list (list ascii * value)) : list ascii :=
  text "npx -p @plasmicapp/cli@latest plasmic init --enable-skip-auth "
  ++ objToExecArgs initArgs.
Definition fixImportsCommand : list ascii :=
  text "npx -p @plasmicapp/cli@latest plasmic fix-imports".

Section Process.

Set Default Proof Using "Type".

(** [path.join] of [upath], [process.env], [process.cwd()] and the
    answers of the world, which can depend on the calls made so far. *)
Variable path_join : list ascii → list ascii → list ascii.
Variable process_env : gmap string string.
Variable process_cwd : list ascii.
Variable respond : list action → action → reply.

(** An awaited call. *)
Definition call (a : action) : L (list ascii) := λ h,
  match respond h a with
  | Fulfilled out => (Ok out, h ++ [a])
  | Rejected e => (Err e, h ++ [a])
  end.

(** part_000:20-32.  [dir] is [opts.dir], which counts as missing when it
    is undefined or empty; [hideOutput] is [opts.hideOutput], false when
    it is undefined. *)
Definition execaOf (command : list ascii) (dir : option (list ascii))
    (hideOutput : bool) : execaCall :=
  let dir :=
    match dir with
    | Some (c :: d) => c :: d
    | Some [] | None => process_cwd
    end in
  let words := split " "%char command in
  {| file := hd [] words;
     args := tl words;
     cwd := dir;
     env := getEnv process_env;
     stdio_of := if hideOutput then Pipe else Inherit |}.

Definition runCommand (command : list ascii) (dir : option (list ascii))
    (hideOutput : bool) : L (list ascii) :=
  call (Execa (execaOf command dir hideOutput)).

(** part_000:43-53. *)
Definition getCurrentUser : L (list ascii) :=
  try_catch (runCommand authCommand None false)
    (λ error,
       (* If the error is that the user's credentials are invalid, return
          no user. *)
       if match message error with
          | Some m => includes (text "authentication credentials") m
          | None => false
          end
       then ret []
       else throw error).

(** part_000:72-94. *)
Definition installPackages (plasmicDir : list ascii) : L unit :=
  call (FsWriteFile (path_join plasmicDir (text "package.json")) packageJson) ;;
  (if truthy (process_env !! "DO_YALC_ADD_CLI")
   then runCommand yalcCommand (Some plasmicDir) true ;; ret ()
   else ret ()) ;;
  if negb (truthy (process_env !! "NO_INSTALL"))
  then runCommand updateCommand (Some plasmicDir) false ;; ret ()
  else ret ().

(** part_000:96-117. *)
Definition tryInitializePlasmicDir (plasmicDir : list ascii)
    (initArgs : list (list ascii * value)) : L unit :=
  call (FsMkdir plasmicDir) ;;
  installPackages plasmicDir ;;
  let configPath := path_join plasmicDir (text "plasmic.json") in
  try_catch (call (FsAccess configPath) ;; ret ())
    (λ error,
       if negb (bool_decide (code error = Some "ENOENT"))
       then throw error
       else
         runCommand (initCommand initArgs) (Some plasmicDir) false ;;
         ret ()).

(** part_000:130-134. *)
Definition fixImports (dir : list ascii) : L (list ascii) :=
  runCommand fixImportsCommand (Some dir) false.

(** part_000:152-174. *)
Definition getPagesFromConfig (plasmicDir : list ascii)
    (config_projects : list project) : option (list page) :=
  forEach config_projects
    (λ componentData project,
       forEach (components project)
         (λ componentData component,
            if negb (bool_decide (componentType component = text "page"))
            then Some componentData
            else
              match getPageUrl (modulePath component) with
              | Some url =>
                Some (componentData
                      ++ [{| page_name := name component;
                             page_projectId := projectId project;
                             page_path :=
                               path_join plasmicDir (modulePath component);
                             page_url := url |}])
              | None => None
              end)
         componentData)
    [].

(** part_000:176-195. *)
Definition syncProject (dir userDir : list ascii)
    (projects : list (list ascii)) : L (list ascii) :=
  runCommand
    (join (text " ")
          ([text "npx -p @plasmicapp/cli@latest plasmic sync";
            text "--yes";
            text "--metadata source=loader";
            text "--loader-config";
            path_join userDir (text "plasmic-loader.json");
            text "--projects"]
           ++ projects))
    (Some dir) false.

(** ** Vocabulary of the statements *)

(** The words that [execa] is to receive from [syncProject]. *)
Definition syncWords (configPath : list ascii)
    (projects : list (list ascii)) : list (list ascii) :=
  [text "npx"; text "-p"; text "@plasmicapp/cli@latest"; text "plasmic";
   text "sync"; text "--yes"; text "--metadata"; text "source=loader";
   text "--loader-config"; configPath; text "--projects"]
  ++ projects.

(** The fixed words of [plasmic init]. *)
Definition initWords : list (list ascii) :=
  [text "npx"; text "-p"; text "@plasmicapp/cli@latest"; text "plasmic";
   text "init"; text "--enable-skip-auth"].

(** The calls of [installPackages], in their order. *)
Definition installActions (plasmicDir : list ascii) : list action :=
  [FsWriteFile (path_join plasmicDir (text "package.json")) packageJson]
  ++ (if truthy (process_env !! "DO_YALC_ADD_CLI")
      then [Execa (execaOf yalcCommand (Some plasmicDir) true)]
      else [])
  ++ (if negb (truthy (process_env !! "NO_INSTALL"))
      then [Execa (execaOf updateCommand (Some plasmicDir) false)]
      else []).

(** The call of [plasmic init]. *)
Definition initAction (plasmicDir : list ascii)
    (initArgs : list (list ascii * value)) : action :=
  Execa (execaOf (initCommand initArgs) (Some plasmicDir) false).

(** The calls of [tryInitializePlasmicDir] at their longest. *)
Definition initActions (plasmicDir : list ascii)
    (initArgs : list (list ascii * value)) : list action :=
  FsMkdir plasmicDir
  :: installActions plasmicDir
  ++ [FsAccess (path_join plasmicDir (text "plasmic.json"));
      initAction plasmicDir initArgs].

(** A computation that makes the calls of a script in their order: it
    stops early only by throwing, and it makes no other call. *)
Definition performs {A} (script : list action) (m : L A) : Prop :=
  ∀ h, ∃ acts,
    (m h).2 = h ++ acts
    ∧ acts `prefix_of` script
    ∧ ∀ a, (m h).1 = Ok a → acts = script.

(** The pages of a configuration: the components of type [page], each
    with the id of its project, in the order of the configuration. *)
Definition pageComponents (config_projects : list project)
    : list (list ascii * component) :=
  filter (λ pc, componentType pc.2 = text "page")
         (config_projects
            ≫= λ project, map (pair (projectId project)) (components project)).

Definition pageOf (plasmicDir : list ascii) (pc : list ascii * component)
    : option page :=
  match getPageUrl (modulePath pc.2) with
  | Some url =>
    Some {| page_name := name pc.2;
            page_projectId := pc.1;
            page_path := path_join plasmicDir (modulePath pc.2);
            page_url := url |}
  | None => None
  end.

(** ** Facts about strings *)

Lemma text_space : text " " = [" "%char].
Proof. reflexivity. Qed.

Lemma split_nonempty sep s : split sep s ≠ [].
Proof.
  destruct s as [|c s]; simpl; [done|].
  destruct (decide (c = sep)); [done|]. by destruct (split sep s).
Qed.

Lemma split_words sep s : Forall (λ w, sep ∉ w) (split sep s).
Proof.
  induction s as [|c s IH]; simpl.
  - constructor; [apply not_elem_of_nil|constructor].
  - destruct (decide (c = sep)) as [->|Hne].
    + constructor; [apply not_elem_of_nil|done].
    + destruct (split sep s) as [|w ws].
      * constructor; [|constructor].
        by intros ->%list_elem_of_singleton.
      * inversion IH as [|? ? Hw Hws]; subst. constructor; [|done].
        rewrite elem_of_cons. intros [?|?]; [congruence|done].
Qed.

Lemma join_cons sep w w' ws :
  join sep (w :: w' :: ws) = w ++ sep ++ join sep (w' :: ws).
Proof. reflexivity. Qed.

Lemma join_split sep s : join [sep] (split sep s) = s.
Proof.
  induction s as [|c s IH]; simpl; [done|].
  pose proof (split_nonempty sep s) as Hne.
  destruct (decide (c = sep)) as [->|Hc].
  - destruct (split sep s) as [|w ws]; [done|].
    rewrite join_cons. simpl. by rewrite <-IH.
  - destruct (split sep s) as [|w ws]; [done|].
    destruct ws as [|w' ws]; simpl in *; by rewrite <-IH.
Qed.

Lemma split_word sep w : sep ∉ w → split sep w = [w].
Proof.
  induction w as [|c w IH]; simpl; [done|].
  rewrite not_elem_of_cons. intros [Hc Hw].
  destruct (decide (c = sep)); [congruence|]. by rewrite IH.
Qed.

Lemma split_app sep a b :
  split sep (a ++ sep :: b) = split sep a ++ split sep b.
Proof.
  induction a as [|c a IH]; simpl.
  - by destruct (decide (sep = sep)).
  - destruct (decide (c = sep)); [by rewrite IH|].
    rewrite IH. pose proof (split_nonempty sep a).
    by destruct (split sep a).
Qed.

(** Splitting what [join] made gives the words of the elements. *)
Lemma split_join_concat sep l :
  l ≠ [] → split sep (join [sep] l) = concat (map (split sep) l).
Proof.
  induction l as [|w ws IH]; [done|]. intros _.
  destruct ws as [|w' ws].
  - simpl. by rewrite app_nil_r.
  - rewrite join_cons. change ([sep] ++ ?x) with (sep :: x).
    rewrite split_app, IH by done. reflexivity.
Qed.

Lemma split_join sep l :
  l ≠ [] → Forall (λ w, sep ∉ w) l → split sep (join [sep] l) = l.
Proof.
  intros Hne Hl. rewrite split_join_concat by done. clear Hne.
  induction Hl as [|w ws Hw _ IH]; [done|].
  simpl. by rewrite split_word, IH.
Qed.

Lemma stripPrefix_Some p s r : stripPrefix p s = Some r ↔ s = p ++ r.
Proof.
  revert s. induction p as [|c p IH]; intros s; simpl.
  - split; [by intros [= ->]|by intros ->].
  - destruct s as [|d s]; [done|].
    destruct (decide (c = d)) as [->|Hne].
    + rewrite IH. split; [by intros ->|by intros [= ->]].
    + split; [done|]. intros [= ? ?]. congruence.
Qed.

Lemma stripPrefix_None p s :
  stripPrefix p s = None → ¬ p `prefix_of` s.
Proof.
  intros Hnone [r Hr]. apply stripPrefix_Some in Hr. congruence.
Qed.

(** [includes] finds the needle exactly when it occurs somewhere. *)
Lemma includes_spec needle s :
  includes needle s = true ↔ ∃ a b, s = a ++ needle ++ b.
Proof.
  induction s as [|c s IH]; simpl.
  - rewrite orb_false_r, bool_decide_eq_true. split.
    + intros [b ->]. by exists [], b.
    + intros (a & b & Hs). symmetry in Hs.
      apply app_eq_nil in Hs as [-> [-> ->]%app_eq_nil]. done.
  - rewrite orb_true_iff, bool_decide_eq_true, IH. split.
    + intros [[b ->]|(a & b & ->)]; [by exists [], b|by exists (c :: a), b].
    + intros (a & b & Hs). destruct a as [|c' a]; simpl in Hs.
      * left. by exists b.
      * right. injection Hs as -> ->. by exists a, b.
Qed.

(** ** Running a command *)

Lemma runCommand_run command dir hideOutput h :
  runCommand command dir hideOutput h
  = (match respond h (Execa (execaOf command dir hideOutput)) with
     | Fulfilled out => Ok out
     | Rejected e => Err e
     end,
     h ++ [Execa (execaOf command dir hideOutput)]).
Proof.
  unfold runCommand, call. by destruct (respond _ _).
Qed.

Lemma execaOf_words command dir hideOutput :
  file (execaOf command dir hideOutput) :: args (execaOf command dir hideOutput)
  = split " "%char command.
Proof.
  unfold execaOf. simpl. pose proof (split_nonempty " "%char command).
  by destruct (split _ command).
Qed.

(** X16.  [runCommand] makes one call on the world, of [execa], in the
    directory it is given or else in the working directory of the
    process.  The file and the arguments of the call are the words of
    the command: joined by single spaces they give the command back, and
    none of them contains a space. *)
Theorem runCommand_words command dir hideOutput h :
  ∃ c,
    (runCommand command dir hideOutput h).2 = h ++ [Execa c]
    ∧ join (text " ") (file c :: args c) = command
    ∧ Forall (λ w, " "%char ∉ w) (file c :: args c)
    ∧ cwd c = match dir with
              | Some (x :: d) => x :: d
              | _ => process_cwd
              end.
Proof.
  exists (execaOf command dir hideOutput).
  rewrite runCommand_run, execaOf_words, text_space. simpl.
  split; [done|]. split; [apply join_split|]. split; [apply split_words|].
  by destruct dir as [[|x d]|].
Qed.

Lemma concat_singletons {A} (l : list A) : concat (map (λ x, [x]) l) = l.
Proof. induction l as [|x l IH]; simpl; by rewrite ?IH. Qed.

Lemma split_words_each sep l :
  Forall (λ w, sep ∉ w) l → map (split sep) l = map (λ w, [w]) l.
Proof.
  induction 1 as [|w l Hw _ IH]; simpl; [done|]. by rewrite split_word, IH.
Qed.

(** X17.  When neither the path of the loader configuration nor a
    project id contains a space, [syncProject] calls [execa] with the
    file [npx] and with the arguments of [plasmic sync], among them the
    words [--metadata] and [source=loader], the configuration path as
    one argument, and after [--projects] the project ids, one argument
    each. *)
Theorem syncProject_words dir userDir projects h :
  " "%char ∉ path_join userDir (text "plasmic-loader.json") →
  Forall (λ p, " "%char ∉ p) projects →
  ∃ c,
    (syncProject dir userDir projects h).2 = h ++ [Execa c]
    ∧ file c :: args c
      = syncWords (path_join userDir (text "plasmic-loader.json")) projects
    ∧ stdio_of c = Inherit.
Proof.
  intros Hpath Hprojects. unfold syncProject.
  rewrite runCommand_run. eexists. split; [reflexivity|].
  split; [|reflexivity].
  rewrite execaOf_words, text_space.
  rewrite split_join_concat by (simpl; discriminate).
  rewrite map_app, concat_app, (split_words_each _ projects) by done.
  rewrite concat_singletons.
  simpl. rewrite (split_word _ (path_join _ _)) by done. reflexivity.
Qed.

(** X18.  [syncProject] splits its command at every space: when the path
    of the loader configuration contains a space, no argument that
    [execa] receives is that path. *)
Theorem syncProject_splits_config_path dir userDir projects h :
  " "%char ∈ path_join userDir (text "plasmic-loader.json") →
  ∃ c,
    (syncProject dir userDir projects h).2 = h ++ [Execa c]
    ∧ path_join userDir (text "plasmic-loader.json") ∉ args c.
Proof.
  intros Hpath. unfold syncProject. rewrite runCommand_run.
  eexists. split; [reflexivity|]. intros Hin.
  match goal with
  | _ : _ ∈ args (execaOf ?command ?dir ?hide) |- _ =>
    pose proof (split_words " "%char command) as Hwords;
      rewrite <-(execaOf_words command dir hide) in Hwords
  end.
  rewrite Forall_forall in Hwords.
  apply (Hwords (path_join userDir (text "plasmic-loader.json")));
    [by apply elem_of_cons; right|done].
Qed.

(** ** The arguments of [plasmic init] *)

Lemma initCommand_split initArgs :
  split " "%char (initCommand initArgs)
  = initWords ++ split " "%char (objToExecArgs initArgs).
Proof.
  unfold initCommand.
  change (text "npx -p @plasmicapp/cli@latest plasmic init --enable-skip-auth ")
    with (text "npx -p @plasmicapp/cli@latest plasmic init --enable-skip-auth"
          ++ [" "%char]).
  rewrite <-app_assoc. change ([?c] ++ ?l) with (c :: l).
  by rewrite split_app.
Qed.

(** X19.  The words of [plasmic init].  When no parameter and no value of
    [initArgs] contains a space, the command that
    [tryInitializePlasmicDir] runs is split into the fixed words followed
    by one [--param=value] word for each entry.  With the default, empty
    [initArgs] the command ends in a space, and the last word is the
    empty string. *)
Theorem initCommand_words initArgs :
  Forall (λ entry, (" "%char ∉ entry.1) ∧ (" "%char ∉ valueText entry.2))
         initArgs →
  split " "%char (initCommand initArgs)
  = initWords ++ match initArgs with
                 | [] => [[]]
                 | _ :: _ => map execArg initArgs
                 end.
Proof.
  intros Hargs. rewrite initCommand_split. f_equal.
  destruct initArgs as [|entry initArgs]; [done|].
  unfold objToExecArgs. rewrite text_space. apply split_join; [done|].
  apply Forall_fmap. eapply Forall_impl; [exact Hargs|].
  intros [param v] [Hparam Hv]. cbn [fst snd] in *.
  change (" "%char ∉ text "--" ++ param ++ text "=" ++ valueText v).
  rewrite !not_elem_of_app. split_and!; [|done| |done];
    vm_compute; intros Hin;
    repeat (apply elem_of_cons in Hin as [Hin|Hin]; [discriminate|]);
    by apply elem_of_nil in Hin.
Qed.

(** ** Preparing the loader's directory *)

Lemma performs_ret {A} (a : A) : performs [] (ret a).
Proof. intros h. exists []. by rewrite app_nil_r. Qed.

Lemma performs_call a : performs [a] (call a).
Proof.
  intros h. exists [a]. unfold call.
  by destruct (respond h a).
Qed.

Lemma performs_bind {A B} s1 s2 (m : L A) (k : A → L B) :
  performs s1 m → (∀ a, performs s2 (k a)) → performs (s1 ++ s2) (bind m k).
Proof.
  intros Hm Hk h. unfold bind.
  destruct (Hm h) as (acts1 & Hh1 & Hpre1 & Hok1).
  destruct (m h) as [[a|e] h1]; simpl in *; subst h1.
  - rewrite (Hok1 a eq_refl).
    destruct (Hk a (h ++ s1)) as (acts2 & Hh2 & Hpre2 & Hok2).
    exists (s1 ++ acts2). rewrite Hh2, app_assoc.
    split; [done|]. split; [by apply prefix_app|].
    intros b Hb. by rewrite (Hok2 b Hb).
  - exists acts1. split; [done|]. split; [by apply prefix_app_r|done].
Qed.

Lemma performs_runCommand command dir hideOutput :
  performs [Execa (execaOf command dir hideOutput)]
           (runCommand command dir hideOutput).
Proof. apply performs_call. Qed.

Lemma installPackages_performs plasmicDir :
  performs (installActions plasmicDir) (installPackages plasmicDir).
Proof.
  unfold installPackages, installActions.
  apply performs_bind; [apply performs_call|intros _].
  apply performs_bind; [|intros _].
  - destruct (truthy (process_env !! "DO_YALC_ADD_CLI")).
    + apply (performs_bind [_] []);
        [apply performs_runCommand|intros _; apply performs_ret].
    + apply performs_ret.
  - destruct (negb (truthy (process_env !! "NO_INSTALL"))).
    + apply (performs_bind [_] []);
        [apply performs_runCommand|intros _; apply performs_ret].
    + apply performs_ret.
Qed.

Lemma prepare_performs plasmicDir :
  performs (FsMkdir plasmicDir :: installActions plasmicDir)
           (call (FsMkdir plasmicDir) ;; installPackages plasmicDir).
Proof.
  apply (performs_bind [_]); [apply performs_call|intros _].
  apply installPackages_performs.
Qed.

(** What [tryInitializePlasmicDir] does once the directory is prepared. *)
Lemma tryInitializePlasmicDir_run plasmicDir initArgs h :
  tryInitializePlasmicDir plasmicDir initArgs h
  = match (call (FsMkdir plasmicDir) ;; installPackages plasmicDir) h with
    | (Ok _, h1) =>
      let access := FsAccess (path_join plasmicDir (text "plasmic.json")) in
      match respond h1 access with
      | Fulfilled _ => (Ok (), h1 ++ [access])
      | Rejected e =>
        if bool_decide (code e = Some "ENOENT")
        then
          (match respond (h1 ++ [access]) (initAction plasmicDir initArgs) with
           | Fulfilled _ => Ok ()
           | Rejected e' => Err e'
           end,
           (h1 ++ [access]) ++ [initAction plasmicDir initArgs])
        else (Err e, h1 ++ [access])
      end
    | (Err e, h1) => (Err e, h1)
    end.
Proof.
  unfold tryInitializePlasmicDir, bind at 1 2 5.
  destruct (call (FsMkdir plasmicDir) h) as [[out|e] h0]; [|done].
  destruct (installPackages plasmicDir h0) as [[[]|e] h1]; [|done].
  cbv zeta. unfold try_catch, bind, call, ret, throw, runCommand, initAction.
  destruct (respond h1 _) as [out'|e]; [done|]. simpl.
  destruct (bool_decide (code e = Some "ENOENT")); simpl; [|done].
  unfold call. by destruct (respond _ _).
Qed.

(** X20.  The calls of [tryInitializePlasmicDir].  Whatever the world
    answers, the calls that the function makes are, in this order, a
    beginning of: create the directory, write [package.json], run
    [yalc add] if [DO_YALC_ADD_CLI] is set, run [npm update] unless
    [NO_INSTALL] is set, probe [plasmic.json], run [plasmic init]; and
    the directory is always created. *)
Theorem tryInitializePlasmicDir_script plasmicDir initArgs h :
  ∃ acts,
    (tryInitializePlasmicDir plasmicDir initArgs h).2
    = h ++ FsMkdir plasmicDir :: acts
    ∧ FsMkdir plasmicDir :: acts `prefix_of` initActions plasmicDir initArgs.
Proof.
  rewrite tryInitializePlasmicDir_run.
  destruct (prepare_performs plasmicDir h) as (acts & Hh & Hpre & Hok).
  assert (Hhead : ∃ acts', acts = FsMkdir plasmicDir :: acts').
  { unfold bind, call in Hh.
    destruct (respond h (FsMkdir plasmicDir)) as [out|e]; simpl in Hh.
    - destruct (installPackages_performs plasmicDir (h ++ [FsMkdir plasmicDir]))
        as (acts2 & Hh2 & _).
      rewrite Hh2, <-app_assoc in Hh. apply app_inv_head in Hh.
      exists acts2. by rewrite <-Hh.
    - apply app_inv_head in Hh. exists []. by rewrite <-Hh. }
  destruct Hhead as [acts' ->].
  destruct ((call (FsMkdir plasmicDir) ;; installPackages plasmicDir) h)
    as [[[]|e] h1]; simpl in *; subst h1.
  - specialize (Hok () eq_refl). injection Hok as Hok. cbv zeta.
    set (access := FsAccess _). unfold initActions. fold access.
    rewrite <-Hok.
    destruct (respond _ access) as [out|e].
    + exists (acts' ++ [access]).
      rewrite <-app_assoc. split; [done|].
      apply prefix_cons, prefix_app, prefix_cons, prefix_nil.
    + destruct (bool_decide _).
      * exists (acts' ++ [access; initAction plasmicDir initArgs]).
        rewrite <-!app_assoc. split; done.
      * exists (acts' ++ [access]).
        rewrite <-app_assoc. split; [done|].
        apply prefix_cons, prefix_app, prefix_cons, prefix_nil.
  - exists acts'. split; [done|]. unfold initActions.
    destruct Hpre as [rest Hrest]. injection Hrest as Hrest.
    rewrite Hrest, <-app_assoc. apply prefix_cons, prefix_app_r. done.
Qed.

Lemma initAction_file plasmicDir initArgs :
  ∃ c, initAction plasmicDir initArgs = Execa c ∧ file c = text "npx".
Proof.
  eexists. split; [reflexivity|]. unfold execaOf. cbn [file].
  by rewrite initCommand_split.
Qed.

Lemma initAction_not_prepared plasmicDir initArgs :
  initAction plasmicDir initArgs
    ∉ FsMkdir plasmicDir :: installActions plasmicDir.
Proof.
  destruct (initAction_file plasmicDir initArgs) as (c & -> & Hfile).
  unfold installActions.
  rewrite !elem_of_cons, !elem_of_app, list_elem_of_singleton.
  intros [?|[?|[Hin|Hin]]]; [done|done| |].
  - destruct (truthy _); [|by apply elem_of_nil in Hin].
    apply list_elem_of_singleton in Hin. injection Hin as ->.
    vm_compute in Hfile. discriminate.
  - destruct (negb _); [|by apply elem_of_nil in Hin].
    apply list_elem_of_singleton in Hin. injection Hin as ->.
    vm_compute in Hfile. discriminate.
Qed.

(** X21.  [plasmic init] is run exactly when the directory has been
    prepared without a rejection and the probe of [plasmic.json] is then
    rejected with the code [ENOENT]. *)
Theorem tryInitializePlasmicDir_init_iff plasmicDir initArgs h :
  initAction plasmicDir initArgs
    ∈ drop (length h) (tryInitializePlasmicDir plasmicDir initArgs h).2
  ↔ ∃ h1 e,
      (call (FsMkdir plasmicDir) ;; installPackages plasmicDir) h = (Ok (), h1)
      ∧ respond h1 (FsAccess (path_join plasmicDir (text "plasmic.json")))
        = Rejected e
      ∧ code e = Some "ENOENT".
Proof.
  rewrite tryInitializePlasmicDir_run.
  destruct (prepare_performs plasmicDir h) as (acts & Hh & Hpre & Hok).
  pose proof (initAction_not_prepared plasmicDir initArgs) as Hnot.
  assert (Hacts : initAction plasmicDir initArgs ∉ acts).
  { intros Hin. apply Hnot. destruct Hpre as [rest ->].
    apply elem_of_app. by left. }
  destruct ((call (FsMkdir plasmicDir) ;; installPackages plasmicDir) h)
    as [[[]|e] h1]; simpl in *; subst h1.
  - cbv zeta. set (access := FsAccess _).
    assert (Haccess : initAction plasmicDir initArgs ≠ access) by done.
    destruct (respond (h ++ acts) access) as [out|e] eqn:Hreply.
    + cbn [snd]. rewrite <-app_assoc, drop_app_length. split.
      * intros [?|?%list_elem_of_singleton]%elem_of_app; done.
      * intros (h1 & e & [= <-] & Hr & _). congruence.
    + destruct (bool_decide (code e = Some "ENOENT")) eqn:Hcode; cbn [snd].
      * rewrite <-!app_assoc, drop_app_length. split.
        -- intros _. exists (h ++ acts), e.
           by apply bool_decide_eq_true in Hcode.
        -- intros _. rewrite !elem_of_app, elem_of_cons. by right; right;left.
      * rewrite <-app_assoc, drop_app_length. split.
        -- intros [?|?%list_elem_of_singleton]%elem_of_app; done.
        -- intros (h1 & e' & [= <-] & Hr & He').
           rewrite Hreply in Hr. injection Hr as <-.
           by apply bool_decide_eq_false in Hcode.
  - rewrite drop_app_length. split; [done|].
    by intros (h1 & e' & [=] & _).
Qed.

(** ** The environment of a command *)

(** X22.  The environment that [getEnv] hands to a command.
    [PLASMIC_LOADER] and [npm_config_yes] are [1] whatever the process
    has; [NODE_OPTIONS] is what the process has as
    [LOADER_CLI_NODE_OPTIONS], and undefined if it has none; [QUIET] is
    that of the process, and [1] if it has none; every other variable is
    that of the process. *)
Theorem getEnv_lookup (k : string) :
  getEnv process_env !! k
  = if decide (k = "NODE_OPTIONS")
    then Some (process_env !! "LOADER_CLI_NODE_OPTIONS")
    else if decide (k = "npm_config_yes" ∨ k = "PLASMIC_LOADER")
    then Some (Some "1")
    else if decide (k = "QUIET")
    then Some (Some (default "1" (process_env !! "QUIET")))
    else Some <$> process_env !! k.
Proof.
  unfold getEnv.
  destruct (decide (k = "NODE_OPTIONS")) as [->|H1];
    [by rewrite lookup_insert_eq|].
  rewrite lookup_insert_ne by done.
  destruct (decide (k = "npm_config_yes")) as [->|H2].
  { rewrite lookup_insert_eq. by rewrite decide_True by by left. }
  rewrite lookup_insert_ne by done.
  destruct (decide (k = "PLASMIC_LOADER")) as [->|H3].
  { rewrite lookup_insert_eq. by rewrite decide_True by by right. }
  rewrite lookup_insert_ne by done.
  rewrite decide_False by by intros [?|?].
  rewrite lookup_union, lookup_fmap.
  destruct (decide (k = "QUIET")) as [->|H4].
  - rewrite lookup_singleton_eq. by destruct (process_env !! "QUIET").
  - rewrite lookup_singleton_ne by done. by destruct (process_env !! k).
Qed.

(** ** The current user *)

(** X23.  [getCurrentUser] runs [plasmic auth --email] once.  When the
    command is rejected with a message in which the words
    [authentication credentials] occur, the function returns the empty
    user instead of throwing. *)
Theorem getCurrentUser_invalid_credentials h e before after :
  respond h (Execa (execaOf authCommand None false)) = Rejected e →
  message e = Some (before ++ text "authentication credentials" ++ after) →
  getCurrentUser h = (Ok [], h ++ [Execa (execaOf authCommand None false)]).
Proof.
  intros Hreply Hmessage. unfold getCurrentUser, try_catch.
  rewrite runCommand_run, Hreply, Hmessage.
  assert (includes (text "authentication credentials")
                   (before ++ text "authentication credentials" ++ after)
          = true) as ->; [|done].
  apply includes_spec. eauto.
Qed.

(** ** Pages *)

Lemma captureUpToDot_None s : "."%char ∉ s → captureUpToDot s = None.
Proof.
  induction s as [|c s IH]; simpl; [done|].
  rewrite not_elem_of_cons. intros [Hc Hs]. rewrite (IH Hs).
  rewrite bool_decide_eq_false_2 by done. by destruct (lineTerminator c).
Qed.

Lemma restOfInput_Forall s :
  restOfInput s = true ↔ Forall (λ c, lineTerminator c = false) s.
Proof.
  unfold restOfInput. rewrite forallb_forall, Forall_forall.
  split; intros H c Hc.
  - apply negb_true_iff, H. by apply list_elem_of_In.
  - apply negb_true_iff, H. by apply list_elem_of_In.
Qed.

(** The capture goes up to the last dot. *)
Lemma captureUpToDot_last u ext :
  Forall (λ c, lineTerminator c = false) u →
  Forall (λ c, lineTerminator c = false) ext →
  "."%char ∉ ext →
  captureUpToDot (u ++ "."%char :: ext) = Some u.
Proof.
  intros Hu Hext Hdot. induction Hu as [|c u Hc _ IH]; simpl.
  - rewrite (captureUpToDot_None ext Hdot).
    by rewrite (proj2 (restOfInput_Forall ext) Hext).
  - by rewrite Hc, IH.
Qed.

Lemma stripPrefix_app p s : stripPrefix p (p ++ s) = Some s.
Proof. by apply stripPrefix_Some. Qed.

Lemma includes_cons needle c s :
  includes needle (c :: s) = false →
  ¬ needle `prefix_of` c :: s ∧ includes needle s = false.
Proof.
  simpl. intros [H1 H2]%orb_false_iff. split; [|done].
  by apply bool_decide_eq_false in H1.
Qed.

Lemma includes_not needle s :
  (∀ a b, s ≠ a ++ needle ++ b) → includes needle s = false.
Proof.
  intros Hnot. destruct (includes needle s) eqn:Hin; [|done].
  apply includes_spec in Hin as (a & b & ->). by destruct (Hnot a b).
Qed.

Lemma prefix_app_short {A} (p a b : list A) :
  p `prefix_of` a ++ b → (length p ≤ length a)%nat → p `prefix_of` a.
Proof.
  intros [r Hr] Hlen.
  assert (p = take (length p) a) as ->; [|apply prefix_take].
  rewrite <-(take_app_le a b) by done. by rewrite Hr, take_app_length.
Qed.

(** The split starts at the first occurrence of [pages]. *)
Lemma splitCapture_skip pre rest :
  includes (text "pages") (pre ++ text "page") = false →
  splitCapture (pre ++ text "pages" ++ rest)
  = splitCapture (text "pages" ++ rest).
Proof.
  induction pre as [|c pre IH]; [done|].
  intros [Hprefix Hrest]%includes_cons.
  change ((c :: pre) ++ ?x) with (c :: (pre ++ x)).
  cbn [splitCapture]. rewrite <-(IH Hrest).
  unfold pagesPattern.
  destruct (stripPrefix (text "pages") (c :: pre ++ text "pages" ++ rest))
    as [r|] eqn:Hstrip; [|done].
  destruct Hprefix. apply stripPrefix_Some in Hstrip.
  apply (prefix_app_short _ _ ("s"%char :: rest)).
  - exists r. rewrite <-Hstrip. simpl. by rewrite <-app_assoc.
  - simpl. rewrite length_app. simpl. lia.
Qed.

Lemma splitCapture_page pre u ext :
  (∀ a b, pre ++ text "page" ≠ a ++ text "pages" ++ b) →
  Forall (λ c, lineTerminator c = false) u →
  Forall (λ c, lineTerminator c = false) ext →
  "."%char ∉ ext →
  splitCapture (pre ++ text "pages" ++ u ++ "."%char :: ext) = Some u.
Proof.
  intros Hfirst%includes_not Hu Hext Hdot.
  rewrite splitCapture_skip by done.
  change (text "pages" ++ ?x) with ("p"%char :: (text "ages" ++ x)).
  cbn [splitCapture]. unfold pagesPattern.
  change ("p"%char :: (text "ages" ++ ?x)) with (text "pages" ++ x).
  by rewrite stripPrefix_app, captureUpToDot_last.
Qed.

(** X24.  The URL of a page.  For a path made of a part in which
    [pages] does not begin, the word [pages], a part [u] that is not
    empty and does not end in [index], a dot and an extension without a
    dot, all on one line, [getPageUrl] returns [u]. *)
Theorem getPageUrl_page pre u ext :
  (∀ a b, pre ++ text "page" ≠ a ++ text "pages" ++ b) →
  Forall (λ c, lineTerminator c = false) u →
  Forall (λ c, lineTerminator c = false) ext →
  "."%char ∉ ext →
  u ≠ [] →
  ¬ text "index" `suffix_of` u →
  getPageUrl (pre ++ text "pages" ++ u ++ "."%char :: ext) = Some u.
Proof.
  intros Hfirst Hu Hext Hdot Hne Hindex. unfold getPageUrl.
  rewrite splitCapture_page by done. cbv zeta. unfold endsWith.
  rewrite (bool_decide_eq_false_2 (_ `suffix_of` _)) by done.
  by rewrite bool_decide_eq_false_2 by done.
Qed.

(** X25.  The ending [index].  When the part between [pages] and the
    last dot ends in [index], [getPageUrl] drops the last six characters
    of it, the word [index] and the character before it, whichever that
    is, and returns what is left, or [/] if nothing is left. *)
Theorem getPageUrl_index pre d c ext :
  (∀ a b, pre ++ text "page" ≠ a ++ text "pages" ++ b) →
  Forall (λ c, lineTerminator c = false) (d ++ c :: text "index") →
  Forall (λ c, lineTerminator c = false) ext →
  "."%char ∉ ext →
  getPageUrl (pre ++ text "pages" ++ (d ++ c :: text "index")
              ++ "."%char :: ext)
  = Some (if bool_decide (d = []) then text "/" else d).
Proof.
  intros Hfirst Hu Hext Hdot. unfold getPageUrl.
  rewrite splitCapture_page by done. cbv zeta. unfold endsWith.
  rewrite (bool_decide_eq_true_2 (_ `suffix_of` _)).
  - unfold sliceEnd. rewrite length_app. simpl length.
    replace (length d + 6 - 6)%nat with (length d) by lia.
    by rewrite take_app_length.
  - exists (d ++ [c]). by rewrite <-app_assoc.
Qed.

Lemma splitCapture_no_pages s :
  includes (text "pages") s = false → splitCapture s = None.
Proof.
  induction s as [|c s IH].
  - done.
  - intros [Hprefix Hrest]%includes_cons. cbn [splitCapture].
    rewrite (IH Hrest). unfold pagesPattern.
    destruct (stripPrefix (text "pages") (c :: s)) as [r|] eqn:Hstrip;
      [|done].
    destruct Hprefix. apply stripPrefix_Some in Hstrip. by exists r.
Qed.

Lemma splitCapture_no_dot s : "."%char ∉ s → splitCapture s = None.
Proof.
  assert (Hpattern : ∀ s, "."%char ∉ s → pagesPattern s = None).
  { intros s' Hs'. unfold pagesPattern.
    destruct (stripPrefix (text "pages") s') as [r|] eqn:Hstrip; [|done].
    apply stripPrefix_Some in Hstrip. subst s'.
    apply captureUpToDot_None. intros Hin. apply Hs'.
    apply elem_of_app. by right. }
  induction s as [|c s IH]; intros Hs.
  - done.
  - cbn [splitCapture]. rewrite (Hpattern _ Hs).
    apply IH. by apply not_elem_of_cons in Hs as [_ ?].
Qed.

(** X26.  A path without a page.  When [pages] does not occur in the
    path, or the path has no dot, the split yields no second element and
    [getPageUrl] throws the [TypeError] of a method call on
    [undefined]. *)
Theorem getPageUrl_undefined path :
  (∀ a b, path ≠ a ++ text "pages" ++ b) ∨ "."%char ∉ path →
  getPageUrl path = None.
Proof.
  intros Hpath. unfold getPageUrl.
  assert (splitCapture path = None) as ->; [|done].
  destruct Hpath as [Hpages|Hdot].
  - by apply splitCapture_no_pages, includes_not.
  - by apply splitCapture_no_dot.
Qed.

Lemma mapM_option_cons {A B} (f : A → option B) x l :
  mapM f (x :: l) = y ← f x; ys ← mapM f l; Some (y :: ys).
Proof. reflexivity. Qed.

Lemma mapM_option_app {A B} (f : A → option B) l1 l2 :
  mapM f (l1 ++ l2)
  = ys1 ← mapM f l1; ys2 ← mapM f l2; Some (ys1 ++ ys2).
Proof.
  induction l1 as [|x l1 IH]; simpl.
  - by destruct (mapM f l2).
  - destruct (f x) as [y|]; simpl; [|done]. rewrite IH.
    destruct (mapM f l1) as [ys1|]; simpl; [|done].
    by destruct (mapM f l2).
Qed.

Lemma forEach_components plasmicDir pid cs acc body :
  (∀ acc c,
     body acc c
     = if negb (bool_decide (componentType c = text "page"))
       then Some acc
       else match pageOf plasmicDir (pid, c) with
            | Some p => Some (acc ++ [p])
            | None => None
            end) →
  forEach cs body acc
  = ys ← mapM (pageOf plasmicDir)
            (filter (λ pc, componentType pc.2 = text "page")
                    (map (pair pid) cs));
    Some (acc ++ ys).
Proof.
  intros Hbody. revert acc. induction cs as [|c cs IH]; intros acc.
  - simpl. by rewrite app_nil_r.
  - cbn [forEach map]. rewrite Hbody, filter_cons. cbn [snd].
    destruct (decide (componentType c = text "page")) as [Hpage|Hpage].
    + rewrite bool_decide_eq_true_2 by done. cbn [negb].
      rewrite mapM_option_cons.
      destruct (pageOf plasmicDir (pid, c)) as [p|]; [|done].
      rewrite IH. simpl.
      destruct (mapM _ _) as [ys|]; simpl; [|done].
      by rewrite <-app_assoc.
    + rewrite bool_decide_eq_false_2 by done. cbn [negb]. apply IH.
Qed.

Lemma forEach_projects plasmicDir config_projects acc :
  forEach config_projects
    (λ componentData project,
       forEach (components project)
         (λ componentData component,
            if negb (bool_decide (componentType component = text "page"))
            then Some componentData
            else
              match getPageUrl (modulePath component) with
              | Some url =>
                Some (componentData
                      ++ [{| page_name := name component;
                             page_projectId := projectId project;
                             page_path :=
                               path_join plasmicDir (modulePath component);
                             page_url := url |}])
              | None => None
              end)
         componentData)
    acc
  = ys ← mapM (pageOf plasmicDir) (pageComponents config_projects);
    Some (acc ++ ys).
Proof.
  unfold pageComponents. revert acc.
  induction config_projects as [|p ps IH]; intros acc.
  - simpl. by rewrite app_nil_r.
  - cbn [forEach]. rewrite (forEach_components plasmicDir (projectId p)).
    + rewrite bind_cons, filter_app, mapM_option_app.
      destruct (mapM _ (filter _ (map _ (components p)))) as [ys1|];
        simpl; [|done].
      rewrite IH. destruct (mapM _ _) as [ys2|]; simpl; [|done].
      by rewrite app_assoc.
    + intros acc' c. unfold pageOf. cbn [fst snd].
      destruct (negb _); [done|]. by destruct (getPageUrl _).
Qed.

(** X27.  The pages of a configuration.  [getPagesFromConfig] returns one
    record for each component of type [page], in the order of the
    configuration and with the id of the project of the component, the
    module path joined to the loader's directory and the URL of
    [getPageUrl]; components of other types are left out.  It throws
    exactly when [getPageUrl] throws for one of the pages. *)
Theorem getPagesFromConfig_pages plasmicDir config_projects :
  getPagesFromConfig plasmicDir config_projects
  = mapM (pageOf plasmicDir) (pageComponents config_projects).
Proof.
  unfold getPagesFromConfig. rewrite forEach_projects.
  by destruct (mapM _ _).
Qed.

End Process.

End Loader.

(** ** The loader on an example *)

Module LoaderExample.

(** [path.join] of [upath], which on paths without backslashes is that
    of Node. *)
Definition path_join (a b : list ascii) : list ascii :=
  Loader.text (Posix.join (string_of_list_ascii a) (string_of_list_ascii b)).

Definition process_env : gmap string string := {["HOME" := "/home/dev"]}.

Definition process_cwd : list ascii := Loader.text "/work/app".

(** A world in which every call is fulfilled. *)
Definition fulfilling (h : list Loader.action) (a : Loader.action)
    : Loader.reply :=
  Loader.Fulfilled [].

(** A world in which the user is not logged in. *)
Definition loggedOut (h : list Loader.action) (a : Loader.action)
    : Loader.reply :=
  Loader.Rejected
    {| Loader.code := None;
       Loader.message :=
         Some (Loader.text "Error: invalid authentication credentials") |}.

End LoaderExample.

Abbreviation loaderSyncProject :=
  (Loader.syncProject LoaderExample.path_join LoaderExample.process_env
                      LoaderExample.process_cwd LoaderExample.fulfilling).

(** X17 on the example: two projects, and a user directory without a
    space. *)
Lemma syncProject_words_witness :
  ∃ c,
    (loaderSyncProject (Loader.text "/work/app/.plasmic")
       (Loader.text "/work/app") [Loader.text "p1"; Loader.text "p2"] []).2
    = [Loader.Execa c]
    ∧ Loader.file c :: Loader.args c
      = map Loader.text
          ["npx"; "-p"; "@plasmicapp/cli@latest"; "plasmic"; "sync"; "--yes";
           "--metadata"; "source=loader"; "--loader-config";
           "/work/app/plasmic-loader.json"; "--projects"; "p1"; "p2"].
Proof.
  destruct (Loader.syncProject_words
              LoaderExample.path_join LoaderExample.process_env
              LoaderExample.process_cwd LoaderExample.fulfilling
              (Loader.text "/work/app/.plasmic") (Loader.text "/work/app")
              [Loader.text "p1"; Loader.text "p2"] []
              ltac:(apply (bool_decide_unpack _); vm_compute; exact I)
              ltac:(apply (bool_decide_unpack _); vm_compute; exact I))
    as (c & Hc & Hwords & _).
  exists c. split; [exact Hc|]. rewrite Hwords. vm_compute. reflexivity.
Defined.

(** X18 on the example: a user directory with a space in its name. *)
Lemma syncProject_splits_config_path_witness :
  ∃ c,
    (loaderSyncProject (Loader.text "/work/my app/.plasmic")
       (Loader.text "/work/my app") [Loader.text "p1"] []).2
    = [Loader.Execa c]
    ∧ Loader.text "/work/my app/plasmic-loader.json" ∉ Loader.args c.
Proof.
  destruct (Loader.syncProject_splits_config_path
              LoaderExample.path_join LoaderExample.process_env
              LoaderExample.process_cwd LoaderExample.fulfilling
              (Loader.text "/work/my app/.plasmic")
              (Loader.text "/work/my app") [Loader.text "p1"] []
              ltac:(apply (bool_decide_unpack _); vm_compute; exact I))
    as (c & Hc & Hnot).
  exists c. split; [exact Hc|exact Hnot].
Defined.

(** X19 on the example: two arguments for [plasmic init]. *)
Lemma initCommand_words_witness :
  Loader.split " "%char
    (Loader.initCommand
       [(Loader.text "platform", Loader.Scalar (Loader.text "nextjs"));
        (Loader.text "scheme", Loader.Array [Loader.text "blackbox";
                                              Loader.text "direct"])])
  = map Loader.text
      ["npx"; "-p"; "@plasmicapp/cli@latest"; "plasmic"; "init";
       "--enable-skip-auth"; "--platform=nextjs"; "--scheme=blackbox,direct"].
Proof.
  rewrite (Loader.initCommand_words
             [(Loader.text "platform", Loader.Scalar (Loader.text "nextjs"));
              (Loader.text "scheme", Loader.Array [Loader.text "blackbox";
                                                    Loader.text "direct"])]
             ltac:(apply (bool_decide_unpack _); vm_compute; exact I)).
  vm_compute. reflexivity.
Defined.

(** X23 on the example: the user is not logged in. *)
Lemma getCurrentUser_invalid_credentials_witness :
  (Loader.getCurrentUser LoaderExample.process_env LoaderExample.process_cwd
     LoaderExample.loggedOut []).1
  = Loader.Ok [].
Proof.
  rewrite (Loader.getCurrentUser_invalid_credentials
             LoaderExample.process_env LoaderExample.process_cwd
             LoaderExample.loggedOut []
             {| Loader.code := None;
                Loader.message :=
                  Some (Loader.text
                          "Error: invalid authentication credentials") |}
             (Loader.text "Error: invalid ") [] eq_refl eq_refl).
  reflexivity.
Defined.

(** [pages] does not begin in [../page]. *)
Lemma pages_first :
  ∀ a b, Loader.text "../" ++ Loader.text "page"
         ≠ a ++ Loader.text "pages" ++ b.
Proof.
  intros a b H.
  assert (Loader.includes (Loader.text "pages") (Loader.text "../page") = true)
    as Hin by (apply Loader.includes_spec; eauto).
  vm_compute in Hin. discriminate.
Defined.

(** X24 on the example: the page of a blog post. *)
Lemma getPageUrl_page_witness :
  Loader.getPageUrl (Loader.text "../pages/blog/post.tsx")
  = Some (Loader.text "/blog/post").
Proof.
  exact (Loader.getPageUrl_page
           (Loader.text "../") (Loader.text "/blog/post") (Loader.text "tsx")
           pages_first
           ltac:(apply (bool_decide_unpack _); vm_compute; exact I)
           ltac:(apply (bool_decide_unpack _); vm_compute; exact I)
           ltac:(apply (bool_decide_unpack _); vm_compute; exact I)
           ltac:(discriminate)
           ltac:(apply (bool_decide_unpack _); vm_compute; exact I)).
Defined.

(** X25 on the example: the index page of the blog. *)
Lemma getPageUrl_index_witness :
  Loader.getPageUrl (Loader.text "../pages/blog/index.tsx")
  = Some (Loader.text "/blog").
Proof.
  exact (Loader.getPageUrl_index
           (Loader.text "../") (Loader.text "/blog") "/"%char
           (Loader.text "tsx")
           pages_first
           ltac:(apply (bool_decide_unpack _); vm_compute; exact I)
           ltac:(apply (bool_decide_unpack _); vm_compute; exact I)
           ltac:(apply (bool_decide_unpack _); vm_compute; exact I)).
Defined.

(** X26 on the example: a module that is not below [pages]. *)
Lemma getPageUrl_undefined_witness :
  Loader.getPageUrl (Loader.text "components/Button.tsx") = None.
Proof.
  apply Loader.getPageUrl_undefined. left. intros a b H.
  assert (Loader.includes (Loader.text "pages")
                          (Loader.text "components/Button.tsx") = true)
    as Hin by (apply Loader.includes_spec; eauto).
  vm_compute in Hin. discriminate.
Defined.
